(** * Voyage data e-mails: a shallow embedding of [main.py]

    The model follows the source file top to bottom:

    - the fragments of the Python standard library that [main.py] calls
      ([str.strip], [str.format], [re.compile] / [Pattern.match] /
      [Match.groupdict], [datetime.strptime], [os.path.join]), as executable
      functions;
    - the settings dictionaries (one record per dictionary, one [option]
      field per key, [None] standing for an absent key);
    - the collaborators of [settings] (database client, CSV folder) and of
      [csv_email] (CSV reader) as interfaces;
    - [VoyageEmailParser], [process_message] and [process_emails] in an
      exception-and-state monad whose state holds the objects the source
      mutates in place.  Logging is left out.

    Then come the notions the properties are stated with, examples, and the
    properties with their proofs. *)

From Stdlib Require Import Ascii String List Bool Arith Lia.
From stdpp Require Import base option list gmap strings.
Import ListNotations.

Local Open Scope string_scope.
Local Open Scope list_scope.

(** ** Characters and text

    Text is ASCII: a [string] is the sequence of its characters. *)

Definition code (c : ascii) : nat := nat_of_ascii c.

Definition in_range (lo hi : nat) (c : ascii) : bool :=
  (lo <=? code c)%nat && (code c <=? hi)%nat.

Definition is_digit (c : ascii) : bool := in_range 48 57 c.
Definition is_upper (c : ascii) : bool := in_range 65 90 c.
Definition is_lower (c : ascii) : bool := in_range 97 122 c.
Definition is_alpha (c : ascii) : bool := is_upper c || is_lower c.

(** [str.isspace] on ASCII: tab, line feed, vertical tab, form feed, carriage
    return, the four separators 28..31 and the space. *)
Definition is_space (c : ascii) : bool :=
  in_range 9 13 c || in_range 28 31 c || (code c =? 32)%nat.

(** The class behind [\w]. *)
Definition is_word (c : ascii) : bool :=
  is_alpha c || is_digit c || (code c =? 95)%nat.

Definition to_lower (c : ascii) : ascii :=
  if is_upper c then ascii_of_nat (code c + 32) else c.
Definition to_upper (c : ascii) : ascii :=
  if is_lower c then ascii_of_nat (code c - 32) else c.

Definition chars (s : string) : list ascii := list_ascii_of_string s.
Definition text (cs : list ascii) : string := string_of_list_ascii cs.

(** [str.strip()] with no argument. *)
Fixpoint lstrip (cs : list ascii) : list ascii :=
  match cs with
  | c :: cs' => if is_space c then lstrip cs' else cs
  | [] => []
  end.

Definition strip (s : string) : string :=
  text (rev (lstrip (rev (lstrip (chars s))))).

(** [''.join(parts)] *)
Definition join (parts : list string) : string :=
  fold_right String.append "" parts.

(** ** Exceptions *)

(** The exceptions that can leave the modelled code.  [NotModelled] is not a
    Python exception: it marks an input on which the library fragments below
    say nothing (a pattern, template or directive outside the fragment). *)
Inductive exn : Type :=
| KeyError (key : string)
| IndexError
| ValueError
| TypeError
| ReError
| StorageError
| NotModelled.

Inductive result (A : Type) : Type :=
| Ok (a : A)
| Raise (e : exn).
Arguments Ok {A} a.
Arguments Raise {A} e.

(** ** Regular expressions: the fragment of [re] *)

Module Re.

(** An item of a bracketed set. *)
Inductive citem : Type :=
| CRange (lo hi : ascii)
| CDigit | CSpace | CWord
| CNotDigit | CNotSpace | CNotWord.

Inductive regex : Type :=
| Eps
| Chr (c : ascii)
| AnyChar                                  (* [.]: anything but a newline *)
| Cls (neg : bool) (items : list citem)    (* [[...]], [[^...]], [\d] ... *)
| Bol                                      (* [^] *)
| Eol                                      (* [$] *)
| Seq (r1 r2 : regex)
| Alt (r1 r2 : regex)
| Rep (plus : bool) (r : regex)            (* greedy [r*], or [r+] when [plus] *)
| Group (name : option string) (r : regex).

Definition citem_matches (c : ascii) (i : citem) : bool :=
  match i with
  | CRange lo hi => in_range (code lo) (code hi) c
  | CDigit => is_digit c
  | CSpace => is_space c
  | CWord => is_word c
  | CNotDigit => negb (is_digit c)
  | CNotSpace => negb (is_space c)
  | CNotWord => negb (is_word c)
  end.

Definition cls_matches (neg : bool) (items : list citem) (c : ascii) : bool :=
  xorb neg (existsb (citem_matches c) items).

Definition newline : ascii := ascii_of_nat 10.

(** *** The matcher

    A matching state: how many characters lie before the current position,
    the text still ahead, and the named groups closed so far. *)
Record mstate : Type := MState {
  pos : nat;
  rest : list ascii;
  caps : gmap string string
}.

Definition advance (st : mstate) (cs : list ascii) : mstate :=
  MState (S (pos st)) cs (caps st).

Definition step_char (p : ascii -> bool) (st : mstate) : list mstate :=
  match rest st with
  | c :: cs => if p c then [advance st cs] else []
  | [] => []
  end.

Definition close_group (name : option string) (st st' : mstate) : mstate :=
  match name with
  | None => st'
  | Some n =>
      MState (pos st') (rest st')
        (<[n := text (take (pos st' - pos st) (rest st))]> (caps st'))
  end.

(** The loop of a greedy repetition.  [body] runs one iteration.  After an
    iteration that consumed text the loop goes on from where it ended; an
    iteration that consumed nothing ends the loop there, which keeps the loop
    total; [re_compile] makes no repetition whose iterations can consume
    nothing.  Giving up on further iterations comes last.  [fuel] bounds the
    iterations that consume text, so one more than the length of the text
    ahead is enough. *)
Definition iterate (loop : nat -> mstate -> list mstate) (st st' : mstate)
  : list mstate :=
  if (length (rest st') <? length (rest st))%nat
  then loop (S (length (rest st'))) st'
  else [st'].

Fixpoint star (body : mstate -> list mstate) (fuel : nat) (st : mstate)
  : list mstate :=
  match fuel with
  | O => [st]
  | S fuel' =>
      flat_map
        (fun st' =>
           if (length (rest st') <? length (rest st))%nat
           then star body fuel' st'
           else [st'])
        (body st) ++ [st]
  end.

(** [run r st] lists the states in which a match of [r] begun in [st] can
    end, in the order in which the backtracking engine tries them: the head
    of the list is the match the engine reports. *)
Fixpoint run (r : regex) (st : mstate) : list mstate :=
  match r with
  | Eps => [st]
  | Chr c => step_char (Ascii.eqb c) st
  | AnyChar => step_char (fun c => negb (Ascii.eqb c newline)) st
  | Cls neg items => step_char (cls_matches neg items) st
  | Bol => if (pos st =? 0)%nat then [st] else []
  | Eol =>
      match rest st with
      | [] => [st]
      | [c] => if Ascii.eqb c newline then [st] else []
      | _ => []
      end
  | Seq r1 r2 => flat_map (run r2) (run r1 st)
  | Alt r1 r2 => run r1 st ++ run r2 st
  | Rep plus r1 =>
      if plus
      then flat_map (iterate (star (run r1)) st) (run r1 st)
      else star (run r1) (S (length (rest st))) st
  | Group name r1 => map (close_group name st) (run r1 st)
  end.

Fixpoint group_names (r : regex) : list string :=
  match r with
  | Seq r1 r2 | Alt r1 r2 => group_names r1 ++ group_names r2
  | Rep _ r1 => group_names r1
  | Group (Some n) r1 => n :: group_names r1
  | Group None r1 => group_names r1
  | _ => []
  end.

Definition start (subject : string) : mstate :=
  MState 0 (chars subject) ∅.

(** [Pattern.match(subject)]: the match must begin at the first character;
    it need not reach the last.  [None] is Python's [None]. *)
Definition re_match (r : regex) (subject : string) : option mstate :=
  head (run r (start subject)).

(** [Pattern.search(subject)], which the source does not call; kept to
    compare with [re_match]. *)
Fixpoint search_from (r : regex) (p : nat) (cs : list ascii) : option mstate :=
  match head (run r (MState p cs ∅)) with
  | Some st => Some st
  | None =>
      match cs with
      | [] => None
      | _ :: cs' => search_from r (S p) cs'
      end
  end.

Definition re_search (r : regex) (subject : string) : option mstate :=
  search_from r 0 (chars subject).

(** [Match.groupdict()]: every named group of the pattern, with [None] for a
    group that took no part in the match. *)
Definition groupdict (r : regex) (m : mstate) : gmap string (option string) :=
  list_to_map (map (fun n => (n, caps m !! n)) (group_names r)).

(** *** [re.compile]: reading a pattern

    The fragment: literal characters, [.], [^], [$], the class escapes
    [\d \s \w \D \S \W], escaped punctuation, bracketed sets with ranges and
    negation, the greedy postfix operators [*], [+] and [?], alternation,
    and the groups [(...)], [(?:...)] and [(?P<name>...)].  A pattern using
    anything else is [Unsupported]; a pattern that [re] rejects inside the
    fragment is a [BadPattern].

    A [*] or [+] applied to something that can match the empty text is
    [Unsupported] too: which iterations the engine of [re] then runs, and
    which groups they leave set, is not modelled. *)
Inductive parsed (A : Type) : Type :=
| Parsed (a : A) (tl : list ascii)
| BadPattern
| Unsupported.
Arguments Parsed {A} a tl.
Arguments BadPattern {A}.
Arguments Unsupported {A}.

Definition pbind {A B : Type} (p : parsed A) (k : A -> list ascii -> parsed B)
  : parsed B :=
  match p with
  | Parsed a tl => k a tl
  | BadPattern => BadPattern
  | Unsupported => Unsupported
  end.

Definition is_chr (c : ascii) (s : string) : bool :=
  match s with
  | String d EmptyString => Ascii.eqb c d
  | _ => false
  end.

Definition class_escape (c : ascii) : option citem :=
  if is_chr c "d" then Some CDigit
  else if is_chr c "s" then Some CSpace
  else if is_chr c "w" then Some CWord
  else if is_chr c "D" then Some CNotDigit
  else if is_chr c "S" then Some CNotSpace
  else if is_chr c "W" then Some CNotWord
  else None.

(** One item of a set; [tl] follows the item's first character [lo]. *)
Definition set_range (lo : ascii) (tl : list ascii) : parsed citem :=
  match tl with
  | dash :: hi :: tl' =>
      if is_chr dash "-" && negb (is_chr hi "]") then
        if is_chr hi "\" then Unsupported
        else if (code lo <=? code hi)%nat then Parsed (CRange lo hi) tl'
        else BadPattern
      else Parsed (CRange lo lo) tl
  | _ => Parsed (CRange lo lo) tl
  end.

Definition set_item (cs : list ascii) : parsed citem :=
  match cs with
  | [] => BadPattern
  | c :: tl =>
      if is_chr c "\" then
        match tl with
        | [] => BadPattern
        | e :: tl' =>
            match class_escape e with
            | Some i =>
                match tl' with
                | dash :: nxt :: _ =>
                    if is_chr dash "-" && negb (is_chr nxt "]")
                    then BadPattern else Parsed i tl'
                | _ => Parsed i tl'
                end
            | None =>
                if is_alpha e || is_digit e then Unsupported
                else set_range e tl'
            end
        end
      else set_range c tl
  end.

Fixpoint parse_set (fuel : nat) (first : bool) (cs : list ascii)
  : parsed (list citem) :=
  match fuel with
  | O => BadPattern
  | S fuel' =>
      match cs with
      | [] => BadPattern
      | c :: tl =>
          if is_chr c "]" && negb first then Parsed [] tl
          else pbind (set_item cs) (fun i tl1 =>
               pbind (parse_set fuel' false tl1) (fun items tl2 =>
               Parsed (i :: items) tl2))
      end
  end.

(** The name of a named group, up to [>]. *)
Fixpoint group_name (cs : list ascii) : option (list ascii * list ascii) :=
  match cs with
  | [] => None
  | c :: tl =>
      if is_chr c ">" then Some ([], tl)
      else match group_name tl with
           | Some (n, tl') => Some (c :: n, tl')
           | None => None
           end
  end.

Definition is_identifier (n : list ascii) : bool :=
  match n with
  | [] => false
  | c :: tl => (is_alpha c || is_chr c "_") && forallb is_word tl
  end.

(** The pattern can match the empty text. *)
Fixpoint nullable (r : regex) : bool :=
  match r with
  | Eps | Bol | Eol => true
  | Chr _ | AnyChar | Cls _ _ => false
  | Seq r1 r2 => nullable r1 && nullable r2
  | Alt r1 r2 => nullable r1 || nullable r2
  | Rep plus r1 => negb plus || nullable r1
  | Group _ r1 => nullable r1
  end.

Definition parse_postfix (a : regex) (tl : list ascii) : parsed regex :=
  match tl with
  | q :: tl' =>
      if is_chr q "*" || is_chr q "+" || is_chr q "?" then
        match a with
        | Bol | Eol => BadPattern
        | _ =>
            let a' := if is_chr q "*" then Rep false a
                      else if is_chr q "+" then Rep true a
                      else Alt a Eps in
            match tl' with
            | q2 :: _ =>
                if is_chr q2 "*" then BadPattern
                else if is_chr q2 "?" || is_chr q2 "+" || is_chr q2 "{" then Unsupported
                else if negb (is_chr q "?") && nullable a then Unsupported
                else Parsed a' tl'
            | [] =>
                if negb (is_chr q "?") && nullable a then Unsupported
                else Parsed a' tl'
            end
        end
      else if is_chr q "{" then Unsupported
      else Parsed a tl
  | [] => Parsed a tl
  end.

Definition expect_close (r : regex) (tl : list ascii) : parsed regex :=
  match tl with
  | c :: tl' => if is_chr c ")" then Parsed r tl' else BadPattern
  | [] => BadPattern
  end.

Fixpoint parse_alt (fuel : nat) (cs : list ascii) : parsed regex :=
  match fuel with
  | O => Unsupported
  | S fuel' =>
      pbind (parse_seq fuel' cs) (fun r1 tl =>
        match tl with
        | c :: tl' =>
            if is_chr c "|"
            then pbind (parse_alt fuel' tl') (fun r2 tl2 => Parsed (Alt r1 r2) tl2)
            else Parsed r1 tl
        | [] => Parsed r1 tl
        end)
  end
with parse_seq (fuel : nat) (cs : list ascii) : parsed regex :=
  match fuel with
  | O => Unsupported
  | S fuel' =>
      match cs with
      | [] => Parsed Eps []
      | c :: _ =>
          if is_chr c "|" || is_chr c ")" then Parsed Eps cs
          else pbind (parse_atom fuel' cs) (fun a tl =>
               pbind (parse_postfix a tl) (fun a' tl' =>
               pbind (parse_seq fuel' tl') (fun r tl'' =>
               Parsed (Seq a' r) tl'')))
      end
  end
with parse_atom (fuel : nat) (cs : list ascii) : parsed regex :=
  match fuel with
  | O => Unsupported
  | S fuel' =>
      match cs with
      | [] => BadPattern
      | c :: tl =>
          if is_chr c "(" then
            match tl with
            | q :: tl1 =>
                if is_chr q "?" then
                  match tl1 with
                  | k :: tl2 =>
                      if is_chr k ":" then
                        pbind (parse_alt fuel' tl2) expect_close
                      else if is_chr k "P" then
                        match tl2 with
                        | lt :: tl3 =>
                            if is_chr lt "<" then
                              match group_name tl3 with
                              | Some (n, tl4) =>
                                  if is_identifier n then
                                    pbind (parse_alt fuel' tl4) (fun r tl5 =>
                                      expect_close (Group (Some (text n)) r) tl5)
                                  else BadPattern
                              | None => BadPattern
                              end
                            else Unsupported
                        | [] => BadPattern
                        end
                      else Unsupported
                  | [] => BadPattern
                  end
                else
                  pbind (parse_alt fuel' tl) (fun r tl5 =>
                    expect_close (Group None r) tl5)
            | [] => BadPattern
            end
          else if is_chr c "[" then
            match tl with
            | n :: tl1 =>
                if is_chr n "^"
                then pbind (parse_set (length tl1) true tl1) (fun items tl2 =>
                       Parsed (Cls true items) tl2)
                else pbind (parse_set (length tl) true tl) (fun items tl2 =>
                       Parsed (Cls false items) tl2)
            | [] => BadPattern
            end
          else if is_chr c "\" then
            match tl with
            | e :: tl1 =>
                match class_escape e with
                | Some i => Parsed (Cls false [i]) tl1
                | None =>
                    if is_alpha e || is_digit e then Unsupported
                    else Parsed (Chr e) tl1
                end
            | [] => BadPattern
            end
          else if is_chr c "." then Parsed AnyChar tl
          else if is_chr c "^" then Parsed Bol tl
          else if is_chr c "$" then Parsed Eol tl
          else if is_chr c "*" || is_chr c "+" || is_chr c "?" then BadPattern
          else if is_chr c "{" then Unsupported
          else Parsed (Chr c) tl
      end
  end.

(** [re.compile(pattern)].  A group name used twice is rejected, as [re]
    does. *)
Definition re_compile (pattern : string) : result regex :=
  let cs := chars pattern in
  match parse_alt (3 * length cs + 3) cs with
  | Parsed r [] =>
      if bool_decide (NoDup (group_names r)) then Ok r else Raise ReError
  | Parsed _ (_ :: _) => Raise ReError      (* a closing bracket too many *)
  | BadPattern => Raise ReError
  | Unsupported => Raise NotModelled
  end.

End Re.

Arguments Re.is_chr : simpl never.

(** ** [str.format] with keyword arguments

    The template is read left to right.  [{{] and [}}] stand for a brace; a
    field [{name}] is replaced by the text of [kwargs[name]] ([None] prints as
    ["None"]).  A field is split at its first [!] or [:] into the field name
    and a conversion or format specification; the syntax of the conversion is
    checked first ([ValueError]), then the argument name (the field name up
    to its first [.]) is looked up: a missing name is a [KeyError], an empty
    or numeric one asks for a positional argument, of which there is none
    ([IndexError]).  Indexing ([[...]]), attribute access, conversions and
    format specifications applied to a value that is present are outside the
    fragment.  So are the fields in which the library takes a brace for the
    conversion character (a [!] straight before the closing brace, an
    opening brace after a [!]), and the numeric names of more than nine
    digits, which are an index or a [ValueError] according to the size of
    the machine word. *)

Fixpoint split_at (stop : ascii -> bool) (cs : list ascii)
  : list ascii * list ascii :=
  match cs with
  | [] => ([], [])
  | c :: tl =>
      if stop c then ([], cs)
      else let (a, b) := split_at stop tl in (c :: a, b)
  end.

Definition one_of (s : string) (c : ascii) : bool :=
  existsb (Ascii.eqb c) (chars s).

Definition str_of (v : option string) : string :=
  match v with
  | Some s => s
  | None => "None"
  end.

Definition bad_conversion (tail : list ascii) : bool :=
  match tail with
  | bang :: tl =>
      Re.is_chr bang "!" &&
      match tl with
      | [] => true
      | [_] => false
      | _ :: colon :: _ => negb (Re.is_chr colon ":")
      end
  | [] => false
  end.

(** The field ends in [!]: the brace that follows is the conversion
    character. *)
Definition open_conversion (tail : list ascii) : bool :=
  match tail with
  | [bang] => Re.is_chr bang "!"
  | _ => false
  end.

Definition format_field (field : list ascii) (kwargs : gmap string (option string))
  : result string :=
  if existsb (one_of "[") field then Raise NotModelled
  else
    let (fname, tail) := split_at (one_of "!:") field in
    if open_conversion tail then Raise NotModelled
    else if bad_conversion tail then Raise ValueError
    else
      let (name, attrs) := split_at (one_of ".") fname in
      if forallb is_digit name then
        (if (length name <=? 9)%nat then Raise IndexError else Raise NotModelled)
      else match kwargs !! text name with
           | None => Raise (KeyError (text name))
           | Some v =>
               match attrs, tail with
               | [], [] => Ok (str_of v)
               | _, _ => Raise NotModelled
               end
           end.

(** Where the scan of a template stands: in literal text, just after an
    opening or a closing brace, or inside a field whose characters so far are
    kept in reverse. *)
Inductive scan_mode : Type :=
| InText
| AfterOpen
| AfterClose
| InField (seen : list ascii).

Definition emit (c : ascii) (r : result string) : result string :=
  match r with
  | Ok s => Ok (String c s)
  | Raise e => Raise e
  end.

Definition emit_field (v : result string) (r : result string) : result string :=
  match v with
  | Ok s1 =>
      match r with
      | Ok s2 => Ok (s1 +:+ s2)
      | Raise e => Raise e
      end
  | Raise e => Raise e
  end.

Fixpoint format_chars (mode : scan_mode) (cs : list ascii)
  (kwargs : gmap string (option string)) : result string :=
  match cs with
  | [] =>
      match mode with
      | InText => Ok ""
      | _ => Raise ValueError
      end
  | c :: tl =>
      match mode with
      | InText =>
          if Re.is_chr c "{" then format_chars AfterOpen tl kwargs
          else if Re.is_chr c "}" then format_chars AfterClose tl kwargs
          else emit c (format_chars InText tl kwargs)
      | AfterOpen =>
          if Re.is_chr c "{" then emit c (format_chars InText tl kwargs)
          else if Re.is_chr c "}"
          then emit_field (format_field [] kwargs) (format_chars InText tl kwargs)
          else format_chars (InField [c]) tl kwargs
      | AfterClose =>
          if Re.is_chr c "}" then emit c (format_chars InText tl kwargs)
          else Raise ValueError
      | InField seen =>
          if Re.is_chr c "}"
          then emit_field (format_field (rev seen) kwargs)
                 (format_chars InText tl kwargs)
          else if Re.is_chr c "{"
          then (if existsb (one_of "[:!") seen then Raise NotModelled
                else Raise ValueError)
          else format_chars (InField (c :: seen)) tl kwargs
      end
  end.

Definition str_format (template : string) (kwargs : gmap string (option string))
  : result string :=
  format_chars InText (chars template) kwargs.

(** ** [os.path.join(a, b)] (POSIX) *)

Definition path_join (a b : string) : string :=
  match chars b with
  | c :: _ =>
      if Re.is_chr c "/" then b
      else match rev (chars a) with
           | [] => b
           | l :: _ => if Re.is_chr l "/" then a +:+ b else a +:+ "/" +:+ b
           end
  | [] =>
      match rev (chars a) with
      | [] => b
      | l :: _ => if Re.is_chr l "/" then a +:+ b else a +:+ "/" +:+ b
      end
  end.

(** ** [datetime.strptime(data, format)]

    As the library does it: the format is turned into a pattern (a named
    group per directive, any run of white space standing for [\s+], letters
    matching in either case), the pattern is matched at the start of the
    text and must use all of it, and the numbers read are checked to make a
    date.  Directives modelled: [%Y %m %d %H %M %S %%]. *)

Module Strptime.

Record datetime : Type := Datetime {
  year : nat; month : nat; day : nat;
  hour : nat; minute : nat; second : nat
}.

Definition directive_pattern (d : ascii) : option string :=
  if Re.is_chr d "Y" then Some "(?P<Y>\d\d\d\d)"
  else if Re.is_chr d "m" then Some "(?P<m>1[0-2]|0[1-9]|[1-9])"
  else if Re.is_chr d "d" then Some "(?P<d>3[0-1]|[1-2]\d|0[1-9]|[1-9]| [1-9])"
  else if Re.is_chr d "H" then Some "(?P<H>2[0-3]|[0-1]\d|\d)"
  else if Re.is_chr d "M" then Some "(?P<M>[0-5]\d|\d)"
  else if Re.is_chr d "S" then Some "(?P<S>6[0-1]|[0-5]\d|\d)"
  else if Re.is_chr d "%" then Some "%"
  else None.

(** The directives of the library that are left out here. *)
Definition other_directive (d : ascii) : bool :=
  one_of "aAbBcfGIjpuUVwWxXyzZ" d.

Definition literal_pattern (c : ascii) : string :=
  if is_alpha c then text ["["%char; to_lower c; to_upper c; "]"%char]
  else if one_of "\.^$*+?(){}[]|" c then text ["\"%char; c]
  else text [c].

Fixpoint time_pattern (after_space : bool) (cs : list ascii) : result string :=
  match cs with
  | [] => Ok ""
  | c :: tl =>
      if Re.is_chr c "%" then
        match tl with
        | [] => Raise ValueError
        | d :: tl' =>
            match directive_pattern d with
            | Some p =>
                match time_pattern false tl' with
                | Ok s => Ok (p +:+ s)
                | Raise e => Raise e
                end
            | None =>
                if other_directive d then Raise NotModelled
                else Raise ValueError
            end
        end
      else
        match time_pattern (is_space c) tl with
        | Ok s =>
            Ok ((if is_space c
                 then (if after_space then "" else "\s+")
                 else literal_pattern c) +:+ s)
        | Raise e => Raise e
        end
  end.

(** [int(text)] for the text of a directive's group: digits, after an
    optional space. *)
Definition digit_value (c : ascii) : nat := code c - 48.

Definition int_of (s : string) : nat :=
  fold_left (fun n c => 10 * n + digit_value c) (lstrip (chars s)) 0.

Definition field (m : Re.mstate) (name : string) (default : nat) : nat :=
  match Re.caps m !! name with
  | Some s => int_of s
  | None => default
  end.

Definition is_leap (y : nat) : bool :=
  (y mod 4 =? 0)%nat && (negb (y mod 100 =? 0)%nat || (y mod 400 =? 0)%nat).

Definition days_in_month (y m : nat) : nat :=
  match m with
  | 2 => if is_leap y then 29 else 28
  | 4 | 6 | 9 | 11 => 30
  | _ => 31
  end.

(** The checks of the [datetime] constructor. *)
Definition valid (d : datetime) : bool :=
  (1 <=? year d)%nat && (year d <? 100 * 100)%nat
  && (1 <=? month d)%nat && (month d <=? 12)%nat
  && (1 <=? day d)%nat && (day d <=? days_in_month (year d) (month d))%nat
  && (hour d <=? 23)%nat && (minute d <=? 59)%nat && (second d <=? 59)%nat.

Definition strptime (data format : string) : result datetime :=
  match time_pattern false (chars format) with
  | Raise e => Raise e
  | Ok pattern =>
      match Re.re_compile pattern with
      | Raise e => Raise e
      | Ok r =>
          match Re.re_match r data with
          | None => Raise ValueError                (* does not match format *)
          | Some m =>
              match Re.rest m with
              | _ :: _ => Raise ValueError          (* unconverted data remains *)
              | [] =>
                  let d := Datetime (field m "Y" 1900) (field m "m" 1)
                             (field m "d" 1) (field m "H" 0)
                             (field m "M" 0) (field m "S" 0) in
                  if valid d then Ok d else Raise ValueError
              end
          end
      end
  end.

End Strptime.

(** ** Settings

    One record per dictionary of [settings.yaml], one field per key the source
    reads; [None] is an absent key, which the source meets as a [KeyError]. *)

(** The details of one CSV column: keys [field], [type], [csv_format]. *)
Record column_details : Type := ColumnDetails {
  col_field : option string;
  col_type : option string;
  col_csv_format : option string
}.

(** [csv_type['check']]: keys [from], [subject_regex] and, once the pattern
    has been compiled, [subject_regex_compiled]. *)
Record check_settings : Type := MkCheck {
  check_from : option string;
  subject_regex : option (list string);
  subject_regex_compiled : option Re.regex
}.

(** [csv_type['save_table']]: key [file_name_format]. *)
Record save_table_settings : Type := SaveTable {
  table_file_name_format : option string
}.

(** [csv_type['load_csv']]: key [columns], a dictionary from CSV column name
    to details, in the order of the settings file. *)
Record load_csv_settings : Type := LoadCsv {
  columns : option (list (string * column_details))
}.

(** [csv_type['save_csv']]: key [file_name_format]. *)
Record save_csv_settings : Type := SaveCsv {
  csv_file_name_format : option string
}.

Record csv_type : Type := CsvType {
  check : option check_settings;
  save_table : option save_table_settings;
  load_csv : option load_csv_settings;
  save_csv : option save_csv_settings
}.

(** A message, as far as [process_message] looks at it: [msg_from] is
    [email.utils.parseaddr(message['From'])[1]], [msg_subject] is
    [message['Subject']] ([None] when the header is missing), [msg_content] is
    the text handed to the CSV reader. *)
Record message : Type := Message {
  msg_from : string;
  msg_subject : option string;
  msg_content : string
}.

(** A value stored in a database field. *)
Inductive value : Type :=
| VStr (s : string)
| VDatetime (d : Strptime.datetime).

(** ** Collaborators *)

(** The database client of [settings.get_database_client].  The two
    operations that write may fail; a failure leaves the database as it
    was. *)
Class Storage (D : Type) : Type := {
  table_exists : D -> string -> bool;
  create_table : D -> string -> list (string * column_details) -> result D;
  insert_row : D -> string -> gmap string value -> result D
}.

(** The file system behind [open(path, 'w')] and [write]. *)
Class Files (F : Type) : Type := {
  write_file : F -> string -> string -> result F
}.

(** What [settings] and [csv_email] supply beside the clients: the folder
    [settings.CSV_FOLDER], and the CSV reader, which gives the records of a
    text, each a dictionary from column name to text. *)
Class Environment : Type := {
  CSV_FOLDER : string;
  csv_records : string -> list (gmap string string)
}.

(** Calls to the collaborators and to [re.compile], in the order made.
    [CallCompile i p]: the pattern [p] of the [i]-th CSV type is compiled. *)
Inductive event : Type :=
| CallTableExists (name : string)
| CallCreateTable (name : string) (cols : list (string * column_details))
| CallInsertRow (name : string) (fields : gmap string value)
| CallCompile (i : nat) (pattern : string)
| CallWrite (path content : string).

Definition is_storage_call (e : event) : bool :=
  match e with
  | CallTableExists _ | CallCreateTable _ _ | CallInsertRow _ _ => true
  | _ => false
  end.

Definition is_create_table (e : event) : bool :=
  match e with
  | CallCreateTable _ _ => true
  | _ => false
  end.

Definition is_insert_row (e : event) : bool :=
  match e with
  | CallInsertRow _ _ => true
  | _ => false
  end.

Definition is_write (e : event) : bool :=
  match e with
  | CallWrite _ _ => true
  | _ => false
  end.

Definition is_compile_of (i : nat) (e : event) : bool :=
  match e with
  | CallCompile j _ => (i =? j)%nat
  | _ => false
  end.

(** ** The result monad of pure code *)

Definition result_bind {A B : Type} (r : result A) (k : A -> result B) : result B :=
  match r with
  | Ok a => k a
  | Raise e => Raise e
  end.

(** [d[key]] *)
Definition item {A : Type} (o : option A) (key : string) : result A :=
  match o with
  | Some a => Ok a
  | None => Raise (KeyError key)
  end.

(** [try: body / except KeyError: handler] *)
Definition except_KeyError {A : Type} (body : result A) (handler : result A)
  : result A :=
  match body with
  | Raise (KeyError _) => handler
  | r => r
  end.

Declare Scope result_scope.
Delimit Scope result_scope with result.
Notation "'let?' x := r 'in' k" := (result_bind r (fun x => k))
  (at level 10, x pattern, r at level 100, k at level 200) : result_scope.

(** ** [VoyageEmailParser], the part that touches no collaborator *)

(** The attributes of a [VoyageEmailParser] beside the database. *)
Record parser : Type := Parser {
  table_name : string;
  save_file_path : option string;
  csv_columns : list (string * string * column_details)
}.

(** What one turn of the loop of [process_csv_row] does with its column:
    [continue], an assignment to [fields], or an exception. *)
Inductive column_outcome : Type :=
| Skip
| Store (field_name : string) (v : value)
| Throw (e : exn).

Section WithSettings.

Context `{Environment}.

Local Open Scope result_scope.

(** The body of [__init__]'s [try]: the path of the copy of the CSV. *)
Definition save_path (settings : csv_type)
  (subject_values : gmap string (option string)) : result (option string) :=
  except_KeyError
    (let? save_csv := item (save_csv settings) "save_csv" in
     let? file_name_format :=
       item (csv_file_name_format save_csv) "file_name_format" in
     let? file_name := str_format (strip file_name_format) subject_values in
     Ok (Some (path_join CSV_FOLDER file_name)))
    (Ok None).

(** [VoyageEmailParser.__init__] *)
Definition parser_init (settings : csv_type) (table_name : string)
  (subject_values : gmap string (option string)) : result parser :=
  let? save_file_path := save_path settings subject_values in
  let? load_csv := item (load_csv settings) "load_csv" in
  let? columns := item (columns load_csv) "columns" in
  Ok (Parser table_name save_file_path
        (map (fun '(csv_name, details) =>
                (csv_name, default csv_name (col_field details), details))
             columns)).

(** One turn of the loop of [process_csv_row] (lines 115-133). *)
Definition process_column (csv_row : gmap string string)
  (column : string * string * column_details) : column_outcome :=
  let '(csv_name, field_name, details) := column in
  match csv_row !! csv_name, col_type details with
  | Some value, Some item_type =>
      if String.eqb "datetime" item_type then
        match col_csv_format details with
        | None => Skip
        | Some csv_format =>
            match Strptime.strptime value (strip csv_format) with
            | Ok d => Store field_name (VDatetime d)
            | Raise e => Throw e
            end
        end
      else Store field_name (VStr value)
  | _, _ => Skip
  end.

(** The loop of [process_csv_row]: the dictionary [fields] after the columns
    listed, or the exception that ended the loop. *)
Fixpoint row_fields (csv_row : gmap string string)
  (columns : list (string * string * column_details))
  (fields : gmap string value) : result (gmap string value) :=
  match columns with
  | [] => Ok fields
  | column :: columns' =>
      match process_column csv_row column with
      | Skip => row_fields csv_row columns' fields
      | Store field_name v =>
          row_fields csv_row columns' (<[field_name := v]> fields)
      | Throw e => Raise e
      end
  end.

End WithSettings.

(** ** The stateful code *)

Declare Scope run_scope.
Delimit Scope run_scope with run.

Section Program.

Context {D F : Type} `{Storage D} `{Files F} `{Environment}.

(** The objects that outlive a call: the list of CSV types, whose [check]
    dictionaries [process_message] writes to; the database; the files; and
    the calls made so far. *)
Record world : Type := World {
  csv_file_types : list csv_type;
  database : D;
  files : F;
  calls : list event
}.

(** A computation that may raise, in a world it may change.  The world is
    returned in both cases: what was written before an exception stays
    written. *)
Definition M (A : Type) : Type := world -> result A * world.

Definition ret {A : Type} (a : A) : M A := fun w => (Ok a, w).

Definition raise {A : Type} (e : exn) : M A := fun w => (Raise e, w).

Definition bind {A B : Type} (m : M A) (k : A -> M B) : M B :=
  fun w =>
    match m w with
    | (Ok a, w') => k a w'
    | (Raise e, w') => (Raise e, w')
    end.

Definition lift {A : Type} (r : result A) : M A := fun w => (r, w).

Notation "'let!' x := m 'in' k" := (bind m (fun x => k))
  (at level 10, x pattern, m at level 100, k at level 200) : run_scope.
Notation "m ;; k" := (bind m (fun _ => k))
  (at level 100, k at level 200, right associativity) : run_scope.

Local Open Scope run_scope.

Definition record_call (e : event) : M unit :=
  fun w => (Ok tt, World (csv_file_types w) (database w) (files w) (calls w ++ [e])).

Definition set_database (d : D) : M unit :=
  fun w => (Ok tt, World (csv_file_types w) d (files w) (calls w)).

Definition set_files (f : F) : M unit :=
  fun w => (Ok tt, World (csv_file_types w) (database w) f (calls w)).

(** [database.table_exists(name)] *)
Definition db_table_exists (name : string) : M bool :=
  record_call (CallTableExists name);;
  fun w => (Ok (table_exists (database w) name), w).

(** [database.create_table(name, columns)] *)
Definition db_create_table (name : string)
  (cols : list (string * column_details)) : M unit :=
  record_call (CallCreateTable name cols);;
  let! d := fun w => (create_table (database w) name cols, w) in
  set_database d.

(** [database.insert_row(name, fields)] *)
Definition db_insert_row (name : string) (fields : gmap string value) : M unit :=
  record_call (CallInsertRow name fields);;
  let! d := fun w => (insert_row (database w) name fields, w) in
  set_database d.

(** [with open(path, 'w') as f: f.write(content)] *)
Definition write (path content : string) : M unit :=
  record_call (CallWrite path content);;
  let! f := fun w => (write_file (files w) path content, w) in
  set_files f.

(** *** [VoyageEmailParser] *)

(** [VoyageEmailParser.process_csv_row] *)
Definition process_csv_row (self : parser) (csv_row : gmap string string)
  : M unit :=
  let! fields := lift (row_fields csv_row (csv_columns self) ∅) in
  db_insert_row (table_name self) fields.

(** Modelled from the spec: [CSVEmailParser.process_csv_content] of
    [csv_email], which is not part of the sources at hand.  The spec has the
    records of the text streamed from the CSV reader and the row method
    called for each, in order, with nothing caught in between. *)
Fixpoint for_each_row (self : parser) (rows : list (gmap string string))
  : M unit :=
  match rows with
  | [] => ret tt
  | csv_row :: rows' => process_csv_row self csv_row;; for_each_row self rows'
  end.

Definition base_process_csv_content (self : parser) (content : string) : M unit :=
  for_each_row self (csv_records content).

(** [VoyageEmailParser.process_csv_content] *)
Definition process_csv_content (self : parser) (content : string) : M unit :=
  match save_file_path self with
  | Some path => write path content
  | None => ret tt
  end;;
  base_process_csv_content self content.

(** Modelled from the spec: [CSVEmailParser.process_message] of
    [csv_email], which hands the text of the message to
    [process_csv_content]. *)
Definition parser_process_message (self : parser) (m : message) : M unit :=
  process_csv_content self (msg_content m).

(** *** [process_message] *)

(** The [i]-th element of [csv_file_types].  The loop below only asks for
    elements that exist. *)
Definition nth_type (i : nat) : M csv_type :=
  fun w =>
    match csv_file_types w !! i with
    | Some t => (Ok t, w)
    | None => (Raise IndexError, w)
    end.

Definition with_compiled (r : Re.regex) (t : csv_type) : csv_type :=
  CsvType
    (option_map
       (fun c => MkCheck (check_from c) (subject_regex c) (Some r))
       (check t))
    (save_table t) (load_csv t) (save_csv t).

(** [check['subject_regex_compiled'] = subject_regex], where [check] is the
    dictionary of the [i]-th CSV type. *)
Definition store_compiled (i : nat) (r : Re.regex) : M unit :=
  fun w =>
    (Ok tt,
     World (alter (with_compiled r) i (csv_file_types w))
       (database w) (files w) (calls w)).

(** [re.compile(pattern)], called for the [i]-th CSV type. *)
Definition compile (i : nat) (pattern : string) : M Re.regex :=
  record_call (CallCompile i pattern);;
  lift (Re.re_compile pattern).

(** How the checks of one CSV type end: [continue], or a match with the
    values taken from the subject. *)
Inductive checked : Type :=
| Continue
| Matched (match_dict : gmap string (option string)).

(** Lines 182-211: the checks on the [i]-th CSV type. *)
Definition check_type (i : nat) (m : message) : M checked :=
  let! csv_type := nth_type i in
  let! check := lift (item (check csv_type) "check") in
  let! required_from := lift (item (check_from check) "from") in
  if negb (String.eqb (msg_from m) required_from) then ret Continue
  else
    let! subject_regex :=
      match subject_regex_compiled check with
      | Some compiled => ret compiled
      | None =>
          let! subject_regex_list :=
            lift (item (subject_regex check) "subject_regex") in
          let! compiled := compile i (join subject_regex_list) in
          store_compiled i compiled;;
          ret compiled
      end in
    let! subject :=
      match msg_subject m with
      | Some s => ret s
      | None => raise TypeError
      end in
    match Re.re_match subject_regex subject with
    | None => ret Continue
    | Some match_data => ret (Matched (Re.groupdict subject_regex match_data))
    end.

(** Lines 215-238: the message is of the [i]-th CSV type. *)
Definition load_message (i : nat) (m : message)
  (match_dict : gmap string (option string)) : M bool :=
  let! csv_type := nth_type i in
  let! save_table := lift (item (save_table csv_type) "save_table") in
  let! table_name_format :=
    lift (item (table_file_name_format save_table) "file_name_format") in
  let! table_name := lift (str_format (strip table_name_format) match_dict) in
  let! present := db_table_exists table_name in
  (if negb present then
     let! load_csv := lift (item (load_csv csv_type) "load_csv") in
     let! columns := lift (item (columns load_csv) "columns") in
     db_create_table table_name columns
   else ret tt);;
  let! parser := lift (parser_init csv_type table_name match_dict) in
  parser_process_message parser m;;
  ret true.

(** The [for] loop of [process_message], from the [i]-th CSV type on, with
    [n] types left. *)
Fixpoint try_types (n i : nat) (m : message) : M bool :=
  match n with
  | O => ret false
  | S n' =>
      let! c := check_type i m in
      match c with
      | Continue => try_types n' (S i) m
      | Matched match_dict => load_message i m match_dict
      end
  end.

(** [process_message(database, message, csv_file_types)]; the database and
    the CSV types are those of the world. *)
Definition process_message (m : message) : M bool :=
  fun w => try_types (length (csv_file_types w)) 0 m w.

(** *** [process_emails] *)

(** The loop over the inbox: the value of [process_message] is dropped and
    nothing is caught. *)
Fixpoint for_each_message (inbox : list message) : M unit :=
  match inbox with
  | [] => ret tt
  | m :: inbox' => process_message m;; for_each_message inbox'
  end.

(** [process_emails()], given what [get_csv_file_types],
    [get_database_client] and the e-mail client deliver. *)
Definition process_emails (settings : option (list csv_type)) (db : D)
  (fs : F) (inbox : list message) : result bool * world :=
  match settings with
  | None => (Ok false, World [] db fs [])
  | Some types => (for_each_message inbox;; ret true) (World types db fs [])
  end.

End Program.

Arguments World {D F} _ _ _ _.

(** ** Collaborators in memory

    A database, a file system and a CSV reader to run the code on: tables are
    kept with their column settings and their rows; a table cannot be created
    twice and rows go to existing tables only; the reader splits lines at
    line feeds and cells at commas and names the cells after the first
    line. *)

Module Memory.

Abbreviation db :=
  (gmap string (list (string * column_details) * list (gmap string value))).

#[export] Instance db_storage : Storage db := {|
  table_exists d name := bool_decide (is_Some (d !! name));
  create_table d name cols :=
    match d !! name with
    | Some _ => Raise StorageError
    | None => Ok (<[name := (cols, [])]> d)
    end;
  insert_row d name fields :=
    match d !! name with
    | Some (cols, rows) => Ok (<[name := (cols, rows ++ [fields])]> d)
    | None => Raise StorageError
    end
|}.

Abbreviation fs := (gmap string string).

#[export] Instance fs_files : Files fs := {|
  write_file f path content := Ok (<[path := content]> f)
|}.

Fixpoint split_on (sep : ascii) (cs : list ascii) : list (list ascii) :=
  match cs with
  | [] => [[]]
  | c :: tl =>
      if Ascii.eqb c sep then [] :: split_on sep tl
      else match split_on sep tl with
           | cell :: cells => (c :: cell) :: cells
           | [] => [[c]]
           end
  end.

Definition read_csv (content : string) : list (gmap string string) :=
  match filter (fun l => l <> []) (split_on Re.newline (chars content)) with
  | [] => []
  | header :: lines =>
      let names := map text (split_on ","%char header) in
      map (fun l => list_to_map (zip names (map text (split_on ","%char l))))
        lines
  end.

#[export] Instance environment : Environment := {|
  CSV_FOLDER := "/data/csv";
  csv_records := read_csv
|}.

Definition world0 (types : list csv_type) : world :=
  World types (∅ : db) (∅ : fs) [].

End Memory.

Arguments world D F : clear implicits.

(** ** The classifier, as a function of the settings

    What the checks of lines 182-211 come to for one CSV type and one message,
    and for a list of types: who is chosen, what becomes of the types, and
    which patterns are compiled on the way.  [check_type_spec] and
    [try_types_spec] below show that the loop of [process_message] computes
    exactly this. *)

(** The pattern a [check] dictionary matches subjects with: the compiled one
    if it is stored, the text compiled otherwise. *)
Definition pattern_of (c : check_settings) : result Re.regex :=
  match subject_regex_compiled c with
  | Some compiled => Ok compiled
  | None =>
      result_bind (item (subject_regex c) "subject_regex")
        (fun l => Re.re_compile (join l))
  end.

Inductive verdict : Type :=
| Rejected
| Accepted (match_dict : gmap string (option string))
| Failed (e : exn).

Definition verdict_of (m : message) (t : csv_type) : verdict :=
  match check t with
  | None => Failed (KeyError "check")
  | Some c =>
      match check_from c with
      | None => Failed (KeyError "from")
      | Some required_from =>
          if negb (String.eqb (msg_from m) required_from) then Rejected
          else
            match pattern_of c with
            | Raise e => Failed e
            | Ok r =>
                match msg_subject m with
                | None => Failed TypeError
                | Some subject =>
                    match Re.re_match r subject with
                    | None => Rejected
                    | Some match_data => Accepted (Re.groupdict r match_data)
                    end
                end
            end
      end
  end.

(** The pattern text that checking [t] against [m] sends to [re.compile]:
    the sender is the required one and nothing is stored yet. *)
Definition pattern_to_compile (m : message) (t : csv_type) : option string :=
  match check t with
  | Some (MkCheck (Some required_from) (Some l) None) =>
      if String.eqb (msg_from m) required_from then Some (join l) else None
  | _ => None
  end.

Definition compile_calls (i : nat) (m : message) (t : csv_type) : list event :=
  match pattern_to_compile m t with
  | Some p => [CallCompile i p]
  | None => []
  end.

(** The CSV type after the check: with the compiled pattern stored, if one
    was compiled. *)
Definition after_check (m : message) (t : csv_type) : csv_type :=
  match pattern_to_compile m t with
  | Some p =>
      match Re.re_compile p with
      | Ok r => with_compiled r t
      | Raise _ => t
      end
  | None => t
  end.

(** The classifier over the types [ts], the first of which has index [i]:
    the index and the subject values of the first type that accepts (or
    [None], or the exception of the first type whose check fails), the types
    afterwards, and the compilations made. *)
Fixpoint classify (m : message) (i : nat) (ts : list csv_type)
  : result (option (nat * gmap string (option string)))
    * list csv_type * list event :=
  match ts with
  | [] => (Ok None, [], [])
  | t :: ts' =>
      match verdict_of m t with
      | Rejected =>
          let '(r, ts'', evs) := classify m (S i) ts' in
          (r, after_check m t :: ts'', compile_calls i m t ++ evs)
      | Accepted match_dict =>
          (Ok (Some (i, match_dict)), after_check m t :: ts', compile_calls i m t)
      | Failed e =>
          (Raise e, after_check m t :: ts', compile_calls i m t)
      end
  end.

(** ** Notions the properties are stated with *)

(** The compilations made while the types [ts] are checked one after the
    other, the first of them having index [i]. *)
Fixpoint checks_calls (m : message) (i : nat) (ts : list csv_type) : list event :=
  match ts with
  | [] => []
  | t :: ts' => compile_calls i m t ++ checks_calls m (S i) ts'
  end.

Definition is_compile (e : event) : bool :=
  match e with
  | CallCompile _ _ => true
  | _ => false
  end.

Definition is_write_or_insert (e : event) : bool := is_write e || is_insert_row e.

(** The table name and the column settings [process_message] reads from a
    CSV type (lines 215-221 and 227). *)
Definition table_name_of (t : csv_type) (d : gmap string (option string))
  : result string :=
  result_bind (item (save_table t) "save_table") (fun save_table =>
  result_bind (item (table_file_name_format save_table) "file_name_format")
    (fun table_name_format => str_format (strip table_name_format) d)).

Definition columns_of (t : csv_type) : result (list (string * column_details)) :=
  result_bind (item (load_csv t) "load_csv") (fun load_csv =>
  item (columns load_csv) "columns").

(** What is asked of a database client for a table to be created once only:
    a table that was created exists, and inserting rows removes no table. *)
Definition lawful_storage {D : Type} `{Storage D} : Prop :=
  (forall (d d' : D) name cols,
      create_table d name cols = Ok d' -> table_exists d' name = true)
  /\ (forall (d d' : D) name fields name',
         insert_row d name fields = Ok d' ->
         table_exists d name' = true -> table_exists d' name' = true).

(** How often the pattern of the [i]-th CSV type was compiled, by the calls
    [cs]. *)
Fixpoint compilations (i : nat) (cs : list event) : nat :=
  match cs with
  | [] => 0
  | e :: cs' => (if is_compile_of i e then 1 else 0) + compilations i cs'
  end.

(** The [i]-th CSV type has a compiled pattern stored. *)
Definition cached (ts : list csv_type) (i : nat) : Prop :=
  exists t c r,
    ts !! i = Some t /\ check t = Some c /\ subject_regex_compiled c = Some r.

(** Every pattern was compiled at most once so far, and one that was
    compiled is stored. *)
Definition compiled_once (ts : list csv_type) (cs : list event) : Prop :=
  forall i, compilations i cs = 0 \/ (compilations i cs = 1 /\ cached ts i).

(** [matches r p w tail]: the pattern [r] matches the text [w] when [p]
    characters come before [w] and [tail] comes after it.  This says which
    texts a pattern matches without saying how a match is searched for; the
    matcher [Re.run] is shown to find exactly these. *)
Inductive matches : Re.regex -> nat -> list ascii -> list ascii -> Prop :=
| MEps p tail : matches Re.Eps p [] tail
| MChr c p tail : matches (Re.Chr c) p [c] tail
| MAnyChar c p tail :
    c <> Re.newline -> matches Re.AnyChar p [c] tail
| MCls neg items c p tail :
    Re.cls_matches neg items c = true -> matches (Re.Cls neg items) p [c] tail
| MBol tail : matches Re.Bol 0 [] tail
| MEol p tail :
    tail = [] \/ tail = [Re.newline] -> matches Re.Eol p [] tail
| MSeq r1 r2 p w1 w2 tail :
    matches r1 p w1 (w2 ++ tail) ->
    matches r2 (p + length w1) w2 tail ->
    matches (Re.Seq r1 r2) p (w1 ++ w2) tail
| MAltL r1 r2 p w tail :
    matches r1 p w tail -> matches (Re.Alt r1 r2) p w tail
| MAltR r1 r2 p w tail :
    matches r2 p w tail -> matches (Re.Alt r1 r2) p w tail
| MRepNil r p tail : matches (Re.Rep false r) p [] tail
| MRepCons plus r p w1 w2 tail :
    matches r p w1 (w2 ++ tail) ->
    matches (Re.Rep false r) (p + length w1) w2 tail ->
    matches (Re.Rep plus r) p (w1 ++ w2) tail
| MGroup name r p w tail :
    matches r p w tail -> matches (Re.Group name r) p w tail.

(** [st'] is [st] moved over the text [w]. *)
Definition moved (st st' : Re.mstate) (w : list ascii) : Prop :=
  Re.rest st = w ++ Re.rest st' /\ Re.pos st' = Re.pos st + length w.


(** When one turn of the loop of [process_csv_row] ends in [continue]: the
    record has no such column, or the settings of the column have no type, or
    the type is [datetime] and there is no format. *)
Definition skip_conditions (csv_row : gmap string string)
  (column : string * string * column_details) : Prop :=
  csv_row !! column.1.1 = None
  \/ col_type column.2 = None
  \/ (col_type column.2 = Some "datetime" /\ col_csv_format column.2 = None).

(** No exception is raised for the column. *)
Definition coerces (csv_row : gmap string string)
  (column : string * string * column_details) : Prop :=
  forall e, process_column csv_row column <> Throw e.

(** What one turn of the loop of [process_csv_row] assigns to the field
    [f]: the value its column stores, if it stores one under that name. *)
Definition stored_in (csv_row : gmap string string) (f : string)
  (column : string * string * column_details) : option value :=
  match process_column csv_row column with
  | Store field_name v => if String.eqb field_name f then Some v else None
  | _ => None
  end.

(** The value that the last of the columns assigning the field [f] gives
    it. *)
Fixpoint last_stored (csv_row : gmap string string)
  (columns : list (string * string * column_details)) (f : string)
  : option value :=
  match columns with
  | [] => None
  | column :: columns' =>
      match last_stored csv_row columns' f with
      | Some v => Some v
      | None => stored_in csv_row f column
      end
  end.

(** The sender of [m] is not the one the CSV type [t] asks for. *)
Definition other_sender (m : message) (t : csv_type) : Prop :=
  exists c required_from,
    check t = Some c /\ check_from c = Some required_from
    /\ required_from <> msg_from m.

(** Two lists of CSV types that give every message the same verdicts. *)
Definition same_verdicts (ts ts' : list csv_type) : Prop :=
  Forall2 (fun t t' => forall m, verdict_of m t' = verdict_of m t) ts ts'.

(** [t'] is [t] but for the compiled pattern: what the settings file says is
    the same in both, and a compiled pattern stored in [t] is the one stored
    in [t']. *)
Definition settings_kept (t t' : csv_type) : Prop :=
  save_table t' = save_table t
  /\ load_csv t' = load_csv t
  /\ save_csv t' = save_csv t
  /\ option_map check_from (check t') = option_map check_from (check t)
  /\ option_map subject_regex (check t') = option_map subject_regex (check t)
  /\ (forall c r,
         check t = Some c -> subject_regex_compiled c = Some r ->
         check t' = Some c).

(** The text [data] conforms to the format: the format is one the library
    makes a pattern of, and that pattern matches all of the text. *)
Definition conforms (data format : string) : Prop :=
  exists pattern r,
    Strptime.time_pattern false (chars format) = Ok pattern
    /\ Re.re_compile pattern = Ok r
    /\ matches r 0 (chars data) [].

(** The same, found out by running the matcher: one of the ways in which
    the pattern matches at the start of the text reaches its end. *)
Definition conformsb (data format : string) : bool :=
  match Strptime.time_pattern false (chars format) with
  | Ok pattern =>
      match Re.re_compile pattern with
      | Ok r =>
          existsb (fun st => match Re.rest st with [] => true | _ => false end)
            (Re.run r (Re.start data))
      | Raise _ => false
      end
  | Raise _ => false
  end.

(** Templates for which [str.format], given keyword arguments only, raises
    something other than a [KeyError]: after a part that formats well comes
    a field that asks for a positional argument, or a closing brace that
    closes nothing. *)
Inductive template_raises (kwargs : gmap string (option string))
  : string -> exn -> Prop :=
| PositionalField (pre index post s : string) :
    str_format pre kwargs = Ok s ->
    forallb is_digit (chars index) = true ->
    length (chars index) <= 9 ->
    template_raises kwargs (pre +:+ "{" +:+ index +:+ "}" +:+ post) IndexError
| SingleClosingBrace (pre post s : string) :
    str_format pre kwargs = Ok s ->
    (forall rest, post <> String "}" rest) ->
    template_raises kwargs (pre +:+ "}" +:+ post) ValueError.

(** The calls a message adds to those made before it. *)
Definition new_calls {D F : Type} (before after : world D F) : list event :=
  drop (length (calls before)) (calls after).

(** ** Notions about computations *)

Section Notions.

Context {D F : Type} `{Storage D} `{Files F} `{Environment}.

Abbreviation world := (world D F).

(** What a computation leaves alone.

    [emits P c]: [c] does not touch the list of CSV types, and the calls it
    adds all satisfy [P]. *)
Definition emits {A : Type} (P : event -> Prop) (c : M A) : Prop :=
  forall w : world,
    csv_file_types (c w).2 = csv_file_types w
    /\ exists new, calls (c w).2 = calls w ++ new /\ Forall P new.

(** What a computation looks at.

    Two worlds [agree] at [i] when they differ at most in the CSV types
    other than the [i]-th; [local i c]: [c] gives the same result in two
    such worlds, and leaves them agreeing. *)
Definition agree (i : nat) (w w' : world) : Prop :=
  csv_file_types w !! i = csv_file_types w' !! i
  /\ database w = database w' /\ files w = files w' /\ calls w = calls w'.

Definition local {A : Type} (i : nat) (c : M A) : Prop :=
  forall w w' : world,
    agree i w w' -> (c w).1 = (c w').1 /\ agree i (c w).2 (c w').2.

(** Lines 234-238: the parser is made and run. *)
Definition run_parser (t : csv_type) (name : string)
  (d : gmap string (option string)) (m : message) : M bool :=
  bind (lift (parser_init t name d)) (fun self =>
  bind (parser_process_message self m) (fun _ => ret true)).


(** The claim C10 as the spec words it, for one record: [process_csv_row]
    makes exactly one [insert_row] call. *)
Definition one_insert_row_call (self : parser) (csv_row : gmap string string)
  (w : world) : Prop :=
  length (List.filter is_insert_row
            (drop (length (calls w)) (calls (process_csv_row self csv_row w).2)))
  = 1.

(** The same for one message: as many [insert_row] calls as the message has
    records. *)
Definition one_insert_row_per_record (m : message) (w : world) : Prop :=
  length (List.filter is_insert_row
            (drop (length (calls w)) (calls (process_message m w).2)))
  = length (csv_records (msg_content m)).

(** The claim C1 as the spec words it, for every list of CSV types: the
    first type of the list whose sender is that of the message and whose
    pattern matches the subject is the one chosen, whatever the types before
    it are like; the message ends as loading it as one of that type ends. *)
Definition first_match_is_chosen (m : message) (w : world) : Prop :=
  forall pre t post d,
    csv_file_types w = pre ++ t :: post ->
    Forall (fun t' => forall d', verdict_of m t' <> Accepted d') pre ->
    verdict_of m t = Accepted d ->
    (process_message m w).1
    = (load_message (length pre) m d
         (World (map (after_check m) pre ++ after_check m t :: post)
            (database w) (files w)
            (calls w ++ checks_calls m 0 (pre ++ [t])))).1.

(** The claim C6 as the spec words it: a message that no CSV type accepts
    makes [process_message] return [False], and nothing is raised. *)
Definition unaccepted_returns_false (m : message) (w : world) : Prop :=
  Forall (fun t => forall d, verdict_of m t <> Accepted d) (csv_file_types w) ->
  (process_message m w).1 = Ok false.

End Notions.

(** ** Examples *)

Module Examples.

Import Memory.

Definition line_feed : string := String Re.newline "".

Definition voyage_columns : list (string * column_details) :=
  [("time", ColumnDetails (Some "observed") (Some "datetime") (Some "%Y-%m-%d"));
   ("temp", ColumnDetails None (Some "float") None);
   ("depth", ColumnDetails None None None)].

(** Reports of the carrier's operations desk, one table per voyage. *)
Definition underway : csv_type :=
  CsvType
    (Some (MkCheck (Some "ops@carrier.example")
             (Some ["Voyage Report V"; "(?P<voyage_id>\d+)"]) None))
    (Some (SaveTable (Some " voyage_{voyage_id} ")))
    (Some (LoadCsv (Some voyage_columns)))
    (Some (SaveCsv (Some "v_{voyage_id}.csv"))).

(** The same reports from the laboratory. *)
Definition laboratory : csv_type :=
  CsvType
    (Some (MkCheck (Some "lab@carrier.example")
             (Some ["Voyage Report V"; "(?P<voyage_id>\d+)"]) None))
    (Some (SaveTable (Some "lab_{voyage_id}")))
    (Some (LoadCsv (Some voyage_columns)))
    None.

(** Anything else from the operations desk that starts with [Voyage]. *)
Definition catch_all : csv_type :=
  CsvType
    (Some (MkCheck (Some "ops@carrier.example") (Some ["Voyage"]) None))
    (Some (SaveTable (Some "misc")))
    (Some (LoadCsv (Some voyage_columns)))
    None.



(** A type whose pattern is the number alone. *)
Definition number_only : csv_type :=
  CsvType
    (Some (MkCheck (Some "ops@carrier.example") (Some ["V(?P<voyage_id>\d+)"]) None))
    (Some (SaveTable (Some "voyage_{voyage_id}")))
    (Some (LoadCsv (Some voyage_columns)))
    None.

Definition two_days : string :=
  "time,temp,other" +:+ line_feed
  +:+ "2024-03-01,1.5,zz" +:+ line_feed
  +:+ "2024-03-02,2.5,yy" +:+ line_feed.

Definition bad_day : string :=
  "time,temp" +:+ line_feed
  +:+ "not-a-date,1.5" +:+ line_feed
  +:+ "2024-03-02,2.5" +:+ line_feed.

Definition report : message :=
  Message "ops@carrier.example" (Some "Voyage Report V123") two_days.

Definition lab_report : message :=
  Message "lab@carrier.example" (Some "Voyage Report V123") two_days.

Definition bad_report : message :=
  Message "ops@carrier.example" (Some "Voyage Report V123") bad_day.

Definition stranger : message :=
  Message "someone@else.example" (Some "Voyage Report V123") two_days.

Definition voyage_123 : gmap string (option string) :=
  {[ "voyage_id" := Some "123" ]}.

Definition first_day : gmap string string :=
  {[ "time" := "2024-03-01"; "temp" := "1.5"; "other" := "zz" ]}.

Definition no_day : gmap string string := {[ "time" := "not-a-date" ]}.

Definition no_date : gmap string string := {[ "time" := "2024-02-31" ]}.

Definition unrelated : gmap string string := {[ "other" := "zz" ]}.

Definition voyage_parser : parser :=
  Parser "voyage_123" None
    [("time", "observed", ColumnDetails (Some "observed") (Some "datetime") (Some "%Y-%m-%d"));
     ("temp", "temp", ColumnDetails None (Some "float") None);
     ("depth", "depth", ColumnDetails None None None)].

(** A world with the table of voyage 123 and nothing else. *)
Definition ashore : world db fs :=
  World [] {[ "voyage_123" := (voyage_columns, []) ]} ∅ [].

Definition observed_details : column_details :=
  ColumnDetails (Some "observed") (Some "datetime") (Some "%Y-%m-%d").

(** The compiled pattern of [number_only]. *)
Definition number_pattern : Re.regex :=
  match Re.re_compile "V(?P<voyage_id>\d+)" with
  | Ok r => r
  | Raise _ => Re.Eps
  end.

(** The voyage number comes late in the subject. *)
Definition late_report : message :=
  Message "ops@carrier.example" (Some "Report V123") two_days.

(** The voyage number comes first, text follows. *)
Definition long_report : message :=
  Message "ops@carrier.example" (Some "V123 (resent on Monday)") two_days.

(** [underway] with a file name that has a positional field. *)
Definition unnumbered : csv_type :=
  CsvType (check underway) (save_table underway) (load_csv underway)
    (Some (SaveCsv (Some "v_{}.csv"))).

(** [underway] with a file name that starts at the root. *)
Definition rooted : csv_type :=
  CsvType (check underway) (save_table underway) (load_csv underway)
    (Some (SaveCsv (Some "/srv/{voyage_id}.csv"))).


(** A type of the operations desk whose pattern does not compile. *)
Definition unbalanced : csv_type :=
  CsvType
    (Some (MkCheck (Some "ops@carrier.example") (Some ["Voyage ("]) None))
    (Some (SaveTable (Some "misc")))
    (Some (LoadCsv (Some voyage_columns)))
    None.

(** A type of the operations desk without [subject_regex]. *)
Definition patternless : csv_type :=
  CsvType
    (Some (MkCheck (Some "ops@carrier.example") None None))
    (Some (SaveTable (Some "misc")))
    (Some (LoadCsv (Some voyage_columns)))
    None.

(** A report without a [Subject] header. *)
Definition untitled : message :=
  Message "ops@carrier.example" None two_days.

(** Two CSV columns that go to the same field, and a third one. *)
Definition merged_columns : list (string * string * column_details) :=
  [("temp", "reading", ColumnDetails (Some "reading") (Some "float") None);
   ("other", "reading", ColumnDetails (Some "reading") (Some "str") None);
   ("time", "observed", observed_details)].

(** The world after the first report of voyage 123. *)
Definition at_sea : world db fs := (process_message report (world0 [underway])).2.

(** The record [first_day] as the columns of [voyage_parser] coerce it, and
    as [merged_columns] do. *)
Definition first_day_row : gmap string value :=
  {[ "observed" := VDatetime (Strptime.Datetime 2024 3 1 0 0 0);
     "temp" := VStr "1.5" ]}.

Definition merged_row : gmap string value :=
  {[ "observed" := VDatetime (Strptime.Datetime 2024 3 1 0 0 0);
     "reading" := VStr "zz" ]}.

(** The parser of a report of voyage 123 that keeps a copy. *)
Definition archiving_parser : parser :=
  Parser "voyage_123" (Some "/data/csv/v_123.csv") (csv_columns voyage_parser).

End Examples.

(** * Properties *)

(** ** The matcher finds what the pattern matches *)

Lemma step_char_sound (f : ascii -> bool) (st st' : Re.mstate) :
  In st' (Re.step_char f st) ->
  exists c, f c = true /\ moved st st' [c].
Proof.
  unfold Re.step_char. destruct st as [p [|c cs] caps]; simpl; [tauto|].
  destruct (f c) eqn:Hf; simpl; [|tauto].
  intros [<-|[]]. exists c. split; [assumption|].
  split; simpl; [reflexivity | lia].
Qed.

Lemma step_char_complete (f : ascii -> bool) (st : Re.mstate) (c : ascii)
  (tail : list ascii) :
  f c = true -> Re.rest st = c :: tail ->
  exists st', In st' (Re.step_char f st) /\ Re.rest st' = tail
              /\ Re.pos st' = Re.pos st + 1.
Proof.
  intros Hf Hrest. unfold Re.step_char. rewrite Hrest, Hf.
  exists (Re.advance st tail). split; [left; reflexivity|].
  split; simpl; [reflexivity | lia].
Qed.

Section StarLoop.

Variable r : Re.regex.
Variable body : Re.mstate -> list Re.mstate.

Hypothesis body_sound :
  forall st st', In st' (body st) -> exists w, moved st st' w /\ matches r (Re.pos st) w (Re.rest st').

Lemma star_sound (fuel : nat) :
  forall st st',
    In st' (Re.star body fuel st) ->
    exists w, moved st st' w
              /\ matches (Re.Rep false r) (Re.pos st) w (Re.rest st').
Proof.
  assert (Hnil : forall st : Re.mstate,
             exists w, moved st st w
                       /\ matches (Re.Rep false r) (Re.pos st) w (Re.rest st)).
  { intros st. exists []. split; [split; simpl; [reflexivity|lia] | constructor]. }
  induction fuel as [|fuel IH]; intros st st' Hin; simpl in Hin.
  - destruct Hin as [<-|[]]. apply Hnil.
  - apply in_app_iff in Hin as [Hin|[<-|[]]]; [|apply Hnil].
    apply in_flat_map in Hin as (st1 & H1 & Hin).
    destruct (body_sound _ _ H1) as (w1 & [Hrest1 Hpos1] & Hm1).
    destruct (length (Re.rest st1) <? length (Re.rest st))%nat.
    + destruct (IH _ _ Hin) as (w2 & [Hrest2 Hpos2] & Hm2).
      exists (w1 ++ w2). split.
      * split; [rewrite Hrest1, Hrest2, app_assoc; reflexivity|].
        rewrite Hpos2, Hpos1, length_app. lia.
      * apply MRepCons; [rewrite <- Hrest2; exact Hm1|].
        rewrite <- Hpos1. exact Hm2.
    + destruct Hin as [<-|[]].
      exists (w1 ++ []). split.
      * split; [rewrite app_nil_r; exact Hrest1|].
        rewrite app_nil_r. exact Hpos1.
      * apply MRepCons; [exact Hm1 | constructor].
Qed.

End StarLoop.

Lemma close_group_moved (name : option string) (st0 st st' : Re.mstate)
  (w : list ascii) :
  moved st st' w -> moved st (Re.close_group name st0 st') w.
Proof. destruct name; simpl; unfold moved; simpl; auto. Qed.

Lemma close_group_rest (name : option string) (st0 st' : Re.mstate) :
  Re.rest (Re.close_group name st0 st') = Re.rest st'
  /\ Re.pos (Re.close_group name st0 st') = Re.pos st'.
Proof. destruct name; simpl; auto. Qed.

Lemma run_sound (r : Re.regex) :
  forall st st',
    In st' (Re.run r st) ->
    exists w, moved st st' w /\ matches r (Re.pos st) w (Re.rest st').
Proof.
  induction r as [|c| |neg items| | |r1 IH1 r2 IH2|r1 IH1 r2 IH2|plus r1 IH1
                 |name r1 IH1];
    intros st st' Hin; cbn [Re.run] in Hin.
  - destruct Hin as [<-|[]]. exists [].
    split; [split; simpl; [reflexivity|lia] | constructor].
  - apply step_char_sound in Hin as (c' & Hc & Hm).
    apply Ascii.eqb_eq in Hc as <-. exists [c]. split; [exact Hm | constructor].
  - apply step_char_sound in Hin as (c' & Hc & Hm).
    exists [c']. split; [exact Hm|]. constructor.
    intros ->. rewrite Ascii.eqb_refl in Hc. discriminate.
  - apply step_char_sound in Hin as (c' & Hc & Hm).
    exists [c']. split; [exact Hm | constructor; exact Hc].
  - destruct (Nat.eqb_spec (Re.pos st) 0) as [Hp|]; [|destruct Hin].
    destruct Hin as [<-|[]]. exists []. rewrite Hp.
    split; [split; simpl; [reflexivity|lia] | constructor].
  - exists [].
    destruct (Re.rest st) as [|c [|c' cs]] eqn:Hrest.
    + destruct Hin as [<-|[]].
      split; [split; simpl; [reflexivity|lia] | constructor; auto].
    + destruct (Ascii.eqb_spec c Re.newline) as [->|]; [|destruct Hin].
      destruct Hin as [<-|[]].
      split; [split; simpl; [reflexivity|lia] | constructor; auto].
    + destruct Hin.
  - apply in_flat_map in Hin as (st1 & H1 & H2).
    destruct (IH1 _ _ H1) as (w1 & [Hrest1 Hpos1] & Hm1).
    destruct (IH2 _ _ H2) as (w2 & [Hrest2 Hpos2] & Hm2).
    exists (w1 ++ w2). split.
    + split; [rewrite Hrest1, Hrest2, app_assoc; reflexivity|].
      rewrite Hpos2, Hpos1, length_app. lia.
    + apply MSeq; [rewrite <- Hrest2; exact Hm1 | rewrite <- Hpos1; exact Hm2].
  - apply in_app_iff in Hin as [Hin|Hin].
    + destruct (IH1 _ _ Hin) as (w & Hmv & Hm). exists w. split; [|apply MAltL]; auto.
    + destruct (IH2 _ _ Hin) as (w & Hmv & Hm). exists w. split; [|apply MAltR]; auto.
  - destruct plus.
    + apply in_flat_map in Hin as (st1 & H1 & Hin).
      destruct (IH1 _ _ H1) as (w1 & [Hrest1 Hpos1] & Hm1).
      unfold Re.iterate in Hin.
      destruct (length (Re.rest st1) <? length (Re.rest st))%nat.
      * destruct (star_sound r1 (Re.run r1) IH1 _ _ _ Hin)
          as (w2 & [Hrest2 Hpos2] & Hm2).
        exists (w1 ++ w2). split.
        -- split; [rewrite Hrest1, Hrest2, app_assoc; reflexivity|].
           rewrite Hpos2, Hpos1, length_app. lia.
        -- apply MRepCons; [rewrite <- Hrest2; exact Hm1|].
           rewrite <- Hpos1. exact Hm2.
      * destruct Hin as [<-|[]].
        exists (w1 ++ []). split.
        -- split; [rewrite app_nil_r; exact Hrest1|].
           rewrite app_nil_r. exact Hpos1.
        -- apply MRepCons; [exact Hm1 | constructor].
    + apply (star_sound r1 (Re.run r1) IH1 _ _ _ Hin).
  - apply in_map_iff in Hin as (st1 & <- & H1).
    destruct (IH1 _ _ H1) as (w & Hmv & Hm).
    exists w. split; [apply close_group_moved; exact Hmv|].
    destruct (close_group_rest name st st1) as [-> _].
    apply MGroup. exact Hm.
Qed.

(** A repetition that matches more than the empty text starts with an
    iteration that matches more than the empty text. *)
Lemma matches_rep_inv (rr : Re.regex) (p : nat) (w tail : list ascii) :
  matches rr p w tail ->
  forall plus body,
    rr = Re.Rep plus body ->
    (w = [] /\ (plus = false \/ matches body p [] tail))
    \/ exists w1 w2,
        w1 <> [] /\ w = w1 ++ w2
        /\ matches body p w1 (w2 ++ tail)
        /\ matches (Re.Rep false body) (p + length w1) w2 tail.
Proof.
  intros Hm.
  induction Hm as [| | | | | | | | | r0 p tail
                  | plus0 r0 p w1 w2 tail Hm1 _ Hm2 IH2 | ];
    intros plus body Heq; try discriminate.
  - injection Heq as <- <-. left. auto.
  - injection Heq as <- <-.
    destruct w1 as [|c w1].
    + simpl in *. rewrite Nat.add_0_r in *.
      destruct (IH2 false r0 eq_refl) as [[-> _]|(w21 & w22 & Hne & -> & H21 & H22)].
      * left. split; [reflexivity|]. right. exact Hm1.
      * right. exists w21, w22. auto.
    + right. exists (c :: w1), w2. repeat split; auto; discriminate.
Qed.

Section StarComplete.

Variable r : Re.regex.

Hypothesis body_complete :
  forall p w tail,
    matches r p w tail ->
    forall st,
      Re.pos st = p -> Re.rest st = w ++ tail ->
      exists st', In st' (Re.run r st) /\ Re.rest st' = tail
                  /\ Re.pos st' = p + length w.

Lemma star_complete (n : nat) :
  forall w,
    length w <= n ->
    forall p tail st fuel,
      matches (Re.Rep false r) p w tail ->
      Re.pos st = p -> Re.rest st = w ++ tail ->
      length (Re.rest st) < fuel ->
      exists st', In st' (Re.star (Re.run r) fuel st) /\ Re.rest st' = tail
                  /\ Re.pos st' = p + length w.
Proof.
  induction n as [|n IH]; intros w Hlen p tail st fuel Hm Hpos Hrest Hfuel;
    (destruct fuel as [|fuel]; [lia|]);
    destruct (matches_rep_inv _ _ _ _ Hm false r eq_refl)
      as [[-> _]|(w1 & w2 & Hne & -> & Hm1 & Hm2)].
  - exists st. simpl. split; [apply in_app_iff; right; left; reflexivity|].
    split; [exact Hrest | lia].
  - destruct w1; [congruence | simpl in Hlen; lia].
  - exists st. simpl. split; [apply in_app_iff; right; left; reflexivity|].
    split; [exact Hrest | lia].
  - rewrite <- app_assoc in Hrest.
    destruct (body_complete _ _ _ Hm1 st Hpos Hrest) as (st1 & H1 & Hrest1 & Hpos1).
    assert (Hshort : length (Re.rest st1) < length (Re.rest st)).
    { rewrite Hrest, Hrest1, !length_app. destruct w1; [congruence|simpl; lia]. }
    destruct (IH w2) with (p := p + length w1) (tail := tail) (st := st1)
                          (fuel := fuel)
      as (st' & Hin & Hrest' & Hpos'); auto.
    { rewrite length_app in Hlen. destruct w1; [congruence|simpl in Hlen; lia]. }
    { lia. }
    exists st'. split; [|split; [exact Hrest'|rewrite Hpos', length_app; lia]].
    simpl. apply in_app_iff. left. apply in_flat_map. exists st1.
    split; [exact H1|].
    apply Nat.ltb_lt in Hshort. rewrite Hshort. exact Hin.
Qed.

End StarComplete.

Lemma run_complete (r : Re.regex) :
  forall p w tail,
    matches r p w tail ->
    forall st,
      Re.pos st = p -> Re.rest st = w ++ tail ->
      exists st', In st' (Re.run r st) /\ Re.rest st' = tail
                  /\ Re.pos st' = p + length w.
Proof.
  induction r as [|c| |neg items| | |r1 IH1 r2 IH2|r1 IH1 r2 IH2|plus r1 IH1
                 |name r1 IH1];
    intros p w tail Hm st Hpos Hrest; cbn [Re.run].
  - inversion Hm; subst. exists st. simpl. split; [left; reflexivity|].
    split; [assumption | lia].
  - inversion Hm; subst.
    destruct (step_char_complete (Ascii.eqb c) st c tail (Ascii.eqb_refl c) Hrest)
      as (st' & ? & ? & ?).
    exists st'. simpl. auto.
  - inversion Hm as [| |c p0 tail0 Hc| | | | | | | | |]; subst.
    destruct (step_char_complete (fun c => negb (Ascii.eqb c Re.newline)) st c tail)
      as (st' & ? & ? & ?); auto.
    { destruct (Ascii.eqb_spec c Re.newline); [contradiction|reflexivity]. }
    exists st'. simpl. auto.
  - inversion Hm as [| | |neg0 items0 c p0 tail0 Hc| | | | | | | |]; subst.
    destruct (step_char_complete (Re.cls_matches neg items) st c tail Hc Hrest)
      as (st' & ? & ? & ?).
    exists st'. simpl. auto.
  - inversion Hm; subst.
    match goal with Hp : 0 = Re.pos st |- _ => rewrite <- Hp end. simpl.
    exists st. split; [left; reflexivity|]. split; [assumption|simpl; lia].
  - inversion Hm as [| | | | |p0 tail0 Htail| | | | | |]; subst.
    simpl in Hrest. rewrite Hrest.
    exists st. split; [|split; [assumption|simpl; lia]].
    destruct Htail as [->| ->]; [left; reflexivity|].
    rewrite Ascii.eqb_refl. left. reflexivity.
  - inversion Hm as [| | | | | |r1' r2' p0 w1 w2 tail0 Hm1 Hm2| | | | |]; subst.
    rewrite <- app_assoc in Hrest.
    destruct (IH1 _ _ _ Hm1 st eq_refl Hrest) as (st1 & H1 & Hrest1 & Hpos1).
    destruct (IH2 _ _ _ Hm2 st1 Hpos1 Hrest1) as (st' & H2 & Hrest' & Hpos').
    exists st'. split; [apply in_flat_map; eauto|].
    split; [exact Hrest' | rewrite Hpos', length_app; lia].
  - inversion Hm; subst.
    + match goal with
      | Hsub : matches r1 _ _ _ |- _ =>
          destruct (IH1 _ _ _ Hsub st eq_refl Hrest) as (st' & ? & ? & ?)
      end.
      exists st'. split; [apply in_app_iff; auto | auto].
    + match goal with
      | Hsub : matches r2 _ _ _ |- _ =>
          destruct (IH2 _ _ _ Hsub st eq_refl Hrest) as (st' & ? & ? & ?)
      end.
      exists st'. split; [apply in_app_iff; auto | auto].
  - destruct plus.
    + destruct (matches_rep_inv _ _ _ _ Hm true r1 eq_refl)
        as [[-> [Hf|Hm1]]|(w1 & w2 & Hne & -> & Hm1 & Hm2)]; [discriminate| |].
      * destruct (IH1 _ _ _ Hm1 st Hpos Hrest) as (st1 & H1 & Hrest1 & Hpos1).
        exists st1. split; [|auto].
        apply in_flat_map. exists st1. split; [exact H1|].
        unfold Re.iterate.
        replace (length (Re.rest st1) <? length (Re.rest st))%nat with false
          by (symmetry; apply Nat.ltb_ge; rewrite Hrest, Hrest1; simpl; lia).
        left. reflexivity.
      * rewrite <- app_assoc in Hrest.
        destruct (IH1 _ _ _ Hm1 st Hpos Hrest) as (st1 & H1 & Hrest1 & Hpos1).
        destruct (star_complete r1 IH1 (length w2) w2 (Nat.le_refl _)
                    (p + length w1) tail st1 (S (length (Re.rest st1))) Hm2
                    Hpos1 Hrest1 (Nat.lt_succ_diag_r _))
          as (st' & Hin & Hrest' & Hpos').
        exists st'. split; [|split; [exact Hrest'|rewrite Hpos', length_app; lia]].
        apply in_flat_map. exists st1. split; [exact H1|].
        unfold Re.iterate.
        replace (length (Re.rest st1) <? length (Re.rest st))%nat with true; [exact Hin|].
        symmetry. apply Nat.ltb_lt. rewrite Hrest, Hrest1, !length_app.
        destruct w1; [congruence | simpl; lia].
    + apply (star_complete r1 IH1 (length w) w (Nat.le_refl _) p tail st
               (S (length (Re.rest st))) Hm Hpos Hrest (Nat.lt_succ_diag_r _)).
  - inversion Hm; subst.
    match goal with
    | Hsub : matches r1 _ _ _ |- _ =>
        destruct (IH1 _ _ _ Hsub st eq_refl Hrest) as (st1 & H1 & Hrest1 & Hpos1)
    end.
    exists (Re.close_group name st st1).
    destruct (close_group_rest name st st1) as [-> ->].
    split; [apply in_map; exact H1 | auto].
Qed.

(** [Pattern.match] finds a match exactly when the pattern matches a text
    that the subject starts with. *)
Lemma re_match_prefix (r : Re.regex) (subject : string) :
  is_Some (Re.re_match r subject) <->
  exists matched tail,
    chars subject = matched ++ tail /\ matches r 0 matched tail.
Proof.
  unfold Re.re_match. split.
  - intros [st' Hst'].
    assert (Hin : In st' (Re.run r (Re.start subject))).
    { destruct (Re.run r (Re.start subject)) as [|x l]; simpl in Hst';
        [discriminate|]. injection Hst' as ->. left. reflexivity. }
    destruct (run_sound r _ _ Hin) as (w & [Hrest _] & Hm).
    exists w, (Re.rest st'). split; [exact Hrest | exact Hm].
  - intros (w & tail & Hsplit & Hm).
    destruct (run_complete r 0 w tail Hm (Re.start subject) eq_refl Hsplit)
      as (st' & Hin & _).
    destruct (Re.run r (Re.start subject)) as [|x l]; [destruct Hin|].
    simpl. eauto.
Qed.

(** ** Texts that conform to a format *)

Lemma conforms_decided (data format : string) :
  conforms data format <-> conformsb data format = true.
Proof.
  unfold conforms, conformsb. split.
  - intros (pattern & r & -> & -> & Hm).
    destruct (run_complete r 0 (chars data) [] Hm (Re.start data) eq_refl)
      as (st' & Hin & Hrest & _).
    { simpl. rewrite app_nil_r. reflexivity. }
    apply existsb_exists. exists st'. rewrite Hrest. split; [exact Hin | reflexivity].
  - destruct (Strptime.time_pattern false (chars format)) as [pattern|];
      [|discriminate].
    destruct (Re.re_compile pattern) as [r|] eqn:Hr; [|discriminate].
    intros Hex. apply existsb_exists in Hex as (st' & Hin & Hrest).
    destruct (Re.rest st') as [|c cs] eqn:Hnil; [|discriminate].
    destruct (run_sound r _ _ Hin) as (w & [Hw _] & Hm).
    rewrite Hnil in Hw, Hm. simpl in Hw. rewrite app_nil_r in Hw. subst w.
    exists pattern, r. split; [reflexivity|]. split; [exact Hr | exact Hm].
Qed.

Lemma strptime_outcome (data format pattern : string) (r : Re.regex) :
  Strptime.time_pattern false (chars format) = Ok pattern ->
  Re.re_compile pattern = Ok r ->
  (exists d,
      Strptime.strptime data format = Ok d
      /\ Strptime.valid d = true
      /\ conforms data format)
  \/ Strptime.strptime data format = Raise ValueError.
Proof.
  intros Hp Hr. unfold Strptime.strptime. rewrite Hp, Hr.
  destruct (Re.re_match r data) as [m|] eqn:Hmatch; [|right; reflexivity].
  destruct (Re.rest m) as [|c cs] eqn:Hrest; [|right; reflexivity].
  match goal with |- context [Strptime.valid ?x] =>
    destruct (Strptime.valid x) eqn:Hv end; [|right; reflexivity].
  left. eexists. split; [reflexivity|]. split; [exact Hv|].
  exists pattern, r. split; [exact Hp|]. split; [exact Hr|].
  assert (Hin : In m (Re.run r (Re.start data))).
  { unfold Re.re_match in Hmatch.
    destruct (Re.run r (Re.start data)) as [|x l]; simpl in Hmatch;
      [discriminate|]. injection Hmatch as ->. left. reflexivity. }
  destruct (run_sound r _ _ Hin) as (w & [Hw _] & Hm).
  rewrite Hrest in Hw, Hm. simpl in Hw. rewrite app_nil_r in Hw. subst w.
  exact Hm.
Qed.

Lemma strptime_nonconforming (data format pattern : string) (r : Re.regex) :
  Strptime.time_pattern false (chars format) = Ok pattern ->
  Re.re_compile pattern = Ok r ->
  ~ conforms data format ->
  Strptime.strptime data format = Raise ValueError.
Proof.
  intros Hp Hr Hnot.
  destruct (strptime_outcome data format pattern r Hp Hr)
    as [(d & _ & _ & Hc)|Hraise]; [contradiction | exact Hraise].
Qed.

(** ** Properties of [str_format] *)

Lemma chars_app (a b : string) : chars (a +:+ b) = chars a ++ chars b.
Proof.
  induction a as [|c a IH]; [reflexivity|].
  change (c :: chars (a +:+ b) = c :: (chars a ++ chars b)).
  f_equal. exact IH.
Qed.


Lemma append_assoc (a b c : string) : (a +:+ b) +:+ c = a +:+ (b +:+ c).
Proof.
  induction a as [|x a IH]; [reflexivity|].
  change (String x ((a +:+ b) +:+ c) = String x (a +:+ (b +:+ c))).
  f_equal. exact IH.
Qed.

Lemma split_at_none (stop : ascii -> bool) (cs : list ascii) :
  forallb (fun c => negb (stop c)) cs = true -> split_at stop cs = (cs, []).
Proof.
  induction cs as [|c cs IH]; simpl; [reflexivity|].
  intros Hall. apply andb_true_iff in Hall as [Hc Hcs].
  destruct (stop c); [discriminate|]. rewrite (IH Hcs). reflexivity.
Qed.

Lemma forallb_weaken {A : Type} (p q : A -> bool) (l : list A) :
  (forall a, p a = true -> q a = true) ->
  forallb p l = true -> forallb q l = true.
Proof.
  intros Hpq. induction l as [|a l IH]; simpl; [reflexivity|].
  intros Hall. apply andb_true_iff in Hall as [Ha Hl].
  rewrite (Hpq a Ha), (IH Hl). reflexivity.
Qed.

Lemma one_of_sub (small big : string) (c : ascii) :
  (forall x, one_of small x = true -> one_of big x = true) ->
  negb (one_of big c) = true -> negb (one_of small c) = true.
Proof.
  intros Hsub Hc. destruct (one_of small c) eqn:E; [|reflexivity].
  rewrite (Hsub c E) in Hc. exact Hc.
Qed.

Lemma one_of_special (small : string) :
  forallb (one_of "{}[.!:") (chars small) = true ->
  forall x, one_of small x = true -> one_of "{}[.!:" x = true.
Proof.
  intros Hall x Hx. unfold one_of in Hx at 1.
  apply existsb_exists in Hx as (y & Hy & Hxy).
  apply Ascii.eqb_eq in Hxy as ->.
  rewrite forallb_forall in Hall. apply Hall. exact Hy.
Qed.


Lemma format_chars_field (kwargs : gmap string (option string))
  (name post : list ascii) :
  forallb (fun c => negb (one_of "{}[.!:" c)) name = true ->
  forall seen,
    format_chars (InField seen) (name ++ "}"%char :: post) kwargs
    = emit_field (format_field (rev seen ++ name) kwargs)
        (format_chars InText post kwargs).
Proof.
  induction name as [|c name IH]; intros Hname seen; simpl.
  - rewrite app_nil_r. reflexivity.
  - simpl in Hname. apply andb_true_iff in Hname as [Hc Hname].
    assert (Hopen : Re.is_chr c "{" = false).
    { destruct (Re.is_chr c "{") eqn:E; [|reflexivity].
      unfold Re.is_chr in E. apply Ascii.eqb_eq in E as ->. discriminate. }
    assert (Hclose : Re.is_chr c "}" = false).
    { destruct (Re.is_chr c "}") eqn:E; [|reflexivity].
      unfold Re.is_chr in E. apply Ascii.eqb_eq in E as ->. discriminate. }
    rewrite Hopen, Hclose, (IH Hname). simpl. rewrite <- app_assoc. reflexivity.
Qed.

Lemma format_chars_app (kwargs : gmap string (option string)) (pre : list ascii) :
  forall mode s rest,
    format_chars mode pre kwargs = Ok s ->
    format_chars mode (pre ++ rest) kwargs
    = emit_field (Ok s) (format_chars InText rest kwargs).
Proof.
  assert (Hfield : forall v r s,
             emit_field v r = Ok s ->
             exists s1 s2, v = Ok s1 /\ r = Ok s2 /\ s = s1 +:+ s2).
  { intros [s1|e1] [s2|e2] s Hr; try discriminate.
    injection Hr as <-. eauto. }
  induction pre as [|c pre IH]; intros mode s rest Hpre.
  - simpl in Hpre. destruct mode; try discriminate.
    injection Hpre as <-. simpl.
    destruct (format_chars InText rest kwargs); reflexivity.
  - simpl in Hpre |- *.
    destruct mode as [| | |seen].
    + destruct (Re.is_chr c "{"); [apply IH; exact Hpre|].
      destruct (Re.is_chr c "}"); [apply IH; exact Hpre|].
      destruct (format_chars InText pre kwargs) as [s0|e] eqn:E; [|discriminate].
      injection Hpre as <-. rewrite (IH _ _ rest E).
      destruct (format_chars InText rest kwargs); reflexivity.
    + destruct (Re.is_chr c "{").
      * destruct (format_chars InText pre kwargs) as [s0|e] eqn:E; [|discriminate].
        injection Hpre as <-. rewrite (IH _ _ rest E).
        destruct (format_chars InText rest kwargs); reflexivity.
      * destruct (Re.is_chr c "}"); [discriminate | apply IH; exact Hpre].
    + destruct (Re.is_chr c "}"); [|discriminate].
      destruct (format_chars InText pre kwargs) as [s0|e] eqn:E; [|discriminate].
      injection Hpre as <-. rewrite (IH _ _ rest E).
      destruct (format_chars InText rest kwargs); reflexivity.
    + destruct (Re.is_chr c "}").
      * apply Hfield in Hpre as (s1 & s2 & Hv & Hr & ->).
        rewrite Hv, (IH _ _ rest Hr).
        destruct (format_chars InText rest kwargs); simpl;
          [rewrite append_assoc|]; reflexivity.
      * destruct (Re.is_chr c "{"); [|apply IH; exact Hpre].
        destruct (existsb (one_of "[:!") seen); discriminate.
Qed.


(** ** Templates that raise *)

Lemma digit_not_special (c : ascii) :
  is_digit c = true -> one_of "{}[.!:" c = false.
Proof.
  intros Hd. unfold one_of. simpl.
  repeat match goal with
         | |- context [Ascii.eqb c ?x] =>
             destruct (Ascii.eqb_spec c x) as [->|_]; [discriminate|]
         end.
  reflexivity.
Qed.

Lemma digits_not_special (cs : list ascii) :
  forallb is_digit cs = true ->
  forallb (fun c => negb (one_of "{}[.!:" c)) cs = true.
Proof.
  apply forallb_weaken. intros c Hc. rewrite (digit_not_special c Hc).
  reflexivity.
Qed.

Lemma format_field_positional (index : list ascii)
  (kwargs : gmap string (option string)) :
  forallb is_digit index = true ->
  length index <= 9 ->
  format_field index kwargs = Raise IndexError.
Proof.
  intros Hd Hlen.
  pose proof (digits_not_special index Hd) as Hchars.
  assert (Hsub : forall small,
             forallb (one_of "{}[.!:") (chars small) = true ->
             forallb (fun c => negb (one_of small c)) index = true).
  { intros small Hsmall. revert Hchars. apply forallb_weaken.
    intros c. apply one_of_sub. apply one_of_special. exact Hsmall. }
  unfold format_field.
  replace (existsb (one_of "[") index) with false.
  2:{ symmetry. apply not_true_is_false. intros Hex.
      apply existsb_exists in Hex as (c & Hc & Hbr).
      pose proof (Hsub "[" eq_refl) as Hno.
      rewrite forallb_forall in Hno. apply Hno in Hc. rewrite Hbr in Hc.
      discriminate. }
  rewrite (split_at_none _ _ (Hsub "!:" eq_refl)).
  simpl open_conversion. simpl bad_conversion. cbv iota.
  rewrite (split_at_none _ _ (Hsub "." eq_refl)).
  rewrite Hd. apply Nat.leb_le in Hlen. rewrite Hlen. reflexivity.
Qed.

(** A template with a field that asks for a positional argument, after a
    part that formats well: [IndexError]. *)
Lemma str_format_positional (pre index post : string)
  (kwargs : gmap string (option string)) (s : string) :
  str_format pre kwargs = Ok s ->
  forallb is_digit (chars index) = true ->
  length (chars index) <= 9 ->
  str_format (pre +:+ "{" +:+ index +:+ "}" +:+ post) kwargs = Raise IndexError.
Proof.
  intros Hpre Hd Hlen. unfold str_format in *.
  rewrite chars_app, (format_chars_app _ _ _ _ _ Hpre).
  rewrite chars_app. simpl chars at 1. simpl app.
  rewrite chars_app, chars_app. simpl chars at 2. simpl app.
  pose proof (format_field_positional (chars index) kwargs Hd Hlen) as Hfield.
  destruct (chars index) as [|c index'] eqn:Hindex.
  - cbn [format_chars app]. change (Re.is_chr "{" "{") with true. cbv iota.
    change (Re.is_chr "}" "{") with false. change (Re.is_chr "}" "}") with true.
    cbv iota. rewrite Hfield. reflexivity.
  - pose proof (digits_not_special _ Hd) as Hchars.
    simpl in Hchars. apply andb_true_iff in Hchars as [Hc Hindex'].
    assert (Hopen : Re.is_chr c "{" = false).
    { destruct (Re.is_chr c "{") eqn:E; [|reflexivity].
      unfold Re.is_chr in E. apply Ascii.eqb_eq in E as ->. discriminate. }
    assert (Hclose : Re.is_chr c "}" = false).
    { destruct (Re.is_chr c "}") eqn:E; [|reflexivity].
      unfold Re.is_chr in E. apply Ascii.eqb_eq in E as ->. discriminate. }
    cbn [format_chars app]. change (Re.is_chr "{" "{") with true. cbv iota.
    rewrite Hopen, Hclose.
    rewrite (format_chars_field kwargs index' (chars post) Hindex' [c]).
    change (rev [c] ++ index') with (c :: index').
    rewrite Hfield. reflexivity.
Qed.

(** A template with a closing brace that closes nothing, after a part that
    formats well: [ValueError]. *)
Lemma str_format_single_close (pre post : string)
  (kwargs : gmap string (option string)) (s : string) :
  str_format pre kwargs = Ok s ->
  (forall rest, post <> String "}" rest) ->
  str_format (pre +:+ "}" +:+ post) kwargs = Raise ValueError.
Proof.
  intros Hpre Hpost. unfold str_format in *.
  rewrite chars_app, (format_chars_app _ _ _ _ _ Hpre).
  rewrite chars_app. simpl chars at 1. simpl app.
  cbn [format_chars]. change (Re.is_chr "}" "{") with false.
  change (Re.is_chr "}" "}") with true. cbv iota.
  destruct post as [|c rest]; simpl chars; cbn [format_chars]; [reflexivity|].
  destruct (Re.is_chr c "}") eqn:E; [|reflexivity].
  exfalso. unfold Re.is_chr in E. apply Ascii.eqb_eq in E as ->.
  exact (Hpost rest eq_refl).
Qed.

Lemma template_raises_format (kwargs : gmap string (option string))
  (template : string) (e : exn) :
  template_raises kwargs template e ->
  str_format template kwargs = Raise e /\ forall key, e <> KeyError key.
Proof.
  intros [pre index post s Hpre Hd Hlen | pre post s Hpre Hpost].
  - split; [eapply str_format_positional; eauto | discriminate].
  - split; [eapply str_format_single_close; eauto | discriminate].
Qed.

(** ** Properties of the row loop *)

Lemma process_column_skip (csv_row : gmap string string)
  (column : string * string * column_details) :
  process_column csv_row column = Skip <-> skip_conditions csv_row column.
Proof.
  destruct column as [[csv_name field_name] details].
  unfold process_column, skip_conditions; cbn [fst snd].
  destruct (csv_row !! csv_name) as [v|]; [| tauto].
  destruct (col_type details) as [ty|]; [| tauto].
  destruct (String.eqb_spec "datetime" ty) as [<-|Hne].
  - destruct (col_csv_format details) as [fmt|].
    + split.
      * destruct (Strptime.strptime v (strip fmt)); discriminate.
      * intros [?|[?|[_ ?]]]; discriminate.
    + split; auto.
  - split; [discriminate|].
    intros [?|[?|[Hty _]]]; try discriminate. congruence.
Qed.

Lemma row_fields_dom (csv_row : gmap string string)
  (columns : list (string * string * column_details)) :
  forall (init fields : gmap string value),
    row_fields csv_row columns init = Ok fields ->
    forall f : string,
      is_Some (fields !! f) <->
      is_Some (init !! f)
      \/ exists column, column ∈ columns /\ column.1.2 = f
                        /\ ~ skip_conditions csv_row column.
Proof.
  induction columns as [|column columns IH]; intros init fields Hrun f; simpl in *.
  - injection Hrun as <-. split; [auto|].
    intros [?|(c & Hc & _)]; [assumption|]. inversion Hc.
  - pose proof (process_column_skip csv_row column) as Hskip.
    destruct (process_column csv_row column) as [|field_name v|e] eqn:Hcol;
      [ | | discriminate ].
    + rewrite (IH _ _ Hrun f). split.
      * intros [?|(c & Hc & Hf & Hn)]; [auto|].
        right. exists c. split; [right; exact Hc | auto].
      * intros [?|(c & Hc & Hf & Hn)]; [auto|].
        apply elem_of_cons in Hc as [->|Hc].
        -- exfalso. apply Hn, Hskip. reflexivity.
        -- right. exists c. auto.
    + assert (Hname : column.1.2 = field_name).
      { destruct column as [[csv_name fn] details].
        unfold process_column in Hcol; cbn [fst snd] in *.
        destruct (csv_row !! csv_name) as [v'|]; [|discriminate].
        destruct (col_type details) as [ty|]; [|discriminate].
        destruct (String.eqb "datetime" ty).
        - destruct (col_csv_format details) as [fmt|]; [|discriminate].
          destruct (Strptime.strptime v' (strip fmt)); congruence.
        - congruence. }
      assert (Hnot : ~ skip_conditions csv_row column)
        by (intros Hs; apply Hskip in Hs; discriminate).
      rewrite (IH _ _ Hrun f). split.
      * intros [Hin|(c & Hc & Hf & Hn)].
        -- destruct (decide (field_name = f)) as [<-|Hne].
           ++ right. exists column. split; [left|]; auto.
           ++ rewrite lookup_insert_ne in Hin by exact Hne. auto.
        -- right. exists c. split; [right; exact Hc | auto].
      * intros [Hin|(c & Hc & Hf & Hn)].
        -- left. destruct (decide (field_name = f)) as [<-|Hne].
           ++ rewrite lookup_insert_eq. eauto.
           ++ rewrite lookup_insert_ne by exact Hne. exact Hin.
        -- apply elem_of_cons in Hc as [->|Hc].
           ++ left. rewrite Hname in Hf. subst f.
              rewrite lookup_insert_eq. eauto.
           ++ right. exists c. auto.
Qed.

Lemma process_column_extra (csv_row : gmap string string) (extra v : string)
  (column : string * string * column_details) :
  column.1.1 <> extra ->
  process_column (<[extra := v]> csv_row) column = process_column csv_row column.
Proof.
  destruct column as [[csv_name field_name] details]; cbn [fst snd]. intros Hne.
  unfold process_column. rewrite lookup_insert_ne by auto. reflexivity.
Qed.

Lemma row_fields_extra (csv_row : gmap string string) (extra v : string)
  (columns : list (string * string * column_details)) :
  Forall (fun column => column.1.1 <> extra) columns ->
  forall fields,
    row_fields (<[extra := v]> csv_row) columns fields
    = row_fields csv_row columns fields.
Proof.
  induction 1 as [|column columns Hne _ IH]; intros fields; simpl; [reflexivity|].
  rewrite process_column_extra by exact Hne.
  destruct (process_column csv_row column); auto.
Qed.

Lemma row_fields_skip (csv_row : gmap string string)
  (before : list (string * string * column_details)) :
  forall column after fields,
    skip_conditions csv_row column ->
    row_fields csv_row (before ++ column :: after) fields
    = row_fields csv_row (before ++ after) fields.
Proof.
  induction before as [|c before IH]; intros column after fields Hs; simpl.
  - apply process_column_skip in Hs. rewrite Hs. reflexivity.
  - destruct (process_column csv_row c); auto.
Qed.

Lemma skip_coerces (csv_row : gmap string string)
  (column : string * string * column_details) :
  skip_conditions csv_row column -> coerces csv_row column.
Proof.
  intros Hs e. apply process_column_skip in Hs. rewrite Hs. discriminate.
Qed.

Lemma row_fields_coerces (csv_row : gmap string string)
  (columns : list (string * string * column_details)) :
  forall init : gmap string value,
    (exists fields, row_fields csv_row columns init = Ok fields)
    <-> Forall (coerces csv_row) columns.
Proof.
  induction columns as [|column columns IH]; intros init; simpl.
  - split; [constructor | eauto].
  - destruct (process_column csv_row column) as [|field_name v|e] eqn:Hcol.
    + rewrite IH. split.
      * intros Hall. constructor; [|exact Hall].
        intros e. rewrite Hcol. discriminate.
      * intros Hall. inversion Hall; assumption.
    + rewrite IH. split.
      * intros Hall. constructor; [|exact Hall].
        intros e. rewrite Hcol. discriminate.
      * intros Hall. inversion Hall; assumption.
    + split.
      * intros [fields Hf]. discriminate.
      * intros Hall. inversion Hall as [|? ? Hc _]; subst.
        exfalso. apply (Hc e). exact Hcol.
Qed.

(** C3.  A column is left out of the coerced row exactly when the record lacks
    its CSV name, or its settings lack a type, or the type is [datetime] and
    no format is set.  Leaving it out is silent: the loop goes on with the
    columns that follow and the fields gathered so far.  So the fields of a
    coerced row are those of the columns none of these conditions holds for,
    and columns of the record that the settings do not name change nothing.

    Silent means that nothing is raised for the column and that, wherever it
    stands among the columns, the outcome is that of the columns without it;
    and a row is made: the coercion gives a row exactly when no column
    raises, so it gives one when every column is left out, and the empty
    row when there are no fields to store. *)
Theorem row_omits_column_exactly_when (csv_row : gmap string string)
  (columns : list (string * string * column_details)) :
  (forall column,
      process_column csv_row column = Skip <-> skip_conditions csv_row column)
  /\ (forall column fields,
         skip_conditions csv_row column ->
         row_fields csv_row (column :: columns) fields
         = row_fields csv_row columns fields)
  /\ (forall fields,
         row_fields csv_row columns ∅ = Ok fields ->
         forall f : string,
           is_Some (fields !! f) <->
           exists column, column ∈ columns /\ column.1.2 = f
                          /\ ~ skip_conditions csv_row column)
  /\ (forall (extra v : string) fields,
         Forall (fun column => column.1.1 <> extra) columns ->
         row_fields (<[extra := v]> csv_row) columns fields
         = row_fields csv_row columns fields)
  /\ (forall column, skip_conditions csv_row column -> coerces csv_row column)
  /\ (forall before column after fields,
         skip_conditions csv_row column ->
         row_fields csv_row (before ++ column :: after) fields
         = row_fields csv_row (before ++ after) fields)
  /\ (forall fields,
         (exists fields', row_fields csv_row columns fields = Ok fields')
         <-> Forall (coerces csv_row) columns)
  /\ (Forall (skip_conditions csv_row) columns ->
      row_fields csv_row columns ∅ = Ok ∅).
Proof.
  split; [| split; [| split; [| split; [| split; [| split; [| split]]]]]].
  - apply process_column_skip.
  - intros column fields Hs. apply process_column_skip in Hs.
    simpl. rewrite Hs. reflexivity.
  - intros fields Hrun f. rewrite (row_fields_dom _ _ _ _ Hrun f).
    rewrite lookup_empty. split; [|auto].
    intros [[x Hx]|?]; [discriminate | assumption].
  - intros extra v fields Hne. apply row_fields_extra. exact Hne.
  - apply skip_coerces.
  - intros before column after fields. apply row_fields_skip.
  - intros fields. apply row_fields_coerces.
  - induction 1 as [|column columns' Hs _ IH]; simpl; [reflexivity|].
    apply process_column_skip in Hs. rewrite Hs. exact IH.
Qed.

Lemma classify_all_rejected (m : message) (ts : list csv_type) :
  forall i,
    Forall (fun t => verdict_of m t = Rejected) ts ->
    classify m i ts = (Ok None, map (after_check m) ts, checks_calls m i ts).
Proof.
  induction ts as [|t ts IH]; intros i Hall; simpl; [reflexivity|].
  inversion Hall as [|? ? Ht Hts]; subst.
  rewrite Ht, (IH (S i) Hts). reflexivity.
Qed.

Lemma classify_first_accepted (m : message) (pre : list csv_type) :
  forall i t post d,
    Forall (fun t' => verdict_of m t' = Rejected) pre ->
    verdict_of m t = Accepted d ->
    classify m i (pre ++ t :: post)
    = (Ok (Some (i + length pre, d)),
       map (after_check m) pre ++ after_check m t :: post,
       checks_calls m i (pre ++ [t])).
Proof.
  induction pre as [|t' pre IH]; intros i t post d Hpre Ht; simpl.
  - rewrite Ht, Nat.add_0_r, app_nil_r. reflexivity.
  - inversion Hpre as [|? ? Ht' Hpre']; subst.
    rewrite Ht', (IH (S i) t post d Hpre' Ht).
    replace (S i + length pre) with (i + S (length pre)) by lia. reflexivity.
Qed.

Lemma checks_calls_index (m : message) (ts : list csv_type) :
  forall i e,
    e ∈ checks_calls m i ts ->
    exists j p, e = CallCompile j p /\ i <= j < i + length ts.
Proof.
  induction ts as [|t ts IH]; intros i e He; simpl in *; [inversion He|].
  apply elem_of_app in He as [He|He].
  - unfold compile_calls in He. destruct (pattern_to_compile m t) as [p|].
    + apply list_elem_of_singleton in He. exists i, p. split; [assumption|lia].
    + inversion He.
  - apply IH in He as (j & p & -> & Hj). exists j, p. split; [reflexivity|lia].
Qed.

Lemma after_check_settings (m : message) (t : csv_type) :
  save_table (after_check m t) = save_table t
  /\ load_csv (after_check m t) = load_csv t
  /\ save_csv (after_check m t) = save_csv t.
Proof.
  unfold after_check. destruct (pattern_to_compile m t) as [p|]; [|auto].
  destruct (Re.re_compile p); auto.
Qed.

Lemma classify_types (m : message) (ts : list csv_type) :
  forall i r ts' evs,
    classify m i ts = (r, ts', evs) ->
    Forall2 (fun t0 t' => t' = t0 \/ t' = after_check m t0) ts ts'.
Proof.
  induction ts as [|t ts IH]; intros i r ts' evs Hc; simpl in Hc.
  - injection Hc as <- <- <-. constructor.
  - assert (Hrefl : Forall2 (fun t0 t' : csv_type => t' = t0 \/ t' = after_check m t0)
                      ts ts)
      by (clear; induction ts; constructor; auto).
    destruct (verdict_of m t) as [|d|e].
    + destruct (classify m (S i) ts) as [[r0 ts0] evs0] eqn:Hrec.
      injection Hc as <- <- <-. constructor; [auto | eapply IH; eauto].
    + injection Hc as <- <- <-. constructor; auto.
    + injection Hc as <- <- <-. constructor; auto.
Qed.

Lemma classify_index (m : message) (ts : list csv_type) :
  forall i j d ts' evs,
    classify m i ts = (Ok (Some (j, d)), ts', evs) -> i <= j < i + length ts.
Proof.
  induction ts as [|t ts IH]; intros i j d ts' evs Hc; simpl in Hc.
  - discriminate.
  - destruct (verdict_of m t) as [|d0|e].
    + destruct (classify m (S i) ts) as [[r0 ts0] evs0] eqn:Hrec.
      injection Hc as -> <- <-. apply IH in Hrec. simpl. lia.
    + injection Hc as <- <- <- <-. simpl. lia.
    + discriminate.
Qed.

Lemma compilations_app (i : nat) (cs cs' : list event) :
  compilations i (cs ++ cs') = compilations i cs + compilations i cs'.
Proof. induction cs as [|e cs IH]; simpl; [reflexivity | rewrite IH; lia]. Qed.

Lemma compilations_none (i : nat) (cs : list event) :
  Forall (fun e => is_compile e = false) cs -> compilations i cs = 0.
Proof.
  induction 1 as [|e cs He _ IH]; simpl; [reflexivity|].
  destruct e; try discriminate; simpl; exact IH.
Qed.

Lemma compiled_once_bound (ts : list csv_type) (cs : list event) :
  compiled_once ts cs -> forall i, compilations i cs <= 1.
Proof. intros Hinv i. destruct (Hinv i) as [->|[-> _]]; lia. Qed.

Lemma pattern_to_compile_not_cached (m : message) (ts : list csv_type) (i : nat)
  (t : csv_type) (p : string) :
  ts !! i = Some t -> pattern_to_compile m t = Some p -> ~ cached ts i.
Proof.
  intros Hi Hp (t' & c & r & Hi' & Hc & Hr).
  rewrite Hi in Hi'. injection Hi' as <-.
  unfold pattern_to_compile in Hp. rewrite Hc in Hp.
  destruct c as [[f|] [l|] [r'|]]; simpl in *; congruence.
Qed.

(** One check keeps [compiled_once], unless the compilation it makes fails;
    the count stays at most one in any case. *)
Lemma check_compiled_once (m : message) (ts : list csv_type) (cs : list event)
  (i : nat) (t : csv_type) :
  compiled_once ts cs ->
  ts !! i = Some t ->
  (forall j, compilations j (cs ++ compile_calls i m t) <= 1)
  /\ ((forall e, verdict_of m t <> Failed e) ->
      compiled_once (<[i := after_check m t]> ts) (cs ++ compile_calls i m t)).
Proof.
  intros Hinv Hi.
  assert (Hkeep : forall j t', cached ts j -> cached (<[i := with_compiled t' t]> ts) j).
  { intros j r' (t0 & c & r & Hj & Hc & Hr).
    destruct (decide (i = j)) as [<-|Hne].
    - rewrite Hi in Hj. injection Hj as <-.
      exists (with_compiled r' t), (MkCheck (check_from c) (subject_regex c) (Some r')), r'.
      split; [apply list_lookup_insert_eq; eapply lookup_lt_Some; eauto|].
      unfold with_compiled. rewrite Hc. auto.
    - exists t0, c, r. rewrite list_lookup_insert_ne by exact Hne. auto. }
  unfold compile_calls, after_check.
  destruct (pattern_to_compile m t) as [p|] eqn:Hp.
  - pose proof (pattern_to_compile_not_cached m ts i t p Hi Hp) as Hnot.
    assert (Hzero : compilations i cs = 0)
      by (destruct (Hinv i) as [?|[_ ?]]; [assumption | contradiction]).
    assert (Hcount : forall j,
               compilations j (cs ++ [CallCompile i p])
               = compilations j cs + (if (j =? i)%nat then 1 else 0)).
    { intros j. rewrite compilations_app. simpl. lia. }
    split.
    + intros j. rewrite Hcount.
      destruct (Nat.eqb_spec j i) as [->|_].
      * lia.
      * pose proof (compiled_once_bound _ _ Hinv j). lia.
    + intros Hok.
      destruct (Re.re_compile p) as [r|e] eqn:Hcompile.
      * intros j. rewrite Hcount.
        destruct (Nat.eqb_spec j i) as [->|Hne].
        -- right. split; [lia|].
           assert (Hc : exists c, check t = Some c).
           { unfold pattern_to_compile in Hp.
             destruct (check t); [eauto | discriminate]. }
           destruct Hc as [c Hc].
           exists (with_compiled r t),
             (MkCheck (check_from c) (subject_regex c) (Some r)), r.
           split; [apply list_lookup_insert_eq; eapply lookup_lt_Some; eauto|].
           unfold with_compiled. rewrite Hc. auto.
        -- rewrite Nat.add_0_r.
           destruct (Hinv j) as [?|[? Hc]]; [left; assumption|].
           right. split; [assumption|]. apply Hkeep. exact Hc.
      * exfalso. apply (Hok e). unfold verdict_of.
        unfold pattern_to_compile in Hp.
        destruct (check t) as [[[f|] [l|] [r'|]]|]; try discriminate.
        simpl in *.
        destruct (String.eqb (msg_from m) f); [|discriminate].
        injection Hp as <-. unfold pattern_of. simpl. rewrite Hcompile.
        reflexivity.
  - rewrite app_nil_r, (list_insert_id _ _ _ Hi).
    split; [exact (compiled_once_bound _ _ Hinv) | intros _; exact Hinv].
Qed.

(** ** Properties of the stateful code *)

Section Properties.

Context {D F : Type} `{Storage D} `{Files F} `{Environment}.

Abbreviation world := (world D F).
Abbreviation M := (@M D F).
Abbreviation emits P c := (emits (D:=D) (F:=F) P c).
Abbreviation local i c := (local (D:=D) (F:=F) i c).

Ltac run_unfold :=
  unfold bind, ret, raise, lift, record_call, nth_type, store_compiled,
    compile, set_database, set_files in *; simpl in *.

(** *** The checks of one type *)

Lemma check_type_spec (i : nat) (m : message) (w : world) (t : csv_type) :
  csv_file_types w !! i = Some t ->
  check_type i m w =
    (match verdict_of m t with
     | Rejected => Ok Continue
     | Accepted d => Ok (Matched d)
     | Failed e => Raise e
     end,
     World (<[i := after_check m t]> (csv_file_types w)) (database w) (files w)
       (calls w ++ compile_calls i m t)).
Proof.
  intros Hi.
  assert (Hsame : <[i := t]> (csv_file_types w) = csv_file_types w)
    by (apply list_insert_id; exact Hi).
  assert (Halter : forall r, alter (with_compiled r) i (csv_file_types w)
                             = <[i := with_compiled r t]> (csv_file_types w)).
  { intros r. apply list_eq. intros j.
    destruct (decide (i = j)) as [->|Hne].
    - rewrite list_lookup_alter_eq, Hi. simpl.
      symmetry. apply list_lookup_insert_eq. eapply lookup_lt_Some; eauto.
    - rewrite list_lookup_alter_ne, list_lookup_insert_ne; auto. }
  unfold check_type, verdict_of, after_check, compile_calls, pattern_to_compile,
    pattern_of.
  run_unfold. rewrite Hi. simpl.
  destruct w as [ts db fs cs]; simpl in *.
  assert (Hnil : cs = cs ++ []) by (symmetry; apply app_nil_r).
  destruct (check t) as [[[required_from|] l compiled]|]; simpl;
    [| destruct l, compiled; repeat f_equal; auto; fail
     | repeat f_equal; auto; fail].
  destruct (String.eqb (msg_from m) required_from) eqn:Hfrom; simpl;
    [| destruct l, compiled; repeat f_equal; auto; fail].
  destruct compiled as [compiled|]; simpl.
  - destruct l; destruct (msg_subject m) as [s|]; simpl;
      try destruct (Re.re_match compiled s); repeat f_equal; auto.
  - destruct l as [l|]; simpl; [| repeat f_equal; auto; fail].
    destruct (Re.re_compile (join l)) as [r|e]; simpl;
      [| repeat f_equal; auto; fail].
    destruct (msg_subject m) as [s|]; simpl;
      try destruct (Re.re_match r s); repeat f_equal; auto.
Qed.

(** *** The loop over the types *)

Lemma try_types_spec (m : message) (ts : list csv_type) :
  forall (done : list csv_type) (db : D) (fs : F) (cs : list event),
    try_types (length ts) (length done) m (World (done ++ ts) db fs cs) =
      let '(r, ts', evs) := classify m (length done) ts in
      let w' := World (done ++ ts') db fs (cs ++ evs) in
      match r with
      | Ok None => (Ok false, w')
      | Ok (Some (i, d)) => load_message i m d w'
      | Raise e => (Raise e, w')
      end.
Proof.
  induction ts as [|t ts IH]; intros done db fs cs; simpl.
  - unfold ret. rewrite !app_nil_r. reflexivity.
  - unfold bind at 1.
    rewrite (check_type_spec _ _ _ t); simpl;
      [| rewrite lookup_app_r, Nat.sub_diag by lia; reflexivity ].
    replace (<[length done := after_check m t]> (done ++ t :: ts))
      with (done ++ after_check m t :: ts)
      by (rewrite insert_app_r_alt, Nat.sub_diag by lia; reflexivity).
    destruct (verdict_of m t) as [|d|e]; simpl; try reflexivity.
    replace (done ++ after_check m t :: ts)
      with ((done ++ [after_check m t]) ++ ts)
      by (rewrite <- app_assoc; reflexivity).
    replace (S (length done)) with (length (done ++ [after_check m t]))
      by (rewrite length_app; simpl; lia).
    rewrite IH.
    destruct (classify m (length (done ++ [after_check m t])) ts)
      as [[r ts'] evs].
    simpl. rewrite <- !app_assoc. simpl. reflexivity.
Qed.

Lemma process_message_spec (m : message) (w : world) :
  process_message m w =
    let '(r, ts', evs) := classify m 0 (csv_file_types w) in
    let w' := World ts' (database w) (files w) (calls w ++ evs) in
    match r with
    | Ok None => (Ok false, w')
    | Ok (Some (i, d)) => load_message i m d w'
    | Raise e => (Raise e, w')
    end.
Proof.
  unfold process_message. destruct w as [ts db fs cs]; simpl.
  apply (try_types_spec m ts []).
Qed.

(** *** Rows *)

Lemma row_fields_fail (csv_row : gmap string string)
  (before : list (string * string * column_details)) :
  forall column after fields e,
    Forall (fun c => forall e', process_column csv_row c <> Throw e') before ->
    process_column csv_row column = Throw e ->
    row_fields csv_row (before ++ column :: after) fields = Raise e.
Proof.
  induction before as [|c before IH]; intros column after fields e Hb Hc; simpl.
  - rewrite Hc. reflexivity.
  - inversion Hb as [|? ? Hc' Hb']; subst.
    destruct (process_column csv_row c) as [|field_name v|e'] eqn:E;
      [apply IH; assumption | apply IH; assumption | congruence].
Qed.

Lemma process_csv_row_raise (self : parser) (csv_row : gmap string string)
  (w : world) (e : exn) :
  row_fields csv_row (csv_columns self) ∅ = Raise e ->
  process_csv_row self csv_row w = (Raise e, w).
Proof. intros Hr. unfold process_csv_row, bind, lift. rewrite Hr. reflexivity. Qed.

Lemma process_csv_row_ok (self : parser) (csv_row : gmap string string)
  (w : world) (fields : gmap string value) :
  row_fields csv_row (csv_columns self) ∅ = Ok fields ->
  process_csv_row self csv_row w =
    match insert_row (database w) (table_name self) fields with
    | Ok d =>
        (Ok tt, World (csv_file_types w) d (files w)
                  (calls w ++ [CallInsertRow (table_name self) fields]))
    | Raise e =>
        (Raise e, World (csv_file_types w) (database w) (files w)
                    (calls w ++ [CallInsertRow (table_name self) fields]))
    end.
Proof.
  intros Hr. unfold process_csv_row, bind, lift. rewrite Hr.
  unfold db_insert_row. run_unfold.
  destruct (insert_row (database w) (table_name self) fields); reflexivity.
Qed.

Lemma for_each_row_app (self : parser) (before : list (gmap string string)) :
  forall after (w w1 : world),
    for_each_row self before w = (Ok tt, w1) ->
    for_each_row self (before ++ after) w = for_each_row self after w1.
Proof.
  induction before as [|row before IH]; intros after w w1 Hb; simpl in *.
  - unfold ret in Hb. congruence.
  - unfold bind in *.
    destruct (process_csv_row self row w) as [[[]|e] w']; [|discriminate].
    apply IH. exact Hb.
Qed.

(** C4.  A [datetime] column with the format [%Y-%m-%d] turns the text
    [2024-03-01] into the date-time of 1 March 2024, at midnight; the text
    [not-a-date] raises [ValueError] (the spec's ParseError).  An exception
    raised for a column ends the loop over the columns, leaves
    [process_csv_row] before [insert_row] is called, and ends the loop over
    the records: the records after the failing one leave no trace.

    For every text: the column stores a date of the calendar, read from a
    text that conforms to the format, or it raises [ValueError]; a text that
    does not conform raises [ValueError], and so does a text that conforms
    and names no date ([2024-02-31]) or has something after the date
    ([2024-03-01x]).  The same holds of every format that [strptime] makes a
    pattern of. *)
Theorem datetime_coercion_and_abort (csv_row : gmap string string)
  (csv_name field_name : string) (details : column_details) :
  col_type details = Some "datetime" ->
  col_csv_format details = Some "%Y-%m-%d" ->
  (csv_row !! csv_name = Some "2024-03-01" ->
   process_column csv_row (csv_name, field_name, details)
   = Store field_name (VDatetime (Strptime.Datetime 2024 3 1 0 0 0)))
  /\ (csv_row !! csv_name = Some "not-a-date" ->
      process_column csv_row (csv_name, field_name, details) = Throw ValueError)
  /\ (forall e column before after (self : parser) rows_before rows_after
             (w w1 : world),
         process_column csv_row column = Throw e ->
         Forall (fun c => forall e', process_column csv_row c <> Throw e') before ->
         csv_columns self = before ++ column :: after ->
         for_each_row self rows_before w = (Ok tt, w1) ->
         row_fields csv_row (csv_columns self) ∅ = Raise e
         /\ process_csv_row self csv_row w1 = (Raise e, w1)
         /\ for_each_row self (rows_before ++ csv_row :: rows_after) w
            = (Raise e, w1))
  /\ (forall text,
         csv_row !! csv_name = Some text ->
         (exists d,
             process_column csv_row (csv_name, field_name, details)
             = Store field_name (VDatetime d)
             /\ Strptime.valid d = true
             /\ conforms text "%Y-%m-%d")
         \/ process_column csv_row (csv_name, field_name, details)
            = Throw ValueError)
  /\ (forall text,
         csv_row !! csv_name = Some text ->
         ~ conforms text "%Y-%m-%d" ->
         process_column csv_row (csv_name, field_name, details)
         = Throw ValueError)
  /\ (csv_row !! csv_name = Some "2024-02-31" ->
      process_column csv_row (csv_name, field_name, details) = Throw ValueError)
  /\ (csv_row !! csv_name = Some "2024-03-01x" ->
      process_column csv_row (csv_name, field_name, details) = Throw ValueError)
  /\ (forall (details' : column_details) (fmt pattern : string) (r : Re.regex)
             (text : string),
         col_type details' = Some "datetime" ->
         col_csv_format details' = Some fmt ->
         Strptime.time_pattern false (chars (strip fmt)) = Ok pattern ->
         Re.re_compile pattern = Ok r ->
         csv_row !! csv_name = Some text ->
         ((exists d,
              process_column csv_row (csv_name, field_name, details')
              = Store field_name (VDatetime d)
              /\ Strptime.valid d = true
              /\ conforms text (strip fmt))
          \/ process_column csv_row (csv_name, field_name, details')
             = Throw ValueError)
         /\ (~ conforms text (strip fmt) ->
             process_column csv_row (csv_name, field_name, details')
             = Throw ValueError)).
Proof.
  intros Hty Hfmt.
  assert (Hgood : Strptime.strptime "2024-03-01" (strip "%Y-%m-%d")
                  = Ok (Strptime.Datetime 2024 3 1 0 0 0))
    by (vm_compute; reflexivity).
  assert (Hbad : Strptime.strptime "not-a-date" (strip "%Y-%m-%d")
                 = Raise ValueError)
    by (vm_compute; reflexivity).
  assert (Hnodate : Strptime.strptime "2024-02-31" (strip "%Y-%m-%d")
                    = Raise ValueError)
    by (vm_compute; reflexivity).
  assert (Hmore : Strptime.strptime "2024-03-01x" (strip "%Y-%m-%d")
                  = Raise ValueError)
    by (vm_compute; reflexivity).
  assert (Hstrip : strip "%Y-%m-%d" = "%Y-%m-%d") by (vm_compute; reflexivity).
  assert (Hany : forall (details' : column_details) (fmt pattern : string)
                        (r : Re.regex) (text : string),
             col_type details' = Some "datetime" ->
             col_csv_format details' = Some fmt ->
             Strptime.time_pattern false (chars (strip fmt)) = Ok pattern ->
             Re.re_compile pattern = Ok r ->
             csv_row !! csv_name = Some text ->
             (exists d,
                 process_column csv_row (csv_name, field_name, details')
                 = Store field_name (VDatetime d)
                 /\ Strptime.valid d = true
                 /\ conforms text (strip fmt))
             \/ process_column csv_row (csv_name, field_name, details')
                = Throw ValueError).
  { intros details' fmt pattern r text Hty' Hfmt' Hp Hr Hv.
    unfold process_column. rewrite Hv, Hty', Hfmt'.
    change (String.eqb "datetime" "datetime") with true. cbv iota.
    destruct (strptime_outcome text (strip fmt) pattern r Hp Hr)
      as [(d & -> & Hvalid & Hc)| ->]; [left; eauto | right; reflexivity]. }
  assert (Hnot : forall (details' : column_details) (fmt pattern : string)
                        (r : Re.regex) (text : string),
             col_type details' = Some "datetime" ->
             col_csv_format details' = Some fmt ->
             Strptime.time_pattern false (chars (strip fmt)) = Ok pattern ->
             Re.re_compile pattern = Ok r ->
             csv_row !! csv_name = Some text ->
             ~ conforms text (strip fmt) ->
             process_column csv_row (csv_name, field_name, details')
             = Throw ValueError).
  { intros details' fmt pattern r text Hty' Hfmt' Hp Hr Hv Hc.
    destruct (Hany details' fmt pattern r text Hty' Hfmt' Hp Hr Hv)
      as [(d & _ & _ & Hc')|Hraise]; [contradiction | exact Hraise]. }
  assert (Hfragment : exists pattern r,
             Strptime.time_pattern false (chars (strip "%Y-%m-%d")) = Ok pattern
             /\ Re.re_compile pattern = Ok r).
  { assert (Hc : conforms "2024-03-01" "%Y-%m-%d")
      by (apply conforms_decided; vm_compute; reflexivity).
    destruct Hc as (pattern & r & Hp & Hr & _).
    exists pattern, r. rewrite Hstrip. auto. }
  destruct Hfragment as (pattern & r & Hp & Hr).
  split; [| split; [| split; [| split; [| split; [| split; [| split]]]]]];
    [ | | | | | | | intros details' fmt pattern' r' text Hty' Hfmt' Hp' Hr' Hv;
                    split; [eapply Hany | eapply Hnot]; eauto ].
  - intros Hv. unfold process_column. rewrite Hv, Hty, Hfmt.
    change (String.eqb "datetime" "datetime") with true. cbv iota.
    rewrite Hgood. reflexivity.
  - intros Hv. unfold process_column. rewrite Hv, Hty, Hfmt.
    change (String.eqb "datetime" "datetime") with true. cbv iota.
    rewrite Hbad. reflexivity.
  - intros e column before after self rows_before rows_after w w1
      Hcol Hbefore Hcols Hrows.
    assert (Hraise : row_fields csv_row (csv_columns self) ∅ = Raise e)
      by (rewrite Hcols; apply row_fields_fail; assumption).
    split; [exact Hraise|].
    split; [apply process_csv_row_raise; exact Hraise|].
    rewrite (for_each_row_app _ _ _ _ _ Hrows). simpl.
    unfold bind. rewrite (process_csv_row_raise _ _ _ _ Hraise). reflexivity.
  - intros text Hv.
    pose proof (Hany details "%Y-%m-%d" pattern r text Hty Hfmt Hp Hr Hv)
      as Hres.
    rewrite Hstrip in Hres. exact Hres.
  - intros text Hv Hc.
    apply (Hnot details "%Y-%m-%d" pattern r text Hty Hfmt Hp Hr Hv).
    rewrite Hstrip. exact Hc.
  - intros Hv. unfold process_column. rewrite Hv, Hty, Hfmt.
    change (String.eqb "datetime" "datetime") with true. cbv iota.
    rewrite Hnodate. reflexivity.
  - intros Hv. unfold process_column. rewrite Hv, Hty, Hfmt.
    change (String.eqb "datetime" "datetime") with true. cbv iota.
    rewrite Hmore. reflexivity.
Qed.

Lemma row_fields_all_skipped (csv_row : gmap string string)
  (columns : list (string * string * column_details)) :
  Forall (skip_conditions csv_row) columns ->
  forall fields, row_fields csv_row columns fields = Ok fields.
Proof.
  induction 1 as [|column columns Hs _ IH]; intros fields; simpl; [reflexivity|].
  apply process_column_skip in Hs. rewrite Hs. apply IH.
Qed.

Lemma for_each_row_calls (self : parser) (rows : list (gmap string string)) :
  forall w w' : world,
    for_each_row self rows w = (Ok tt, w') ->
    exists fs : list (gmap string value),
      Forall2 (fun row f => row_fields row (csv_columns self) ∅ = Ok f) rows fs
      /\ calls w' = calls w ++ map (CallInsertRow (table_name self)) fs.
Proof.
  induction rows as [|row rows IH]; intros w w' Hrun; simpl in *.
  - unfold ret in Hrun. injection Hrun as <-.
    exists []. split; [constructor | symmetry; apply app_nil_r].
  - unfold bind in Hrun.
    destruct (row_fields row (csv_columns self) ∅) as [fields|e] eqn:Hrow.
    + rewrite (process_csv_row_ok _ _ _ _ Hrow) in Hrun.
      destruct (insert_row (database w) (table_name self) fields) as [d|e];
        [|discriminate].
      apply IH in Hrun as (fs & Hfs & Hcalls). simpl in Hcalls.
      exists (fields :: fs). split; [constructor; assumption|].
      rewrite Hcalls, <- app_assoc. reflexivity.
    + rewrite (process_csv_row_raise _ _ _ _ Hrow) in Hrun. discriminate.
Qed.

(** C10, as amended.  A record that [process_csv_row] is called on and whose
    coercion raises nothing gets exactly one [insert_row] call, for the table
    of the parser and with the fields coerced, whether the database client
    accepts the row or not; when every column of the record is skipped the
    call is made all the same, with the empty dictionary. *)
Theorem one_insert_row_per_coerced_record (self : parser) :
  (forall (csv_row : gmap string string) (w : world) fields,
      row_fields csv_row (csv_columns self) ∅ = Ok fields ->
      calls (process_csv_row self csv_row w).2
      = calls w ++ [CallInsertRow (table_name self) fields]
      /\ one_insert_row_call self csv_row w)
  /\ (forall (csv_row : gmap string string) (w : world),
         Forall (skip_conditions csv_row) (csv_columns self) ->
         calls (process_csv_row self csv_row w).2
         = calls w ++ [CallInsertRow (table_name self) ∅]).
Proof.
  assert (Hone : forall (csv_row : gmap string string) (w : world) fields,
             row_fields csv_row (csv_columns self) ∅ = Ok fields ->
             calls (process_csv_row self csv_row w).2
             = calls w ++ [CallInsertRow (table_name self) fields]).
  { intros csv_row w fields Hrow. rewrite (process_csv_row_ok _ _ _ _ Hrow).
    destruct (insert_row (database w) (table_name self) fields); reflexivity. }
  split.
  - intros csv_row w fields Hrow. split; [apply Hone; exact Hrow|].
    unfold one_insert_row_call. rewrite (Hone _ _ _ Hrow).
    rewrite drop_app_length. reflexivity.
  - intros csv_row w Hskip. apply Hone.
    apply row_fields_all_skipped. exact Hskip.
Qed.

Lemma emits_read {A : Type} (P : event -> Prop) (f : world -> result A) :
  emits P (fun w => (f w, w)).
Proof.
  intros w; simpl. split; [reflexivity|].
  exists []. split; [symmetry; apply app_nil_r | constructor].
Qed.

Lemma emits_bind {A B : Type} (P : event -> Prop) (c : M A) (k : A -> M B) :
  emits P c -> (forall a, emits P (k a)) -> emits P (bind c k).
Proof.
  intros Hc Hk w. unfold bind.
  destruct (Hc w) as (Ht & new & Hcalls & Hnew).
  destruct (c w) as [[a|e] w1]; simpl in *.
  - destruct (Hk a w1) as (Ht' & new' & Hcalls' & Hnew').
    split; [congruence|].
    exists (new ++ new'). split.
    + rewrite Hcalls', Hcalls, app_assoc. reflexivity.
    + apply Forall_app; auto.
  - split; [assumption|]. exists new. auto.
Qed.

Lemma emits_record_call (P : event -> Prop) (e : event) :
  P e -> emits P (record_call e).
Proof.
  intros He w; simpl. split; [reflexivity|].
  exists [e]. split; [reflexivity | repeat constructor; assumption].
Qed.

Lemma emits_set_database (P : event -> Prop) (d : D) : emits P (set_database d).
Proof.
  intros w; simpl. split; [reflexivity|].
  exists []. split; [symmetry; apply app_nil_r | constructor].
Qed.

Lemma emits_set_files (P : event -> Prop) (f : F) : emits P (set_files f).
Proof.
  intros w; simpl. split; [reflexivity|].
  exists []. split; [symmetry; apply app_nil_r | constructor].
Qed.

Lemma emits_nth_type (P : event -> Prop) (i : nat) : emits P (nth_type i).
Proof.
  intros w. unfold nth_type. destruct (csv_file_types w !! i); simpl;
    (split; [reflexivity|]; exists []; split;
     [symmetry; apply app_nil_r | constructor]).
Qed.

Ltac emits_step :=
  first
    [ apply emits_bind; [|intros ?]
    | apply emits_read
    | apply emits_set_database
    | apply emits_set_files
    | apply emits_nth_type
    | apply emits_record_call ].

Lemma emits_for_each_row (P : event -> Prop) (self : parser) :
  (forall name fields, P (CallInsertRow name fields)) ->
  forall rows, emits P (for_each_row self rows).
Proof.
  intros HP rows. induction rows as [|row rows IH]; simpl.
  - apply (emits_read P (fun _ => Ok tt)).
  - apply emits_bind; [|intros _; exact IH].
    unfold process_csv_row, lift, db_insert_row.
    repeat emits_step. apply HP.
Qed.

Lemma emits_parser_process_message (P : event -> Prop) (self : parser)
  (m : message) :
  (forall name fields, P (CallInsertRow name fields)) ->
  (forall path content, P (CallWrite path content)) ->
  emits P (parser_process_message self m).
Proof.
  intros Hinsert Hwrite.
  unfold parser_process_message, process_csv_content, base_process_csv_content.
  apply emits_bind; [|intros _; apply emits_for_each_row; exact Hinsert].
  destruct (save_file_path self) as [path|].
  - unfold write. repeat emits_step. apply Hwrite.
  - apply (emits_read P (fun _ => Ok tt)).
Qed.

Lemma emits_load_message (P : event -> Prop) (i : nat) (m : message)
  (d : gmap string (option string)) :
  (forall e, is_compile e = false -> P e) ->
  emits P (load_message i m d).
Proof.
  intros HP. unfold load_message, lift.
  do 4 (apply emits_bind; [emits_step | intros ?]).
  apply emits_bind.
  { unfold db_table_exists. repeat emits_step. apply HP. reflexivity. }
  intros present.
  apply emits_bind.
  { destruct (negb present).
    - unfold db_create_table. repeat emits_step. apply HP. reflexivity.
    - apply (emits_read P (fun _ => Ok tt)). }
  intros _.
  apply emits_bind; [emits_step | intros self].
  apply emits_bind; [| intros _; apply (emits_read P (fun _ => Ok true))].
  apply emits_parser_process_message; intros; apply HP; reflexivity.
Qed.

Lemma local_read {A : Type} (i : nat) (f : world -> result A) :
  (forall w w', agree i w w' -> f w = f w') -> local i (fun w => (f w, w)).
Proof. intros Hf w w' Hww. simpl. auto. Qed.

Lemma local_bind {A B : Type} (i : nat) (c : M A) (k : A -> M B) :
  local i c -> (forall a, local i (k a)) -> local i (bind c k).
Proof.
  intros Hc Hk w w' Hww. unfold bind.
  destruct (Hc w w' Hww) as [Hr Ha].
  destruct (c w) as [[a|e] w1], (c w') as [[a'|e'] w1']; simpl in *;
    try discriminate.
  - injection Hr as <-. apply Hk. exact Ha.
  - injection Hr as <-. split; [reflexivity | assumption].
Qed.

Lemma local_update {A : Type} (i : nat) (a : A) (f : world -> world) :
  (forall w w', agree i w w' -> agree i (f w) (f w')) ->
  local i (fun w => (Ok a, f w)).
Proof. intros Hf w w' Hww. simpl. auto. Qed.

Ltac local_step :=
  first
    [ apply local_bind; [|intros ?]
    | apply local_read;
      let Hww := fresh in
      intros ? ? Hww; try reflexivity;
      destruct Hww as (Hty & Hdb & Hfs & Hcs);
      try rewrite Hty; try rewrite Hdb; try rewrite Hfs; reflexivity
    | apply local_update;
      let Hww := fresh in
      intros ? ? Hww; destruct Hww as (Hty & Hdb & Hfs & Hcs);
      unfold agree; simpl; repeat split; congruence ].

Lemma local_nth_type (i : nat) : local i (nth_type i).
Proof.
  intros w w' Hww. unfold nth_type.
  replace (csv_file_types w' !! i) with (csv_file_types w !! i)
    by (destruct Hww as [Hty _]; exact Hty).
  generalize (csv_file_types w !! i). intros [t|]; simpl; auto.
Qed.

Lemma local_for_each_row (i : nat) (self : parser) :
  forall rows, local i (for_each_row self rows).
Proof.
  induction rows as [|row rows IH]; simpl.
  - local_step.
  - apply local_bind; [|intros _; exact IH].
    unfold process_csv_row, lift, db_insert_row, record_call, set_database.
    repeat local_step.
Qed.

Lemma local_load_message (i : nat) (m : message)
  (d : gmap string (option string)) : local i (load_message i m d).
Proof.
  unfold load_message, lift.
  apply local_bind; [apply local_nth_type | intros t].
  do 3 (apply local_bind; [local_step | intros ?]).
  apply local_bind.
  { unfold db_table_exists, record_call. repeat local_step. }
  intros present.
  apply local_bind.
  { destruct (negb present).
    - unfold db_create_table, record_call, set_database. repeat local_step.
    - local_step. }
  intros _.
  apply local_bind; [local_step | intros self].
  apply local_bind; [| intros _; local_step].
  unfold parser_process_message, process_csv_content, base_process_csv_content.
  apply local_bind; [| intros _; apply local_for_each_row].
  destruct (save_file_path self) as [path|].
  - unfold write, record_call, set_files. repeat local_step.
  - local_step.
Qed.

(** *** Classification *)

(** C1, as amended.  When the types before [t] all reject the message (each
    for its sender or for its pattern, none with an exception) and [t]
    accepts it with the subject values [d], the message is loaded as one of
    type [t], with [d]: [process_message] does what [load_message] does for
    the index of [t], in the world the checks of the types up to [t] leave.
    The types after [t] are not tried: they stay as they were, no pattern of
    theirs is compiled, and replacing them by any others changes neither the
    result nor the database, the files or the calls made. *)
Theorem first_accepting_type_is_chosen (m : message)
  (pre : list csv_type) (t : csv_type) (post : list csv_type)
  (d : gmap string (option string)) (w : world) :
  csv_file_types w = pre ++ t :: post ->
  Forall (fun t' => verdict_of m t' = Rejected) pre ->
  verdict_of m t = Accepted d ->
  let w1 : world :=
    World (map (after_check m) pre ++ after_check m t :: post)
      (database w) (files w) (calls w ++ checks_calls m 0 (pre ++ [t])) in
  let w2 : world := (process_message m w).2 in
  process_message m w = load_message (length pre) m d w1
  /\ csv_file_types w1 !! length pre = Some (after_check m t)
  /\ csv_file_types w2 = csv_file_types w1
  /\ (exists new,
         calls w2 = calls w ++ new
         /\ Forall (fun e => forall j p, e = CallCompile j p -> j <= length pre)
              new)
  /\ (forall (post' : list csv_type) (w' : world),
         csv_file_types w' = pre ++ t :: post' ->
         database w' = database w -> files w' = files w -> calls w' = calls w ->
         (process_message m w').1 = (process_message m w).1
         /\ database (process_message m w').2 = database w2
         /\ files (process_message m w').2 = files w2
         /\ calls (process_message m w').2 = calls w2).
Proof.
  intros Hts Hpre Ht w1 w2.
  assert (Hrun : forall (post0 : list csv_type) (w0 : world),
             csv_file_types w0 = pre ++ t :: post0 ->
             process_message m w0
             = load_message (length pre) m d
                 (World (map (after_check m) pre ++ after_check m t :: post0)
                    (database w0) (files w0)
                    (calls w0 ++ checks_calls m 0 (pre ++ [t])))).
  { intros post0 w0 Hw0. rewrite process_message_spec, Hw0.
    rewrite (classify_first_accepted m pre 0 t post0 d Hpre Ht). reflexivity. }
  assert (Hlookup : forall post0 : list csv_type,
             (map (after_check m) pre ++ after_check m t :: post0) !! length pre
             = Some (after_check m t)).
  { intros post0. rewrite lookup_app_r by (rewrite length_map; lia).
    rewrite length_map, Nat.sub_diag. reflexivity. }
  split; [apply Hrun; exact Hts|].
  split; [apply Hlookup|].
  destruct (emits_load_message
              (fun e => forall j p, e = CallCompile j p -> j <= length pre)
              (length pre) m d) with (w := w1) as (Hty & new & Hcalls & Hnew).
  { intros e He j p ->. discriminate. }
  unfold w2. rewrite (Hrun post w Hts). fold w1.
  split; [exact Hty|].
  split.
  - exists (checks_calls m 0 (pre ++ [t]) ++ new). split.
    + rewrite Hcalls. unfold w1; simpl. rewrite app_assoc. reflexivity.
    + apply Forall_app. split; [|exact Hnew].
      apply Forall_forall. intros e He j p ->.
      apply checks_calls_index in He as (j' & p' & Heq & Hj).
      injection Heq as <- <-. rewrite length_app in Hj. simpl in Hj. lia.
  - intros post' w' Hts' Hdb Hfs Hcs. rewrite (Hrun post' w' Hts').
    destruct (local_load_message (length pre) m d
                (World (map (after_check m) pre ++ after_check m t :: post')
                   (database w') (files w')
                   (calls w' ++ checks_calls m 0 (pre ++ [t]))) w1)
      as (Hres & _ & Hdb' & Hfs' & Hcs').
    { unfold agree, w1; simpl. rewrite !Hlookup, Hdb, Hfs, Hcs. auto. }
    auto.
Qed.

Lemma sender_mismatch_rejected (m : message) (t : csv_type)
  (c : check_settings) (required_from : string) :
  check t = Some c -> check_from c = Some required_from ->
  required_from <> msg_from m ->
  verdict_of m t = Rejected.
Proof.
  intros Hc Hf Hne. unfold verdict_of. rewrite Hc, Hf.
  destruct (String.eqb_spec (msg_from m) required_from); [congruence|reflexivity].
Qed.

(** C6, as amended.  When every CSV type rejects the message (its sender is
    not the required one, or its pattern does not match the subject),
    [process_message] returns [False]; nothing is raised, the database and
    the files are as before, and no call to the database client is made.
    The only calls made are compilations of patterns.  Rejecting is more
    than not accepting: a check that raises accepts nothing, and its
    exception leaves [process_message]. *)
Theorem unmatched_message_returns_false (m : message) (w : world) :
  Forall (fun t => verdict_of m t = Rejected) (csv_file_types w) ->
  exists w' : world,
    process_message m w = (Ok false, w')
    /\ database w' = database w
    /\ files w' = files w
    /\ exists new,
        calls w' = calls w ++ new
        /\ Forall (fun e => is_storage_call e = false /\ is_write e = false) new.
Proof.
  intros Hall. rewrite process_message_spec.
  rewrite (classify_all_rejected m _ 0 Hall).
  eexists. split; [reflexivity|]. simpl.
  split; [reflexivity|]. split; [reflexivity|].
  eexists. split; [reflexivity|].
  apply Forall_forall. intros e He.
  apply checks_calls_index in He as (j & p & -> & _). split; reflexivity.
Qed.

(** *** Loading *)

Lemma load_message_unfold (i : nat) (m : message)
  (d : gmap string (option string)) (w : world) (t : csv_type) :
  csv_file_types w !! i = Some t ->
  load_message i m d w =
    match table_name_of t d with
    | Raise e => (Raise e, w)
    | Ok name =>
        let w1 : world :=
          World (csv_file_types w) (database w) (files w)
            (calls w ++ [CallTableExists name]) in
        if table_exists (database w) name then run_parser t name d m w1
        else
          match columns_of t with
          | Raise e => (Raise e, w1)
          | Ok cols =>
              let cs := calls w ++ [CallTableExists name; CallCreateTable name cols] in
              match create_table (database w) name cols with
              | Raise e =>
                  (Raise e, World (csv_file_types w) (database w) (files w) cs)
              | Ok db' =>
                  run_parser t name d m
                    (World (csv_file_types w) db' (files w) cs)
              end
          end
    end.
Proof.
  intros Hi. unfold load_message, table_name_of, columns_of, run_parser,
    db_table_exists, db_create_table.
  run_unfold. rewrite Hi. destruct w as [ts db fs cs]; simpl in *.
  destruct (save_table t) as [[[fmt|]]|]; simpl; try reflexivity.
  destruct (str_format (strip fmt) d) as [name|e]; simpl; [|reflexivity].
  destruct (table_exists db name); simpl; [reflexivity|].
  destruct (load_csv t) as [[[cols|]]|]; simpl; try reflexivity.
  rewrite <- app_assoc. simpl.
  destruct (create_table db name cols); reflexivity.
Qed.

Lemma emits_run_parser (t : csv_type) (name : string)
  (d : gmap string (option string)) (m : message) :
  emits (fun e => is_write_or_insert e = true) (run_parser t name d m).
Proof.
  unfold run_parser, lift.
  apply emits_bind; [emits_step | intros self].
  apply emits_bind;
    [| intros _; apply (emits_read _ (fun _ => Ok true))].
  apply emits_parser_process_message; reflexivity.
Qed.

(** The tables that exist still exist after the rows are inserted. *)
Lemma for_each_row_keeps_tables (self : parser) (name : string) :
  lawful_storage ->
  forall (rows : list (gmap string string)) (w : world),
    table_exists (database w) name = true ->
    table_exists (database (for_each_row self rows w).2) name = true.
Proof.
  intros [_ Hinsert] rows.
  induction rows as [|row rows IH]; intros w Hw; simpl; [exact Hw|].
  unfold bind.
  destruct (row_fields row (csv_columns self) ∅) as [fields|e] eqn:Hrow.
  - rewrite (process_csv_row_ok _ _ _ _ Hrow).
    destruct (insert_row (database w) (table_name self) fields) as [db'|e]
      eqn:Hins; simpl; [|exact Hw].
    apply IH. simpl. eapply Hinsert; eauto.
  - rewrite (process_csv_row_raise _ _ _ _ Hrow). exact Hw.
Qed.

Lemma run_parser_keeps_tables (t : csv_type) (name name' : string)
  (d : gmap string (option string)) (m : message) (w : world) :
  lawful_storage ->
  table_exists (database w) name' = true ->
  table_exists (database (run_parser t name d m w).2) name' = true.
Proof.
  intros Hlaw Hw. unfold run_parser, lift, bind at 1.
  destruct (parser_init t name d) as [self|e]; [|exact Hw].
  unfold parser_process_message, process_csv_content, base_process_csv_content.
  unfold bind at 1.
  assert (Hrows : forall w0 : world,
             table_exists (database w0) name' = true ->
             table_exists
               (database
                  (bind (for_each_row self (csv_records (msg_content m)))
                     (fun _ => ret true) w0).2) name' = true).
  { intros w0 Hw0. unfold bind.
    pose proof (for_each_row_keeps_tables self name' Hlaw
                  (csv_records (msg_content m)) w0 Hw0) as Hk.
    destruct (for_each_row self (csv_records (msg_content m)) w0)
      as [[[]|e] w3]; exact Hk. }
  unfold bind at 1.
  destruct (save_file_path self) as [path|].
  - unfold write. run_unfold.
    destruct (write_file (files w) path (msg_content m)) as [f|e]; simpl.
    + apply (Hrows (World _ _ _ _)). exact Hw.
    + exact Hw.
  - simpl. apply Hrows. exact Hw.
Qed.

Lemma load_message_calls (i : nat) (m : message)
  (d : gmap string (option string)) (w : world) (t : csv_type) (name : string) :
  csv_file_types w !! i = Some t ->
  table_name_of t d = Ok name ->
  exists new,
    calls (load_message i m d w).2 = calls w ++ CallTableExists name :: new
    /\ (table_exists (database w) name = true ->
        Forall (fun e => is_write_or_insert e = true) new)
    /\ (forall n cols,
           CallCreateTable n cols ∈ new ->
           table_exists (database w) name = false
           /\ n = name /\ columns_of t = Ok cols
           /\ exists rest,
               new = CallCreateTable name cols :: rest
               /\ Forall (fun e => is_write_or_insert e = true) rest).
Proof.
  intros Hi Hname. rewrite (load_message_unfold i m d w t Hi), Hname.
  assert (Hno : forall (new : list event) n cols,
             Forall (fun e => is_write_or_insert e = true) new ->
             CallCreateTable n cols ∈ new -> False).
  { intros new n cols Hnew Hin.
    rewrite Forall_forall in Hnew. apply Hnew in Hin. discriminate. }
  cbv zeta.
  destruct (table_exists (database w) name) eqn:Hex.
  - destruct (emits_run_parser t name d m
                (World (csv_file_types w) (database w) (files w)
                   (calls w ++ [CallTableExists name])))
      as (_ & new & Hcalls & Hnew).
    exists new. split; [|split].
    + rewrite Hcalls. simpl. rewrite <- app_assoc. reflexivity.
    + auto.
    + intros n cols Hin. exfalso. eauto.
  - destruct (columns_of t) as [cols|e] eqn:Hcols.
    + assert (Hcreated :
               forall w3 : world,
                 calls w3 = calls w ++ [CallTableExists name; CallCreateTable name cols] ->
                 forall new3,
                   calls w3 ++ new3
                   = calls w ++ CallTableExists name
                       :: CallCreateTable name cols :: new3).
      { intros w3 -> new3. rewrite <- app_assoc. reflexivity. }
      assert (Hshape :
               forall rest n cols',
                 Forall (fun e => is_write_or_insert e = true) rest ->
                 CallCreateTable n cols' ∈ CallCreateTable name cols :: rest ->
                 false = false /\ n = name /\ Ok cols = Ok cols'
                 /\ exists rest',
                     CallCreateTable name cols :: rest
                     = CallCreateTable name cols' :: rest'
                     /\ Forall (fun e => is_write_or_insert e = true) rest').
      { intros rest n cols' Hrest Hin.
        apply elem_of_cons in Hin as [Heq|Hin]; [|exfalso; eauto].
        injection Heq as -> ->. repeat split; eauto. }
      destruct (create_table (database w) name cols) as [db'|e].
      * destruct (emits_run_parser t name d m
                    (World (csv_file_types w) db' (files w)
                       (calls w ++ [CallTableExists name; CallCreateTable name cols])))
          as (_ & new & Hcalls & Hnew).
        exists (CallCreateTable name cols :: new). split; [|split].
        -- rewrite Hcalls. apply Hcreated. reflexivity.
        -- discriminate.
        -- intros n cols' Hin. apply Hshape; assumption.
      * exists [CallCreateTable name cols]. split; [|split].
        -- reflexivity.
        -- discriminate.
        -- intros n cols' Hin. apply Hshape; [constructor | assumption].
    + exists []. split; [reflexivity|].
      split; [discriminate|]. intros n cols Hin. inversion Hin.
Qed.

Lemma load_message_creates (i : nat) (m : message)
  (d : gmap string (option string)) (w w' : world) (t : csv_type)
  (name : string) :
  lawful_storage ->
  csv_file_types w !! i = Some t ->
  table_name_of t d = Ok name ->
  load_message i m d w = (Ok true, w') ->
  table_exists (database w') name = true.
Proof.
  intros Hlaw Hi Hname. rewrite (load_message_unfold i m d w t Hi), Hname.
  cbv zeta.
  destruct (table_exists (database w) name) eqn:Hex.
  - intros Hrun.
    pose proof (run_parser_keeps_tables t name name d m
                  (World (csv_file_types w) (database w) (files w)
                     (calls w ++ [CallTableExists name])) Hlaw Hex) as Hk.
    rewrite Hrun in Hk. exact Hk.
  - destruct (columns_of t) as [cols|e]; [|discriminate].
    destruct (create_table (database w) name cols) as [db'|e] eqn:Hcreate;
      [|discriminate].
    intros Hrun.
    assert (Hdb' : table_exists db' name = true)
      by (destruct Hlaw as [Hc _]; eapply Hc; eauto).
    pose proof (run_parser_keeps_tables t name name d m
                  (World (csv_file_types w) db' (files w)
                     (calls w ++ [CallTableExists name; CallCreateTable name cols]))
                  Hlaw Hdb') as Hk.
    rewrite Hrun in Hk. exact Hk.
Qed.

(** C2.  A message classified as of type [t], with the subject values [d]
    and the table name [name]: the first call to the database client asks
    whether [name] exists.  If it does, every later call of the message
    writes the copy of the CSV or inserts a row: nothing touches the schema.
    A [create_table] call is made only when the table was reported absent;
    it is for [name], with the column settings of [t], and it comes straight
    after the question.  With a lawful database client, once the message has
    been processed the table exists, and a second message of the same type
    with the same subject values makes no [create_table] call. *)
Theorem create_table_only_when_absent (m : message) (w : world) (i : nat)
  (d : gmap string (option string)) (ts' : list csv_type) (evs : list event)
  (t : csv_type) (name : string) :
  classify m 0 (csv_file_types w) = (Ok (Some (i, d)), ts', evs) ->
  ts' !! i = Some t ->
  table_name_of t d = Ok name ->
  let w2 : world := (process_message m w).2 in
  (exists new,
      calls w2 = calls w ++ evs ++ CallTableExists name :: new
      /\ (table_exists (database w) name = true ->
          Forall (fun e => is_write_or_insert e = true) new)
      /\ (forall n cols,
             CallCreateTable n cols ∈ new ->
             table_exists (database w) name = false
             /\ n = name /\ columns_of t = Ok cols
             /\ exists rest,
                 new = CallCreateTable name cols :: rest
                 /\ Forall (fun e => is_write_or_insert e = true) rest))
  /\ (lawful_storage ->
      (process_message m w).1 = Ok true ->
      table_exists (database w2) name = true
      /\ forall (m' : message) ts'' evs',
          classify m' 0 (csv_file_types w2) = (Ok (Some (i, d)), ts'', evs') ->
          exists new',
            calls (process_message m' w2).2
            = calls w2 ++ evs' ++ CallTableExists name :: new'
            /\ Forall (fun e => is_write_or_insert e = true) new').
Proof.
  intros Hclass Hi Hname w2.
  assert (Hrun : process_message m w
                 = load_message i m d
                     (World ts' (database w) (files w) (calls w ++ evs)))
    by (rewrite process_message_spec, Hclass; reflexivity).
  set (w1 := World ts' (database w) (files w) (calls w ++ evs) : world) in *.
  split.
  - destruct (load_message_calls i m d w1 t name Hi Hname)
      as (new & Hcalls & Hexists & Hcreate).
    exists new. unfold w2. rewrite Hrun, Hcalls. simpl.
    split; [rewrite <- app_assoc; reflexivity | auto].
  - intros Hlaw Hok.
    assert (Hw2 : process_message m w = (Ok true, w2))
      by (unfold w2; destruct (process_message m w); simpl in *; congruence).
    assert (Hexists : table_exists (database w2) name = true).
    { rewrite Hrun in Hw2.
      exact (load_message_creates i m d w1 w2 t name Hlaw Hi Hname Hw2). }
    split; [exact Hexists|].
    intros m' ts'' evs' Hclass'.
    assert (Hts2 : csv_file_types w2 = ts').
    { destruct (emits_load_message (fun _ => True) i m d (fun _ _ => I) w1)
        as [Hty _].
      unfold w2. rewrite Hrun. exact Hty. }
    rewrite Hts2 in Hclass'.
    pose proof (classify_types _ _ _ _ _ _ Hclass') as Hall.
    destruct (Forall2_lookup_l _ _ _ _ _ Hall Hi) as (t'' & Hi'' & Ht'').
    assert (Hname'' : table_name_of t'' d = Ok name).
    { rewrite <- Hname. unfold table_name_of.
      destruct Ht'' as [->| ->]; [reflexivity|].
      destruct (after_check_settings m' t) as [-> _]. reflexivity. }
    destruct (load_message_calls i m' d
                (World ts'' (database w2) (files w2) (calls w2 ++ evs'))
                t'' name Hi'' Hname'')
      as (new' & Hcalls' & Hexists' & _).
    exists new'. split; [|apply Hexists'; exact Hexists].
    rewrite process_message_spec, Hts2, Hclass'. cbv beta iota zeta.
    rewrite Hcalls'. simpl. rewrite <- app_assoc. reflexivity.
Qed.

(** *** Exceptions that leave [process_message] *)

Lemma for_each_message_app (before : list message) :
  forall (inbox : list message) (w0 w : world),
    for_each_message before w0 = (Ok tt, w) ->
    for_each_message (before ++ inbox) w0 = for_each_message inbox w.
Proof.
  induction before as [|m before IH]; intros inbox w0 w Hb; simpl in *.
  - unfold ret in Hb. congruence.
  - unfold bind in *.
    destruct (process_message m w0) as [[b|e] w']; [|discriminate].
    apply IH. exact Hb.
Qed.


(** *** The copy of the CSV *)


(** *** Compilations *)

Lemma emits_compiled_once {A : Type} (c : M A) (w : world) :
  emits (fun e => is_compile e = false) c ->
  compiled_once (csv_file_types w) (calls w) ->
  compiled_once (csv_file_types (c w).2) (calls (c w).2).
Proof.
  intros Hc Hinv. destruct (Hc w) as (Hty & new & Hcalls & Hnew).
  rewrite Hty, Hcalls. intros i.
  rewrite compilations_app, (compilations_none i new Hnew), Nat.add_0_r.
  apply Hinv.
Qed.

Lemma try_types_step (m : message) (n i : nat) (w : world) :
  try_types (S n) i m w =
    match check_type i m w with
    | (Ok Continue, w') => try_types n (S i) m w'
    | (Ok (Matched d), w') => load_message i m d w'
    | (Raise e, w') => (Raise e, w')
    end.
Proof.
  simpl. unfold bind at 1.
  destruct (check_type i m w) as [[[|d]|e] w']; reflexivity.
Qed.

Lemma try_types_compiled_once (m : message) (n : nat) :
  forall (i : nat) (w : world),
    compiled_once (csv_file_types w) (calls w) ->
    i + n = length (csv_file_types w) ->
    (forall j, compilations j (calls (try_types n i m w).2) <= 1)
    /\ ((exists b, (try_types n i m w).1 = Ok b) ->
        compiled_once (csv_file_types (try_types n i m w).2)
          (calls (try_types n i m w).2)).
Proof.
  induction n as [|n IH]; intros i w Hinv Hlen.
  - simpl. split; [exact (compiled_once_bound _ _ Hinv) | intros _; exact Hinv].
  - destruct (lookup_lt_is_Some_2 (csv_file_types w) i) as [t Hi]; [lia|].
    rewrite try_types_step, (check_type_spec i m w t Hi).
    destruct (check_compiled_once m _ _ i t Hinv Hi) as [Hbound Hkeep].
    destruct (verdict_of m t) as [|d|e] eqn:Hv.
    + apply IH; simpl.
      * apply Hkeep. intros e. discriminate.
      * rewrite length_insert. lia.
    + assert (Hinv1 : compiled_once
                         (csv_file_types
                            (World (<[i:=after_check m t]> (csv_file_types w))
                               (database w) (files w)
                               (calls w ++ compile_calls i m t) : world))
                         (calls
                            (World (<[i:=after_check m t]> (csv_file_types w))
                               (database w) (files w)
                               (calls w ++ compile_calls i m t) : world)))
        by (simpl; apply Hkeep; intros e; discriminate).
      pose proof (emits_compiled_once (load_message i m d) _
                    (emits_load_message _ i m d (fun e He => He)) Hinv1) as Hinv2.
      split; [exact (compiled_once_bound _ _ Hinv2) | intros _; exact Hinv2].
    + simpl. split; [exact Hbound|]. intros [b Hb]. discriminate.
Qed.

Lemma for_each_message_compiled_once (inbox : list message) :
  forall w : world,
    compiled_once (csv_file_types w) (calls w) ->
    forall j, compilations j (calls (for_each_message inbox w).2) <= 1.
Proof.
  induction inbox as [|m inbox IH]; intros w Hinv j; simpl.
  - exact (compiled_once_bound _ _ Hinv j).
  - unfold bind.
    destruct (try_types_compiled_once m (length (csv_file_types w)) 0 w Hinv
                eq_refl) as [Hbound Hkeep].
    change (try_types (length (csv_file_types w)) 0 m w)
      with (process_message m w) in *.
    destruct (process_message m w) as [[b|e] w'] eqn:Hrun; simpl in *.
    + apply IH. apply Hkeep. eauto.
    + apply Hbound.
Qed.

(** C7.  In a run of [process_emails] the pattern of each CSV type is
    compiled at most once.  The check of a type whose sender is the required
    one and that has no compiled pattern stored compiles the pattern text
    and stores the result in the type; the check of a type that has a
    compiled pattern stored compiles nothing, changes nothing, and matches
    the subject with the stored pattern. *)
Theorem pattern_compiled_at_most_once :
  (forall (settings : option (list csv_type)) (db : D) (fs : F)
          (inbox : list message) (i : nat),
      compilations i (calls (process_emails settings db fs inbox).2) <= 1)
  /\ (forall (i : nat) (m : message) (w : world) (t : csv_type)
             (c : check_settings) (l : list string) (r : Re.regex),
         csv_file_types w !! i = Some t ->
         check t = Some c ->
         check_from c = Some (msg_from m) ->
         subject_regex_compiled c = None ->
         subject_regex c = Some l ->
         Re.re_compile (join l) = Ok r ->
         calls (check_type i m w).2 = calls w ++ [CallCompile i (join l)]
         /\ csv_file_types (check_type i m w).2 !! i
            = Some (CsvType (Some (MkCheck (check_from c) (subject_regex c) (Some r)))
                      (save_table t) (load_csv t) (save_csv t)))
  /\ (forall (i : nat) (m : message) (w : world) (t : csv_type)
             (c : check_settings) (r : Re.regex) (subject : string),
         csv_file_types w !! i = Some t ->
         check t = Some c ->
         subject_regex_compiled c = Some r ->
         check_from c = Some (msg_from m) ->
         msg_subject m = Some subject ->
         check_type i m w
         = (match Re.re_match r subject with
            | Some match_data => Ok (Matched (Re.groupdict r match_data))
            | None => Ok Continue
            end, w)).
Proof.
  split; [| split].
  - intros settings db fs inbox i. unfold process_emails.
    destruct settings as [types|]; simpl; [|lia].
    unfold bind.
    pose proof (for_each_message_compiled_once inbox
                  (World types db fs []) (fun j => or_introl eq_refl) i) as Hb.
    destruct (for_each_message inbox (World types db fs [])) as [[[]|e] w'];
      exact Hb.
  - intros i m w t c l r Hi Hc Hfrom Hnone Hl Hcompile.
    rewrite (check_type_spec i m w t Hi). simpl.
    assert (Hp : pattern_to_compile m t = Some (join l)).
    { unfold pattern_to_compile. rewrite Hc.
      destruct c as [f ls comp]; simpl in *. subst.
      rewrite String.eqb_refl. reflexivity. }
    unfold compile_calls, after_check. rewrite Hp, Hcompile.
    split; [reflexivity|].
    rewrite list_lookup_insert_eq by (eapply lookup_lt_Some; eauto).
    unfold with_compiled. rewrite Hc. reflexivity.
  - intros i m w t c r subject Hi Hc Hr Hfrom Hsubject.
    rewrite (check_type_spec i m w t Hi).
    assert (Hp : pattern_to_compile m t = None).
    { unfold pattern_to_compile. rewrite Hc.
      destruct c as [[f|] [ls|] comp]; simpl in *; subst; reflexivity. }
    unfold compile_calls, after_check, verdict_of, pattern_of.
    rewrite Hp, Hc, Hfrom, Hr, Hsubject, String.eqb_refl. simpl.
    rewrite app_nil_r, (list_insert_id _ _ _ Hi).
    destruct w; destruct (Re.re_match r subject); reflexivity.
Qed.

(** *** Matching the subject *)

(** C9.  A CSV type whose sender is the required one accepts a message
    exactly when its pattern matches some text that the subject starts
    with; what follows that text in the subject is free.  So a subject that
    the pattern matches nothing at the start of is rejected, whatever the
    pattern may match further on. *)
Theorem subject_match_is_anchored_prefix (i : nat) (m : message) (w : world)
  (t : csv_type) (c : check_settings) (r : Re.regex) (subject : string) :
  csv_file_types w !! i = Some t ->
  check t = Some c ->
  check_from c = Some (msg_from m) ->
  pattern_of c = Ok r ->
  msg_subject m = Some subject ->
  ((exists d, (check_type i m w).1 = Ok (Matched d)) <->
   (exists matched tail,
       chars subject = matched ++ tail /\ matches r 0 matched tail))
  /\ ((forall matched tail,
          chars subject = matched ++ tail -> ~ matches r 0 matched tail) ->
      (check_type i m w).1 = Ok Continue).
Proof.
  intros Hi Hc Hfrom Hr Hsubject.
  assert (Hrun : (check_type i m w).1
                 = match Re.re_match r subject with
                   | Some match_data => Ok (Matched (Re.groupdict r match_data))
                   | None => Ok Continue
                   end).
  { rewrite (check_type_spec i m w t Hi). simpl. unfold verdict_of.
    rewrite Hc, Hfrom, String.eqb_refl, Hr, Hsubject. simpl.
    destruct (Re.re_match r subject); reflexivity. }
  rewrite Hrun. rewrite <- re_match_prefix. split.
  - destruct (Re.re_match r subject) as [md|]; split.
    + intros _. eauto.
    + intros _. eauto.
    + intros [d Hd]. discriminate.
    + intros [x Hx]. discriminate.
  - intros Hnone.
    destruct (Re.re_match r subject) as [md|] eqn:Hmatch; [|reflexivity].
    exfalso.
    assert (Hsome : is_Some (Re.re_match r subject)) by (rewrite Hmatch; eauto).
    apply re_match_prefix in Hsome as (matched & tail & Hsplit & Hm).
    exact (Hnone matched tail Hsplit Hm).
Qed.

End Properties.

Lemma memory_db_lawful : @lawful_storage Memory.db Memory.db_storage.
Proof.
  split.
  - intros d d' name cols.
    cbv [table_exists create_table Memory.db_storage].
    destruct (d !! name) eqn:E; [discriminate|]. intros [= <-].
    apply bool_decide_eq_true. rewrite lookup_insert_eq. eauto.
  - intros d d' name fields name'.
    cbv [table_exists insert_row Memory.db_storage].
    destruct (d !! name) as [[cols rows]|] eqn:E; [|discriminate].
    intros [= <-] Hex. apply bool_decide_eq_true.
    apply bool_decide_eq_true in Hex.
    destruct (decide (name = name')) as [<-|Hne].
    + rewrite lookup_insert_eq. eauto.
    + rewrite lookup_insert_ne by exact Hne. exact Hex.
Qed.

(** ** More on the row loop *)

Lemma process_column_store_name (csv_row : gmap string string)
  (column : string * string * column_details) (field_name : string) (v : value) :
  process_column csv_row column = Store field_name v -> column.1.2 = field_name.
Proof.
  destruct column as [[csv_name fn] details].
  unfold process_column; cbn [fst snd].
  destruct (csv_row !! csv_name) as [v'|]; [|discriminate].
  destruct (col_type details) as [ty|]; [|discriminate].
  destruct (String.eqb "datetime" ty).
  - destruct (col_csv_format details) as [fmt|]; [|discriminate].
    destruct (Strptime.strptime v' (strip fmt)); congruence.
  - congruence.
Qed.

Lemma stored_in_name (csv_row : gmap string string) (f : string)
  (column : string * string * column_details) (v : value) :
  stored_in csv_row f column = Some v ->
  column.1.2 = f /\ process_column csv_row column = Store f v.
Proof.
  unfold stored_in.
  destruct (process_column csv_row column) as [|field_name v'|e] eqn:Hcol;
    try discriminate.
  destruct (String.eqb_spec field_name f) as [->|]; [|discriminate].
  intros [= ->]. split; [|reflexivity].
  apply (process_column_store_name _ _ _ _ Hcol).
Qed.

Lemma row_fields_lookup (csv_row : gmap string string)
  (columns : list (string * string * column_details)) :
  forall (init fields : gmap string value),
    row_fields csv_row columns init = Ok fields ->
    forall f : string,
      fields !! f =
        match last_stored csv_row columns f with
        | Some v => Some v
        | None => init !! f
        end.
Proof.
  induction columns as [|column columns IH]; intros init fields Hrun f;
    simpl in *.
  - injection Hrun as <-. reflexivity.
  - unfold stored_in.
    destruct (process_column csv_row column) as [|field_name v|e] eqn:Hcol;
      [ | | discriminate ].
    + rewrite (IH _ _ Hrun f).
      destruct (last_stored csv_row columns f); reflexivity.
    + rewrite (IH _ _ Hrun f).
      destruct (last_stored csv_row columns f) as [v'|]; [reflexivity|].
      destruct (String.eqb_spec field_name f) as [->|Hne].
      * apply lookup_insert_eq.
      * apply lookup_insert_ne. exact Hne.
Qed.

Lemma row_fields_raise (csv_row : gmap string string)
  (columns : list (string * string * column_details)) :
  forall (init : gmap string value) (e : exn),
    row_fields csv_row columns init = Raise e <->
    exists before column after,
      columns = before ++ column :: after
      /\ Forall (coerces csv_row) before
      /\ process_column csv_row column = Throw e.
Proof.
  induction columns as [|column columns IH]; intros init e; simpl.
  - split; [discriminate|].
    intros (before & c & after & Heq & _). destruct before; discriminate.
  - assert (Hcons : forall init',
               coerces csv_row column ->
               row_fields csv_row columns init' = Raise e <->
               exists before c after,
                 column :: columns = before ++ c :: after
                 /\ Forall (coerces csv_row) before
                 /\ process_column csv_row c = Throw e).
    { intros init' Hok. rewrite IH. split.
      - intros (before & c & after & -> & Hb & Hc).
        exists (column :: before), c, after.
        split; [reflexivity|]. split; [constructor; assumption | exact Hc].
      - intros (before & c & after & Heq & Hb & Hc).
        destruct before as [|c0 before]; simpl in Heq.
        + injection Heq as <- <-. exfalso. exact (Hok e Hc).
        + injection Heq as <- ->. inversion Hb; subst.
          exists before, c, after. auto. }
    destruct (process_column csv_row column) as [|field_name v|e0] eqn:Hcol.
    + apply Hcons. intros e'. rewrite Hcol. discriminate.
    + apply Hcons. intros e'. rewrite Hcol. discriminate.
    + split.
      * intros [= ->]. exists [], column, columns.
        split; [reflexivity|]. split; [constructor | exact Hcol].
      * intros (before & c & after & Heq & Hb & Hc).
        destruct before as [|c0 before]; simpl in Heq.
        -- injection Heq as <- <-. congruence.
        -- injection Heq as <- ->. inversion Hb as [|? ? Hc0 _]; subst.
           exfalso. exact (Hc0 e0 Hcol).
Qed.

Lemma process_column_throw (csv_row : gmap string string)
  (column : string * string * column_details) (e : exn) :
  process_column csv_row column = Throw e ->
  exists text fmt,
    csv_row !! column.1.1 = Some text
    /\ col_type column.2 = Some "datetime"
    /\ col_csv_format column.2 = Some fmt
    /\ Strptime.strptime text (strip fmt) = Raise e.
Proof.
  destruct column as [[csv_name fn] details].
  unfold process_column; cbn [fst snd].
  destruct (csv_row !! csv_name) as [v'|]; [|discriminate].
  destruct (col_type details) as [ty|]; [|discriminate].
  destruct (String.eqb_spec "datetime" ty) as [<-|].
  - destruct (col_csv_format details) as [fmt|]; [|discriminate].
    destruct (Strptime.strptime v' (strip fmt)) as [d|e'] eqn:Hp;
      [discriminate|].
    intros [= ->]. eauto 10.
  - discriminate.
Qed.

Lemma last_stored_elem (csv_row : gmap string string)
  (columns : list (string * string * column_details)) (f : string) (v : value) :
  last_stored csv_row columns f = Some v ->
  exists column, column ∈ columns /\ stored_in csv_row f column = Some v.
Proof.
  induction columns as [|column columns IH]; simpl; [discriminate|].
  destruct (last_stored csv_row columns f) as [v'|].
  - intros [= ->]. destruct IH as (c & Hc & Hs); [reflexivity|].
    exists c. split; [right; exact Hc | exact Hs].
  - intros Hs. exists column. split; [left | exact Hs].
Qed.

Lemma last_stored_unique (csv_row : gmap string string)
  (columns : list (string * string * column_details)) (f : string) (v : value)
  (column : string * string * column_details) :
  NoDup (map (fun c => c.1.2) columns) ->
  column ∈ columns ->
  stored_in csv_row f column = Some v ->
  last_stored csv_row columns f = Some v.
Proof.
  intros Hnd Hin Hs.
  induction columns as [|c columns IH]; [inversion Hin|].
  simpl in *. apply NoDup_cons in Hnd as [Hnotin Hnd].
  apply elem_of_cons in Hin as [<-|Hin].
  - destruct (last_stored csv_row columns f) as [v'|] eqn:Hlast; [|exact Hs].
    exfalso. apply last_stored_elem in Hlast as (c' & Hc' & Hs').
    apply stored_in_name in Hs as [Hf _].
    apply stored_in_name in Hs' as [Hf' _].
    apply Hnotin. rewrite Hf, <- Hf'.
    apply (list_elem_of_fmap_2 (fun c => c.1.2)). exact Hc'.
  - rewrite (IH Hnd Hin). reflexivity.
Qed.

Lemma last_stored_permutation (csv_row : gmap string string)
  (columns columns' : list (string * string * column_details)) (f : string) :
  NoDup (map (fun c => c.1.2) columns) ->
  columns ≡ₚ columns' ->
  last_stored csv_row columns' f = last_stored csv_row columns f.
Proof.
  intros Hnd Hperm.
  assert (Hnd' : NoDup (map (fun c => c.1.2) columns'))
    by (rewrite <- Hperm; exact Hnd).
  destruct (last_stored csv_row columns f) as [v|] eqn:Hlast.
  - apply last_stored_elem in Hlast as (c & Hc & Hs).
    apply (last_stored_unique _ _ _ _ c Hnd'); [|exact Hs].
    rewrite <- Hperm. exact Hc.
  - destruct (last_stored csv_row columns' f) as [v|] eqn:Hlast'; [|reflexivity].
    apply last_stored_elem in Hlast' as (c & Hc & Hs).
    rewrite <- Hlast. symmetry.
    apply (last_stored_unique _ _ _ _ c Hnd); [|exact Hs].
    rewrite Hperm. exact Hc.
Qed.

Lemma strptime_valid (data format : string) (d : Strptime.datetime) :
  Strptime.strptime data format = Ok d -> Strptime.valid d = true.
Proof.
  unfold Strptime.strptime.
  destruct (Strptime.time_pattern false (chars format)) as [p|]; [|discriminate].
  destruct (Re.re_compile p) as [r|]; [|discriminate].
  destruct (Re.re_match r data) as [m|]; [|discriminate].
  destruct (Re.rest m); [|discriminate].
  match goal with |- context [Strptime.valid ?x] =>
    destruct (Strptime.valid x) eqn:Hv end; [|discriminate].
  intros [= <-]. exact Hv.
Qed.

(** X5.  When two columns of the settings go to the same database field, the
    one that comes later in the settings wins: the field of the coerced row
    holds what the last column that stores something under that name
    stores, and a field no column stores under is absent. *)
Theorem later_column_overwrites_earlier (csv_row : gmap string string)
  (columns : list (string * string * column_details))
  (fields : gmap string value) :
  row_fields csv_row columns ∅ = Ok fields ->
  forall f : string, fields !! f = last_stored csv_row columns f.
Proof.
  intros Hrun f. rewrite (row_fields_lookup _ _ _ _ Hrun f).
  destruct (last_stored csv_row columns f); [reflexivity | apply lookup_empty].
Qed.

(** X6.  The order of the columns in the settings matters only through
    fields that two columns share.  Listed in another order, columns with
    distinct field names give the same coerced row; and whether the
    coercion raises does not depend on the order at all. *)
Theorem column_order_is_immaterial (csv_row : gmap string string)
  (columns columns' : list (string * string * column_details)) :
  columns ≡ₚ columns' ->
  (forall fields,
      NoDup (map (fun c => c.1.2) columns) ->
      row_fields csv_row columns ∅ = Ok fields ->
      row_fields csv_row columns' ∅ = Ok fields)
  /\ ((exists e, row_fields csv_row columns ∅ = Raise e) ->
      exists e', row_fields csv_row columns' ∅ = Raise e').
Proof.
  intros Hperm.
  assert (Hok : (exists fields, row_fields csv_row columns ∅ = Ok fields)
                <-> (exists fields, row_fields csv_row columns' ∅ = Ok fields)).
  { rewrite !row_fields_coerces. rewrite Hperm. reflexivity. }
  split.
  - intros fields Hnd Hrun.
    destruct (proj1 Hok (ex_intro _ fields Hrun)) as [fields' Hrun'].
    rewrite Hrun'. f_equal. apply map_eq. intros f.
    rewrite (row_fields_lookup _ _ _ _ Hrun f),
      (row_fields_lookup _ _ _ _ Hrun' f).
    rewrite (last_stored_permutation csv_row columns columns' f Hnd Hperm).
    reflexivity.
  - intros [e He].
    destruct (row_fields csv_row columns' ∅) as [fields'|e'] eqn:Hrun'; [|eauto].
    destruct (proj2 Hok) as [fields Hrun]; [eauto | congruence].
Qed.

(** X7.  What a column puts in its field.  Of the types a column can be
    given, [datetime] is the only one that is looked at: text of a column of
    any other type is stored as it stands in the record, whatever the type
    says; text of a [datetime] column is stored as the date-time that
    [strptime] reads from it with the stripped format, which is a date of
    the calendar. *)
Theorem text_is_stored_unconverted (csv_row : gmap string string)
  (columns : list (string * string * column_details))
  (fields : gmap string value)
  (csv_name field_name : string) (details : column_details)
  (text ty : string) :
  row_fields csv_row columns ∅ = Ok fields ->
  NoDup (map (fun c => c.1.2) columns) ->
  (csv_name, field_name, details) ∈ columns ->
  csv_row !! csv_name = Some text ->
  col_type details = Some ty ->
  (ty <> "datetime" -> fields !! field_name = Some (VStr text))
  /\ (ty = "datetime" ->
      forall fmt, col_csv_format details = Some fmt ->
        exists d,
          Strptime.strptime text (strip fmt) = Ok d
          /\ Strptime.valid d = true
          /\ fields !! field_name = Some (VDatetime d)).
Proof.
  intros Hrun Hnd Hin Hv Hty.
  assert (Hfield : forall v,
             process_column csv_row (csv_name, field_name, details)
             = Store field_name v ->
             fields !! field_name = Some v).
  { intros v Hcol. rewrite (row_fields_lookup _ _ _ _ Hrun field_name).
    rewrite (last_stored_unique csv_row columns field_name v _ Hnd Hin);
      [reflexivity|].
    unfold stored_in. rewrite Hcol, String.eqb_refl. reflexivity. }
  split.
  - intros Hne. apply Hfield. unfold process_column. rewrite Hv, Hty.
    destruct (String.eqb_spec "datetime" ty) as [Heq|_]; [congruence|reflexivity].
  - intros -> fmt Hfmt.
    assert (Hok : coerces csv_row (csv_name, field_name, details)).
    { assert (Hall : Forall (coerces csv_row) columns)
        by (apply (row_fields_coerces csv_row columns ∅); eauto).
      rewrite Forall_forall in Hall. apply Hall. exact Hin. }
    destruct (Strptime.strptime text (strip fmt)) as [d|e] eqn:Hp.
    + exists d. split; [reflexivity|].
      split; [exact (strptime_valid _ _ _ Hp)|].
      apply Hfield. unfold process_column. rewrite Hv, Hty, Hfmt.
      change (String.eqb "datetime" "datetime") with true. cbv iota.
      rewrite Hp. reflexivity.
    + exfalso. apply (Hok e). unfold process_column. rewrite Hv, Hty, Hfmt.
      change (String.eqb "datetime" "datetime") with true. cbv iota.
      rewrite Hp. reflexivity.
Qed.

(** X8.  The coercion of a record raises exactly when one of the columns
    does, and the exception is that of the first such column in the order of
    the settings; it succeeds exactly when no column raises.  A column raises
    only in one way: it is a [datetime] column with a format, the record has
    text for it, and [strptime] raises for that text and the stripped
    format. *)
Theorem coercion_fails_at_first_bad_date (csv_row : gmap string string)
  (columns : list (string * string * column_details))
  (init : gmap string value) :
  (forall e,
      row_fields csv_row columns init = Raise e <->
      exists before column after,
        columns = before ++ column :: after
        /\ Forall (coerces csv_row) before
        /\ process_column csv_row column = Throw e)
  /\ ((exists fields, row_fields csv_row columns init = Ok fields)
      <-> Forall (coerces csv_row) columns)
  /\ (forall column e,
         process_column csv_row column = Throw e ->
         exists text fmt,
           csv_row !! column.1.1 = Some text
           /\ col_type column.2 = Some "datetime"
           /\ col_csv_format column.2 = Some fmt
           /\ Strptime.strptime text (strip fmt) = Raise e).
Proof.
  split; [| split].
  - intros e. apply row_fields_raise.
  - apply row_fields_coerces.
  - intros column e. apply process_column_throw.
Qed.

(** ** More on the classifier *)

Lemma verdict_after_check (m m' : message) (t : csv_type) :
  verdict_of m' (after_check m t) = verdict_of m' t.
Proof.
  unfold after_check, pattern_to_compile.
  destruct (check t) as [[[f|] [l|] [r|]]|] eqn:Hc; try reflexivity.
  destruct (String.eqb (msg_from m) f); try reflexivity.
  destruct (Re.re_compile (join l)) as [r|e] eqn:Hcompile; try reflexivity.
  unfold verdict_of, with_compiled. rewrite Hc. simpl.
  unfold pattern_of. simpl. rewrite Hcompile. reflexivity.
Qed.

Lemma settings_kept_refl (t : csv_type) : settings_kept t t.
Proof. unfold settings_kept. repeat split; auto. Qed.

Lemma settings_kept_trans (t1 t2 t3 : csv_type) :
  settings_kept t1 t2 -> settings_kept t2 t3 -> settings_kept t1 t3.
Proof.
  intros (Ha & Hb & Hc & Hd & He & Hf) (Ha' & Hb' & Hc' & Hd' & He' & Hf').
  unfold settings_kept. repeat split; try congruence.
  intros c r Hcheck Hr. eapply Hf'; eauto.
Qed.

Lemma settings_kept_after_check (m : message) (t : csv_type) :
  settings_kept t (after_check m t).
Proof.
  unfold after_check, pattern_to_compile.
  destruct (check t) as [[[f|] [l|] [r|]]|] eqn:Hc;
    try apply settings_kept_refl.
  destruct (String.eqb (msg_from m) f); try apply settings_kept_refl.
  destruct (Re.re_compile (join l)) as [r|e]; try apply settings_kept_refl.
  unfold settings_kept, with_compiled. rewrite Hc. simpl.
  repeat split. intros c r0 [= <-]. discriminate.
Qed.

Lemma same_verdicts_refl (ts : list csv_type) : same_verdicts ts ts.
Proof. unfold same_verdicts. induction ts; constructor; auto. Qed.

Lemma same_verdicts_trans (ts1 ts2 ts3 : list csv_type) :
  same_verdicts ts1 ts2 -> same_verdicts ts2 ts3 -> same_verdicts ts1 ts3.
Proof.
  unfold same_verdicts. intros H12. revert ts3.
  induction H12 as [|t1 t2 ts1 ts2 Ht _ IH]; intros ts3 H23;
    inversion H23; subst; constructor; [|auto].
  intros m. congruence.
Qed.

Lemma settings_kept_all_refl (ts : list csv_type) : Forall2 settings_kept ts ts.
Proof. induction ts; constructor; auto using settings_kept_refl. Qed.

Lemma settings_kept_all_trans (ts1 ts2 ts3 : list csv_type) :
  Forall2 settings_kept ts1 ts2 -> Forall2 settings_kept ts2 ts3 ->
  Forall2 settings_kept ts1 ts3.
Proof.
  intros H12. revert ts3.
  induction H12 as [|t1 t2 ts1 ts2 Ht _ IH]; intros ts3 H23;
    inversion H23; subst; constructor; [|auto].
  eapply settings_kept_trans; eauto.
Qed.

Lemma classify_keeps (m : message) (ts : list csv_type) (i : nat) :
  same_verdicts ts (classify m i ts).1.2
  /\ Forall2 settings_kept ts (classify m i ts).1.2.
Proof.
  destruct (classify m i ts) as [[r ts'] evs] eqn:Hc. simpl.
  apply classify_types in Hc. unfold same_verdicts.
  induction Hc as [|t t' ts ts' Ht _ [IH1 IH2]]; [split; constructor|].
  split; constructor; auto.
  - intros m'. destruct Ht as [->| ->]; [reflexivity|].
    apply verdict_after_check.
  - destruct Ht as [->| ->];
      [apply settings_kept_refl | apply settings_kept_after_check].
Qed.

Lemma classify_same_verdicts (m : message) (ts ts' : list csv_type) :
  same_verdicts ts ts' ->
  forall i, (classify m i ts').1.1 = (classify m i ts).1.1.
Proof.
  unfold same_verdicts.
  induction 1 as [|t t' ts ts' Ht _ IH]; intros i; simpl; [reflexivity|].
  rewrite Ht. destruct (verdict_of m t) as [|d|e]; try reflexivity.
  specialize (IH (S i)).
  destruct (classify m (S i) ts') as [[r1 ts1] evs1],
    (classify m (S i) ts) as [[r2 ts2] evs2].
  simpl in *. exact IH.
Qed.

Lemma same_verdicts_rejected (m : message) (ts ts' : list csv_type) :
  same_verdicts ts ts' ->
  Forall (fun t => verdict_of m t = Rejected) ts ->
  Forall (fun t => verdict_of m t = Rejected) ts'.
Proof.
  unfold same_verdicts.
  induction 1 as [|t t' ts ts' Ht _ IH]; intros Hall; [constructor|].
  inversion Hall; subst. constructor; [congruence | auto].
Qed.

Lemma classify_first_failed (m : message) (pre : list csv_type) :
  forall i t post e,
    Forall (fun t' => verdict_of m t' = Rejected) pre ->
    verdict_of m t = Failed e ->
    classify m i (pre ++ t :: post)
    = (Raise e,
       map (after_check m) pre ++ after_check m t :: post,
       checks_calls m i (pre ++ [t])).
Proof.
  induction pre as [|t' pre IH]; intros i t post e Hpre Ht; simpl.
  - rewrite Ht, app_nil_r. reflexivity.
  - inversion Hpre as [|? ? Ht' Hpre']; subst.
    rewrite Ht', (IH (S i) t post e Hpre' Ht). reflexivity.
Qed.

Lemma classify_none (m : message) (ts : list csv_type) :
  forall i, (classify m i ts).1.1 = Ok None ->
            Forall (fun t => verdict_of m t = Rejected) ts.
Proof.
  induction ts as [|t ts IH]; intros i Hc; simpl in Hc; [constructor|].
  destruct (verdict_of m t) as [|d|e] eqn:Hv; try discriminate.
  destruct (classify m (S i) ts) as [[r ts'] evs] eqn:Hrec. simpl in Hc.
  constructor; [exact Hv|]. apply (IH (S i)). rewrite Hrec. exact Hc.
Qed.

Lemma other_sender_rejected (m : message) (t : csv_type) :
  other_sender m t ->
  verdict_of m t = Rejected /\ pattern_to_compile m t = None.
Proof.
  intros (c & f & Hc & Hf & Hne).
  unfold verdict_of, pattern_to_compile. rewrite Hc.
  destruct c as [cf l r]. simpl in Hf. subst cf. simpl.
  destruct (String.eqb_spec (msg_from m) f) as [Heq|_]; [congruence|].
  split; [reflexivity|]. destruct l, r; reflexivity.
Qed.

Lemma classify_other_senders (m : message) (ts : list csv_type) :
  Forall (other_sender m) ts ->
  forall i, classify m i ts = (Ok None, ts, []).
Proof.
  induction 1 as [|t ts Ht _ IH]; intros i; simpl; [reflexivity|].
  apply other_sender_rejected in Ht as [Hv Hp].
  unfold after_check, compile_calls. rewrite Hv, Hp, (IH (S i)). reflexivity.
Qed.

(** ** More on the stateful code *)

Section Further.

Context {D F : Type} `{Storage D} `{Files F} `{Environment}.

Abbreviation world := (world D F).
Abbreviation M := (@M D F).

Lemma process_message_types (m : message) (w : world) :
  csv_file_types (process_message m w).2
  = (classify m 0 (csv_file_types w)).1.2.
Proof.
  rewrite process_message_spec.
  destruct (classify m 0 (csv_file_types w)) as [[[[[i d]|]|e] ts'] evs];
    simpl; try reflexivity.
  destruct (emits_load_message (fun _ => True) i m d (fun _ _ => I)
              (World ts' (database w) (files w) (calls w ++ evs)))
    as [Hty _].
  exact Hty.
Qed.

Lemma process_message_keeps (m : message) (w : world) :
  same_verdicts (csv_file_types w) (csv_file_types (process_message m w).2)
  /\ Forall2 settings_kept (csv_file_types w)
       (csv_file_types (process_message m w).2).
Proof. rewrite process_message_types. apply classify_keeps. Qed.

Lemma for_each_message_keeps (inbox : list message) :
  forall w : world,
    same_verdicts (csv_file_types w)
      (csv_file_types (for_each_message inbox w).2)
    /\ Forall2 settings_kept (csv_file_types w)
         (csv_file_types (for_each_message inbox w).2).
Proof.
  induction inbox as [|m inbox IH]; intros w; simpl.
  - split; [apply same_verdicts_refl | apply settings_kept_all_refl].
  - unfold bind.
    destruct (process_message_keeps m w) as [Hv Hs].
    destruct (process_message m w) as [[b|e] w1]; simpl in *; [|auto].
    destruct (IH w1) as [Hv' Hs'].
    split; [eapply same_verdicts_trans | eapply settings_kept_all_trans]; eauto.
Qed.

Lemma check_type_out_of_range (i : nat) (m : message) (w : world) :
  csv_file_types w !! i = None -> check_type i m w = (Raise IndexError, w).
Proof.
  intros Hi. unfold check_type, bind, nth_type. rewrite Hi. reflexivity.
Qed.

Lemma bind_not_false {A : Type} (c : M A) (k : A -> M bool) (w : world) :
  (forall a w', (k a w').1 <> Ok false) -> (bind c k w).1 <> Ok false.
Proof.
  intros Hk. unfold bind.
  destruct (c w) as [[a|e] w']; [apply Hk | discriminate].
Qed.

Lemma load_message_not_false (i : nat) (m : message)
  (d : gmap string (option string)) (w : world) :
  (load_message i m d w).1 <> Ok false.
Proof.
  unfold load_message.
  repeat (apply bind_not_false; intros ? ?).
  discriminate.
Qed.

Lemma run_parser_raise (t : csv_type) (name : string)
  (d : gmap string (option string)) (m : message) (e : exn) (w : world) :
  parser_init t name d = Raise e -> run_parser t name d m w = (Raise e, w).
Proof. intros Hinit. unfold run_parser, bind, lift. rewrite Hinit. reflexivity. Qed.

Lemma for_each_row_files (self : parser) (rows : list (gmap string string)) :
  forall w : world, files (for_each_row self rows w).2 = files w.
Proof.
  induction rows as [|row rows IH]; intros w; simpl; [reflexivity|].
  unfold bind.
  destruct (row_fields row (csv_columns self) ∅) as [fields|e] eqn:Hrow.
  - rewrite (process_csv_row_ok _ _ _ _ Hrow).
    destruct (insert_row (database w) (table_name self) fields);
      [rewrite IH|]; reflexivity.
  - rewrite (process_csv_row_raise _ _ _ _ Hrow). reflexivity.
Qed.

Lemma run_parser_with_path (t : csv_type) (name : string)
  (d : gmap string (option string)) (m : message) (self : parser)
  (path : string) (w : world) :
  parser_init t name d = Ok self ->
  save_file_path self = Some path ->
  run_parser t name d m w =
    let cs := calls w ++ [CallWrite path (msg_content m)] in
    match write_file (files w) path (msg_content m) with
    | Raise e =>
        (Raise e, World (csv_file_types w) (database w) (files w) cs)
    | Ok f' =>
        bind (for_each_row self (csv_records (msg_content m)))
          (fun _ => ret true)
          (World (csv_file_types w) (database w) f' cs)
    end.
Proof.
  intros Hinit Hpath.
  unfold run_parser. unfold bind at 1. unfold lift. rewrite Hinit.
  unfold parser_process_message, process_csv_content,
    base_process_csv_content.
  rewrite Hpath.
  unfold write, record_call, set_files, bind. simpl.
  destruct (write_file (files w) path (msg_content m)); reflexivity.
Qed.

Lemma run_parser_copy (t : csv_type) (name : string)
  (d : gmap string (option string)) (m : message) (self : parser)
  (path : string) (w : world) :
  parser_init t name d = Ok self ->
  save_file_path self = Some path ->
  (exists rows,
      calls (run_parser t name d m w).2
      = calls w ++ CallWrite path (msg_content m) :: rows
      /\ Forall (fun e => is_insert_row e = true) rows)
  /\ ((run_parser t name d m w).1 = Ok true ->
      write_file (files w) path (msg_content m)
      = Ok (files (run_parser t name d m w).2)).
Proof.
  intros Hinit Hpath. rewrite (run_parser_with_path _ _ _ _ _ _ _ Hinit Hpath).
  cbv zeta.
  destruct (write_file (files w) path (msg_content m)) as [f'|e].
  - set (w1 := World (csv_file_types w) (database w) f'
                 (calls w ++ [CallWrite path (msg_content m)]) : world).
    pose proof (for_each_row_files self (csv_records (msg_content m)) w1) as Hf.
    destruct (emits_for_each_row (fun e => is_insert_row e = true) self
                (fun _ _ => eq_refl) (csv_records (msg_content m)) w1)
      as (_ & rows & Hcalls & Hrows).
    unfold bind.
    destruct (for_each_row self (csv_records (msg_content m)) w1)
      as [[[]|e] w2]; simpl in *.
    + split; [|intros _; rewrite Hf; reflexivity].
      exists rows. rewrite Hcalls, <- app_assoc. auto.
    + split; [|discriminate].
      exists rows. rewrite Hcalls, <- app_assoc. auto.
  - simpl. split; [|discriminate].
    exists []. split; [reflexivity | constructor].
Qed.

(** X13.  The checks of a CSV type on a message give the same outcome
    whatever messages were processed before: storing a compiled pattern
    changes no verdict, so the type a message is given to depends on the
    settings and on the message alone, not on its place in the inbox. *)
Theorem earlier_messages_do_not_change_the_checks (before : list message)
  (m : message) (w : world) :
  let w' : world := (for_each_message before w).2 in
  (forall i, (check_type i m w').1 = (check_type i m w).1)
  /\ (classify m 0 (csv_file_types w')).1.1
     = (classify m 0 (csv_file_types w)).1.1.
Proof.
  intros w'. destruct (for_each_message_keeps before w) as [Hv _].
  fold w' in Hv. split.
  - intros i. destruct (csv_file_types w !! i) as [t|] eqn:Hi.
    + destruct (Forall2_lookup_l _ _ _ _ _ Hv Hi) as (t' & Hi' & Ht).
      rewrite (check_type_spec i m w t Hi), (check_type_spec i m w' t' Hi').
      simpl. rewrite Ht. reflexivity.
    + assert (Hi' : csv_file_types w' !! i = None).
      { apply lookup_ge_None. apply lookup_ge_None in Hi.
        rewrite <- (Forall2_length _ _ _ Hv). exact Hi. }
      rewrite !check_type_out_of_range by assumption. reflexivity.
  - apply classify_same_verdicts. exact Hv.
Qed.

(** X14.  A run changes nothing in the settings but the compiled patterns:
    after any messages, each CSV type has the [save_table], [load_csv] and
    [save_csv] settings, the sender and the pattern text it had, and a
    compiled pattern that was stored is still the one stored. *)
Theorem settings_are_never_rewritten (inbox : list message) :
  (forall w : world,
      Forall2 settings_kept (csv_file_types w)
        (csv_file_types (for_each_message inbox w).2))
  /\ (forall (types : list csv_type) (db : D) (fs : F),
         Forall2 settings_kept types
           (csv_file_types (process_emails (Some types) db fs inbox).2)).
Proof.
  split.
  - intros w. apply for_each_message_keeps.
  - intros types db fs. unfold process_emails, bind.
    destruct (for_each_message_keeps inbox (World types db fs [])) as [_ Hs].
    destruct (for_each_message inbox (World types db fs [])) as [[[]|e] w'];
      exact Hs.
Qed.

(** X11.  A message from a sender that no CSV type asks for changes nothing
    at all: [process_message] returns [False] in the world it was called
    in, no pattern is compiled for it (not even one that would not compile),
    and the loop of [process_emails] goes on as if the message were not in
    the inbox. *)
Theorem stranger_changes_nothing (m : message) (w : world) :
  Forall (other_sender m) (csv_file_types w) ->
  process_message m w = (Ok false, w)
  /\ forall inbox,
      for_each_message (m :: inbox) w = for_each_message inbox w.
Proof.
  intros Hall.
  assert (Hrun : process_message m w = (Ok false, w)).
  { rewrite process_message_spec, (classify_other_senders m _ Hall 0).
    destruct w as [ts db fs cs]; simpl. rewrite app_nil_r. reflexivity. }
  split; [exact Hrun|].
  intros inbox. simpl. unfold bind. rewrite Hrun. reflexivity.
Qed.

(** X10.  When the types before [t] all reject the message and the check of
    [t] fails (a key of [check] is missing, the pattern does not compile, or
    the message has no subject), the exception leaves [process_message]:
    the types after [t] are not tried, though one of them may accept the
    message, and nothing is asked of the database client. *)
Theorem failing_check_shadows_later_types (m : message)
  (pre : list csv_type) (t : csv_type) (post : list csv_type) (e : exn)
  (w : world) :
  csv_file_types w = pre ++ t :: post ->
  Forall (fun t' => verdict_of m t' = Rejected) pre ->
  verdict_of m t = Failed e ->
  process_message m w
  = (Raise e,
     World (map (after_check m) pre ++ after_check m t :: post)
       (database w) (files w) (calls w ++ checks_calls m 0 (pre ++ [t])))
  /\ Forall (fun c => is_compile c = true) (checks_calls m 0 (pre ++ [t])).
Proof.
  intros Hts Hpre Ht. split.
  - rewrite process_message_spec, Hts.
    rewrite (classify_first_failed m pre 0 t post e Hpre Ht). reflexivity.
  - apply Forall_forall. intros c Hc.
    apply checks_calls_index in Hc as (j & p & -> & _). reflexivity.
Qed.

(** X9.  How the checks of one CSV type end when something is missing.  The
    keys [check] and [from] are read first: without them [KeyError] is
    raised, whoever sent the message.  The sender is compared next: for
    another sender the type is passed over, whatever its pattern is like.
    Only for the required sender is the pattern looked at: without a
    compiled pattern and without [subject_regex], [KeyError]; a pattern text
    that does not compile raises, after the one call to [re.compile], and
    nothing is stored; and a message without subject raises [TypeError]. *)
Theorem checks_raise_for_missing_settings (i : nat) (m : message) (w : world)
  (t : csv_type) :
  csv_file_types w !! i = Some t ->
  (check t = None -> check_type i m w = (Raise (KeyError "check"), w))
  /\ (forall c,
         check t = Some c -> check_from c = None ->
         check_type i m w = (Raise (KeyError "from"), w))
  /\ (forall c required_from,
         check t = Some c -> check_from c = Some required_from ->
         required_from <> msg_from m ->
         check_type i m w = (Ok Continue, w))
  /\ (forall c,
         check t = Some c -> check_from c = Some (msg_from m) ->
         subject_regex_compiled c = None -> subject_regex c = None ->
         check_type i m w = (Raise (KeyError "subject_regex"), w))
  /\ (forall c l e,
         check t = Some c -> check_from c = Some (msg_from m) ->
         subject_regex_compiled c = None -> subject_regex c = Some l ->
         Re.re_compile (join l) = Raise e ->
         check_type i m w
         = (Raise e,
            World (csv_file_types w) (database w) (files w)
              (calls w ++ [CallCompile i (join l)])))
  /\ (forall c r,
         check t = Some c -> check_from c = Some (msg_from m) ->
         pattern_of c = Ok r -> msg_subject m = None ->
         (check_type i m w).1 = Raise TypeError).
Proof.
  intros Hi. rewrite (check_type_spec i m w t Hi).
  assert (Hsame : forall (r : result checked),
             pattern_to_compile m t = None ->
             (r, World (<[i := after_check m t]> (csv_file_types w))
                   (database w) (files w) (calls w ++ compile_calls i m t))
             = (r, w)).
  { intros r Hp. unfold after_check, compile_calls. rewrite Hp.
    rewrite app_nil_r, (list_insert_id _ _ _ Hi). destruct w; reflexivity. }
  split; [| split; [| split; [| split; [| split]]]].
  - intros Hc. unfold verdict_of. rewrite Hc. apply Hsame.
    unfold pattern_to_compile. rewrite Hc. reflexivity.
  - intros c Hc Hf. unfold verdict_of. rewrite Hc, Hf. apply Hsame.
    unfold pattern_to_compile. rewrite Hc.
    destruct c as [cf l r]. simpl in Hf. subst cf. reflexivity.
  - intros c f Hc Hf Hne.
    destruct (other_sender_rejected m t) as [Hv Hp].
    { exists c, f. auto. }
    rewrite Hv. apply Hsame. exact Hp.
  - intros c Hc Hf Hr Hl. unfold verdict_of, pattern_of.
    rewrite Hc, Hf, Hr, Hl, String.eqb_refl. simpl. apply Hsame.
    unfold pattern_to_compile. rewrite Hc.
    destruct c as [cf l r]. simpl in *. subst. reflexivity.
  - intros c l e Hc Hf Hr Hl Hcompile.
    assert (Hp : pattern_to_compile m t = Some (join l)).
    { unfold pattern_to_compile. rewrite Hc.
      destruct c as [cf l' r]. simpl in *. subst.
      rewrite String.eqb_refl. reflexivity. }
    unfold verdict_of, pattern_of, after_check, compile_calls.
    rewrite Hc, Hf, Hr, Hl, Hp, String.eqb_refl. simpl.
    rewrite Hcompile, (list_insert_id _ _ _ Hi). reflexivity.
  - intros c r Hc Hf Hr Hs. simpl. unfold verdict_of.
    rewrite Hc, Hf, Hr, Hs, String.eqb_refl. reflexivity.
Qed.

(** X12.  [process_message] returns [False] exactly when every CSV type
    rejected the message.  It is never returned once a type has accepted the
    message: loading either ends with [True] or raises. *)
Theorem false_means_no_type_accepted (m : message) (w : world) :
  ((process_message m w).1 = Ok false
   <-> Forall (fun t => verdict_of m t = Rejected) (csv_file_types w))
  /\ ((process_message m w).1 = Ok true ->
      exists i d t,
        (classify m 0 (csv_file_types w)).1.1 = Ok (Some (i, d))
        /\ csv_file_types w !! i = Some t
        /\ verdict_of m t = Accepted d).
Proof.
  rewrite process_message_spec.
  destruct (classify m 0 (csv_file_types w)) as [[r ts'] evs] eqn:Hc.
  split.
  - split.
    + intros Hfalse. apply (classify_none m _ 0). rewrite Hc. simpl.
      destruct r as [[[i d]|]|e]; simpl in Hfalse;
        [| reflexivity | discriminate].
      exfalso. exact (load_message_not_false _ _ _ _ Hfalse).
    + intros Hall. rewrite (classify_all_rejected m _ 0 Hall) in Hc.
      injection Hc as <- <- <-. reflexivity.
  - destruct r as [[[i d]|]|e]; simpl; try discriminate.
    intros _.
    assert (Hshape : forall ts j ts'' evs',
               classify m j ts = (Ok (Some (i, d)), ts'', evs') ->
               exists t, ts !! (i - j) = Some t /\ j <= i
                         /\ verdict_of m t = Accepted d).
    { clear. induction ts as [|t ts IH]; intros j ts'' evs' Hc;
        simpl in Hc; [discriminate|].
      destruct (verdict_of m t) as [|d0|e] eqn:Hv.
      - destruct (classify m (S j) ts) as [[r0 ts0] evs0] eqn:Hrec.
        injection Hc as -> <- <-.
        destruct (IH (S j) _ _ Hrec) as (t0 & Ht0 & Hle & Hv0).
        exists t0. split; [|split; [lia | exact Hv0]].
        replace (i - j) with (S (i - S j)) by lia. exact Ht0.
      - injection Hc as <- <- <- <-. exists t.
        rewrite Nat.sub_diag. auto.
      - discriminate. }
    destruct (Hshape _ 0 _ _ Hc) as (t & Ht & _ & Hv).
    rewrite Nat.sub_0_r in Ht. exists i, d, t. auto.
Qed.

(** X16.  What [process_emails] returns says nothing about the messages.
    It returns [False] only when the settings could not be read; with
    settings, an inbox whose messages are all rejected by every type gives
    [True], the database and the files untouched and no call made but
    compilations of patterns. *)
Theorem process_emails_value_ignores_messages
  (settings : option (list csv_type)) (db : D) (fs : F)
  (inbox : list message) :
  ((process_emails settings db fs inbox).1 = Ok false <-> settings = None)
  /\ (forall types,
         settings = Some types ->
         Forall (fun m => Forall (fun t => verdict_of m t = Rejected) types)
           inbox ->
         let w' : world := (process_emails settings db fs inbox).2 in
         (process_emails settings db fs inbox).1 = Ok true
         /\ database w' = db /\ files w' = fs
         /\ Forall (fun e => is_compile e = true) (calls w')).
Proof.
  split.
  - unfold process_emails. destruct settings as [types|].
    + unfold bind, ret.
      destruct (for_each_message inbox (World types db fs [])) as [[[]|e] w'];
        split; discriminate.
    + split; reflexivity.
  - intros types -> Hall. unfold process_emails.
    assert (Hloop : forall (w : world),
               same_verdicts types (csv_file_types w) ->
               exists w' new,
                 for_each_message inbox w = (Ok tt, w')
                 /\ database w' = database w /\ files w' = files w
                 /\ calls w' = calls w ++ new
                 /\ Forall (fun e => is_compile e = true) new).
    { induction Hall as [|m inbox Hm _ IH]; intros w Hv; simpl.
      - exists w, []. unfold ret. rewrite app_nil_r. auto.
      - unfold bind. rewrite process_message_spec.
        rewrite (classify_all_rejected m _ 0
                   (same_verdicts_rejected m _ _ Hv Hm)).
        cbv beta iota zeta.
        set (w1 := World (map (after_check m) (csv_file_types w)) (database w)
                     (files w) (calls w ++ checks_calls m 0 (csv_file_types w))
                   : world).
        destruct (IH w1) as (w' & new & Hrun & Hdb & Hfs & Hcalls & Hnew).
        { eapply same_verdicts_trans; [exact Hv|]. unfold w1; simpl.
          pose proof (classify_keeps m (csv_file_types w) 0) as [Hk _].
          rewrite (classify_all_rejected m _ 0
                     (same_verdicts_rejected m _ _ Hv Hm)) in Hk.
          exact Hk. }
        exists w', (checks_calls m 0 (csv_file_types w) ++ new).
        rewrite Hrun, Hcalls. unfold w1; simpl.
        split; [reflexivity|]. split; [assumption|]. split; [assumption|].
        split; [rewrite app_assoc; reflexivity|].
        apply Forall_app. split; [|exact Hnew].
        apply Forall_forall. intros c Hc.
        apply checks_calls_index in Hc as (j & p & -> & _). reflexivity. }
    destruct (Hloop (World types db fs [])) as (w' & new & Hrun & Hdb & Hfs
                                                & Hcalls & Hnew).
    { apply same_verdicts_refl. }
    unfold bind. rewrite Hrun. simpl in *.
    rewrite Hcalls. auto.
Qed.

(** X17.  Nothing is caught between a message and the end of the run:
    whatever exception leaves [process_message] for one message, it leaves
    the loop over the inbox and [process_emails] in the world that message
    left, and the messages after it are not processed. *)
Theorem any_exception_ends_the_run (before : list message) (m : message)
  (inbox : list message) (w0 w w' : world) (e : exn) :
  for_each_message before w0 = (Ok tt, w) ->
  process_message m w = (Raise e, w') ->
  for_each_message (before ++ m :: inbox) w0 = (Raise e, w')
  /\ forall types db fs,
      w0 = World types db fs [] ->
      process_emails (Some types) db fs (before ++ m :: inbox) = (Raise e, w').
Proof.
  intros Hbefore Hraise.
  assert (Hrun : for_each_message (before ++ m :: inbox) w0 = (Raise e, w')).
  { rewrite (for_each_message_app before _ w0 w Hbefore). simpl.
    unfold bind. rewrite Hraise. reflexivity. }
  split; [exact Hrun|].
  intros types db fs ->. unfold process_emails, bind. rewrite Hrun. reflexivity.
Qed.

(** X4.  The copy of the CSV of a message given to a type with a file path:
    when the message is processed to the end, the text of the message was
    written to that path once, after the calls about the table and before
    every [insert_row] call, and the files are those the write left.  When
    the write fails, the exception leaves [process_message] before any row
    is inserted. *)
Theorem copy_is_written_before_any_row (m : message) (w : world) (i : nat)
  (d : gmap string (option string)) (ts' : list csv_type) (evs : list event)
  (t : csv_type) (name : string) (self : parser) (path : string) :
  classify m 0 (csv_file_types w) = (Ok (Some (i, d)), ts', evs) ->
  ts' !! i = Some t ->
  table_name_of t d = Ok name ->
  parser_init t name d = Ok self ->
  save_file_path self = Some path ->
  let w2 : world := (process_message m w).2 in
  ((process_message m w).1 = Ok true ->
   exists schema rows,
     calls w2
     = calls w ++ evs ++ schema ++ CallWrite path (msg_content m) :: rows
     /\ Forall (fun e => is_storage_call e = true /\ is_insert_row e = false)
          schema
     /\ Forall (fun e => is_insert_row e = true) rows
     /\ write_file (files w) path (msg_content m) = Ok (files w2))
  /\ (forall e,
         table_exists (database w) name = true ->
         write_file (files w) path (msg_content m) = Raise e ->
         process_message m w
         = (Raise e,
            World ts' (database w) (files w)
              (calls w ++ evs
               ++ [CallTableExists name; CallWrite path (msg_content m)]))).
Proof.
  intros Hclass Hi Hname Hinit Hpath w2.
  assert (Hrun : process_message m w
                 = load_message i m d
                     (World ts' (database w) (files w) (calls w ++ evs)))
    by (rewrite process_message_spec, Hclass; reflexivity).
  set (w1 := World ts' (database w) (files w) (calls w ++ evs) : world) in *.
  pose proof (load_message_unfold i m d w1 t Hi) as Hload.
  rewrite Hname in Hload. cbv zeta in Hload.
  unfold w2. rewrite Hrun, Hload. clear Hload. split.
  - destruct (table_exists (database w1) name) eqn:Hex.
    + intros Hok.
      destruct (run_parser_copy t name d m self path
                  (World (csv_file_types w1) (database w1) (files w1)
                     (calls w1 ++ [CallTableExists name])) Hinit Hpath)
        as [(rows & Hcalls & Hrows) Hfiles].
      exists [CallTableExists name], rows.
      split; [rewrite Hcalls; simpl; rewrite <- !app_assoc; reflexivity|].
      split; [repeat constructor|].
      split; [exact Hrows | exact (Hfiles Hok)].
    + destruct (columns_of t) as [cols|e]; [|discriminate].
      destruct (create_table (database w1) name cols) as [db'|e];
        [|discriminate].
      intros Hok.
      destruct (run_parser_copy t name d m self path
                  (World (csv_file_types w1) db' (files w1)
                     (calls w1
                      ++ [CallTableExists name; CallCreateTable name cols]))
                  Hinit Hpath)
        as [(rows & Hcalls & Hrows) Hfiles].
      exists [CallTableExists name; CallCreateTable name cols], rows.
      split; [rewrite Hcalls; simpl; rewrite <- !app_assoc; reflexivity|].
      split; [repeat constructor|].
      split; [exact Hrows | exact (Hfiles Hok)].
  - intros e Hex Hwrite. simpl in Hex |- *. rewrite Hex.
    rewrite (run_parser_with_path _ _ _ _ _ _ _ Hinit Hpath). simpl.
    rewrite Hwrite, <- !app_assoc. reflexivity.
Qed.

(** X2.  [__init__] catches [KeyError] only.  A file name template in which,
    after a part that formats well, comes a field that asks for a positional
    argument ([IndexError], there being none) or a closing brace that closes
    nothing ([ValueError]) makes the constructor raise, after the table was
    asked about and, when it was absent, created: the table is left without
    rows and nothing is written. *)
Theorem template_error_leaves_constructor (m : message) (w : world) (i : nat)
  (d : gmap string (option string)) (ts' : list csv_type) (evs : list event)
  (t : csv_type) (name : string) (sc : save_csv_settings) (fmt : string)
  (e : exn) :
  classify m 0 (csv_file_types w) = (Ok (Some (i, d)), ts', evs) ->
  ts' !! i = Some t ->
  table_name_of t d = Ok name ->
  save_csv t = Some sc ->
  csv_file_name_format sc = Some fmt ->
  template_raises d (strip fmt) e ->
  parser_init t name d = Raise e
  /\ (table_exists (database w) name = true ->
      process_message m w
      = (Raise e,
         World ts' (database w) (files w)
           (calls w ++ evs ++ [CallTableExists name])))
  /\ (forall cols db',
         table_exists (database w) name = false ->
         columns_of t = Ok cols ->
         create_table (database w) name cols = Ok db' ->
         process_message m w
         = (Raise e,
            World ts' db' (files w)
              (calls w ++ evs
               ++ [CallTableExists name; CallCreateTable name cols]))).
Proof.
  intros Hclass Hi Hname Hsc Hfmt Htemplate.
  destruct (template_raises_format d _ e Htemplate) as [Hraise Hnot].
  assert (Hinit : parser_init t name d = Raise e).
  { unfold parser_init, save_path. rewrite Hsc. simpl. rewrite Hfmt. simpl.
    rewrite Hraise. simpl. destruct e; try reflexivity.
    exfalso. eapply Hnot. reflexivity. }
  assert (Hrun : process_message m w
                 = load_message i m d
                     (World ts' (database w) (files w) (calls w ++ evs)))
    by (rewrite process_message_spec, Hclass; reflexivity).
  set (w1 := World ts' (database w) (files w) (calls w ++ evs) : world) in *.
  pose proof (load_message_unfold i m d w1 t Hi) as Hload.
  rewrite Hname in Hload. cbv zeta in Hload.
  split; [exact Hinit|]. rewrite Hrun, Hload. clear Hload. simpl. split.
  - intros Hex. rewrite Hex, (run_parser_raise _ _ _ _ _ _ Hinit).
    rewrite <- app_assoc. reflexivity.
  - intros cols db' Hex Hcols Hcreate. rewrite Hex, Hcols, Hcreate.
    rewrite (run_parser_raise _ _ _ _ _ _ Hinit).
    rewrite <- app_assoc. reflexivity.
Qed.


(** X1.  The parser [__init__] makes for a CSV type whose settings are
    complete: it has the table name given; one column per column of the
    settings, in their order, whose database field is the [field] of the
    settings and, without one, the CSV name; and the file name joined to
    [CSV_FOLDER] as its path.  The join does not keep the copy inside the
    folder: a file name that starts with a slash is the path as it stands;
    any other is appended to the folder, after a slash if the folder does
    not end in one. *)
Theorem copy_path_is_joined_to_folder (t : csv_type) (sc : save_csv_settings)
  (fmt : string) (d : gmap string (option string)) (file_name name : string)
  (cols : list (string * column_details)) :
  save_csv t = Some sc ->
  csv_file_name_format sc = Some fmt ->
  str_format (strip fmt) d = Ok file_name ->
  columns_of t = Ok cols ->
  exists self : parser,
    parser_init t name d = Ok self
    /\ table_name self = name
    /\ map (fun c => (c.1.1, c.2)) (csv_columns self) = cols
    /\ Forall (fun c => c.1.2 = default c.1.1 (col_field c.2))
         (csv_columns self)
    /\ save_file_path self = Some (path_join CSV_FOLDER file_name)
    /\ (forall rest,
           file_name = String "/" rest -> save_file_path self = Some file_name)
    /\ ((forall rest, file_name <> String "/" rest) ->
        exists sep,
          (sep = "" \/ sep = "/")
          /\ save_file_path self = Some (CSV_FOLDER +:+ sep +:+ file_name)).
Proof.
  intros Hsc Hfmt Hname Hcols.
  unfold columns_of in Hcols.
  destruct (load_csv t) as [[[cols'|]]|] eqn:Hload; try discriminate.
  simpl in Hcols. injection Hcols as ->.
  eexists. split.
  { unfold parser_init, save_path. rewrite Hsc. simpl. rewrite Hfmt. simpl.
    rewrite Hname. simpl. rewrite Hload. simpl. reflexivity. }
  cbn [table_name csv_columns save_file_path].
  split; [reflexivity|]. split; [| split; [| split; [reflexivity | split]]].
  - clear. induction cols as [|[csv_name details] cols IH]; simpl;
      [reflexivity | rewrite IH; reflexivity].
  - clear. induction cols as [|[csv_name details] cols IH]; simpl;
      constructor; auto.
  - intros rest ->. unfold path_join. reflexivity.
  - intros Hrel. unfold path_join.
    assert (Hfolder : forall a : string,
               exists sep,
                 (sep = "" \/ sep = "/")
                 /\ Some (match rev (chars a) with
                          | [] => file_name
                          | l :: _ =>
                              if Re.is_chr l "/" then a +:+ file_name
                              else a +:+ "/" +:+ file_name
                          end) = Some (a +:+ sep +:+ file_name)).
    { intros a. destruct (rev (chars a)) as [|l tl] eqn:Hrev.
      - exists "". split; [auto|].
        assert (Ha : chars a = [])
          by (apply (f_equal (@rev ascii)) in Hrev;
              rewrite rev_involutive in Hrev; exact Hrev).
        destruct a; [reflexivity | discriminate].
      - destruct (Re.is_chr l "/"); [exists "" | exists "/"]; auto. }
    destruct file_name as [|c rest]; [apply Hfolder|].
    simpl chars. cbv iota.
    destruct (Re.is_chr c "/") eqn:Hc; [|apply Hfolder].
    exfalso. unfold Re.is_chr in Hc. apply Ascii.eqb_eq in Hc as ->.
    exact (Hrel rest eq_refl).
Qed.


Lemma parser_init_table_name (t : csv_type) (name : string)
  (d : gmap string (option string)) (self : parser) :
  parser_init t name d = Ok self -> table_name self = name.
Proof.
  unfold parser_init.
  destruct (save_path t d) as [p|]; [|discriminate]. simpl.
  destruct (load_csv t) as [[[cols|]]|]; simpl; try discriminate.
  intros [= <-]. reflexivity.
Qed.

Lemma settings_kept_reads (t t' : csv_type) (name : string)
  (d : gmap string (option string)) :
  settings_kept t t' ->
  table_name_of t' d = table_name_of t d
  /\ columns_of t' = columns_of t
  /\ parser_init t' name d = parser_init t name d.
Proof.
  intros (Ha & Hb & Hc & _).
  unfold table_name_of, columns_of, parser_init, save_path.
  rewrite Ha, Hb, Hc. auto.
Qed.

Lemma filter_insert_row_map (name : string) (fs : list (gmap string value)) :
  List.filter is_insert_row (map (CallInsertRow name) fs)
  = map (CallInsertRow name) fs.
Proof. induction fs as [|f fs IH]; simpl; [|rewrite IH]; reflexivity. Qed.

Lemma filter_insert_row_none (cs : list event) :
  Forall (fun e => is_insert_row e = false) cs ->
  List.filter is_insert_row cs = [].
Proof.
  induction 1 as [|e cs He _ IH]; simpl; [reflexivity|].
  rewrite He. exact IH.
Qed.

Lemma coerced_rows_unique (columns : list (string * string * column_details))
  (rows : list (gmap string string)) :
  forall fs fs' : list (gmap string value),
    Forall2 (fun row f => row_fields row columns ∅ = Ok f) rows fs ->
    Forall2 (fun row f => row_fields row columns ∅ = Ok f) rows fs' ->
    fs = fs'.
Proof.
  intros fs fs' Hfs. revert fs'.
  induction Hfs as [|row f rows fs Hf _ IH]; intros fs' Hfs';
    inversion Hfs'; subst; [reflexivity|].
  f_equal; [congruence | auto].
Qed.

Lemma run_parser_without_path (t : csv_type) (name : string)
  (d : gmap string (option string)) (m : message) (self : parser) (w : world) :
  parser_init t name d = Ok self ->
  save_file_path self = None ->
  run_parser t name d m w =
    bind (for_each_row self (csv_records (msg_content m))) (fun _ => ret true) w.
Proof.
  intros Hinit Hpath.
  unfold run_parser. unfold bind at 1. unfold lift. rewrite Hinit.
  unfold parser_process_message, process_csv_content,
    base_process_csv_content.
  rewrite Hpath. unfold bind, ret. reflexivity.
Qed.

Lemma run_parser_inserts (t : csv_type) (name : string)
  (d : gmap string (option string)) (m : message) (w w' : world) :
  run_parser t name d m w = (Ok true, w') ->
  exists self fs copy,
    parser_init t name d = Ok self
    /\ Forall2 (fun row f => row_fields row (csv_columns self) ∅ = Ok f)
         (csv_records (msg_content m)) fs
    /\ calls w' = calls w ++ copy ++ map (CallInsertRow name) fs
    /\ Forall (fun e => is_insert_row e = false) copy.
Proof.
  destruct (parser_init t name d) as [self|e] eqn:Hinit;
    [| rewrite (run_parser_raise _ _ _ _ _ _ Hinit); discriminate].
  pose proof (parser_init_table_name _ _ _ _ Hinit) as Htable.
  assert (Hrows : forall w1 : world,
             bind (for_each_row self (csv_records (msg_content m)))
               (fun _ => ret true) w1 = (Ok true, w') ->
             exists fs,
               Forall2 (fun row f => row_fields row (csv_columns self) ∅ = Ok f)
                 (csv_records (msg_content m)) fs
               /\ calls w' = calls w1 ++ map (CallInsertRow name) fs).
  { intros w1. unfold bind.
    destruct (for_each_row self (csv_records (msg_content m)) w1)
      as [[[]|e] w2] eqn:Hrun; [|discriminate].
    unfold ret. intros [= <-].
    apply for_each_row_calls in Hrun as (fs & Hfs & Hcalls).
    exists fs. rewrite <- Htable. auto. }
  destruct (save_file_path self) as [path|] eqn:Hpath.
  - rewrite (run_parser_with_path _ _ _ _ _ _ _ Hinit Hpath). cbv zeta.
    destruct (write_file (files w) path (msg_content m)) as [f'|e];
      [|discriminate].
    intros Hrun. apply Hrows in Hrun as (fs & Hfs & Hcalls).
    exists self, fs, [CallWrite path (msg_content m)].
    split; [reflexivity|]. split; [exact Hfs|].
    split; [|repeat constructor].
    rewrite Hcalls. simpl. rewrite <- app_assoc. reflexivity.
  - rewrite (run_parser_without_path _ _ _ _ _ _ Hinit Hpath).
    intros Hrun. apply Hrows in Hrun as (fs & Hfs & Hcalls).
    exists self, fs, []. auto.
Qed.

Lemma process_message_inserts (m : message) (w w' : world) :
  process_message m w = (Ok true, w') ->
  exists i d t name self fs other,
    (classify m 0 (csv_file_types w)).1.1 = Ok (Some (i, d))
    /\ csv_file_types w' !! i = Some t
    /\ table_name_of t d = Ok name
    /\ parser_init t name d = Ok self
    /\ Forall2 (fun row f => row_fields row (csv_columns self) ∅ = Ok f)
         (csv_records (msg_content m)) fs
    /\ calls w' = calls w ++ other ++ map (CallInsertRow name) fs
    /\ Forall (fun e => is_insert_row e = false) other.
Proof.
  intros Hrun.
  pose proof (process_message_types m w) as Htypes.
  rewrite Hrun in Htypes. simpl in Htypes.
  rewrite process_message_spec in Hrun.
  destruct (classify m 0 (csv_file_types w)) as [[r ts'] evs] eqn:Hc.
  simpl in Htypes. subst ts'.
  destruct r as [[[i d]|]|e]; [| discriminate | discriminate].
  assert (Hevs : Forall (fun e => is_insert_row e = false) evs).
  { clear - Hc. revert Hc. generalize 0 (csv_file_types w) (csv_file_types w').
    intros j ts. revert j evs.
    induction ts as [|t ts IH]; intros j evs ts' Hc; simpl in Hc.
    - discriminate.
    - assert (Hcompile : Forall (fun e => is_insert_row e = false)
                           (compile_calls j m t)).
      { unfold compile_calls. destruct (pattern_to_compile m t);
          repeat constructor. }
      destruct (verdict_of m t) as [|d0|e].
      + destruct (classify m (S j) ts) as [[r0 ts0] evs0] eqn:Hrec.
        injection Hc as -> <- <-. apply Forall_app. split; [exact Hcompile|].
        eapply IH. exact Hrec.
      + injection Hc as <- <- <- <-. exact Hcompile.
      + discriminate. }
  destruct (lookup_lt_is_Some_2 (csv_file_types w') i) as [t Hi].
  { pose proof (classify_index _ _ _ _ _ _ _ Hc) as Hlt.
    pose proof (classify_types _ _ _ _ _ _ Hc) as Hall.
    rewrite <- (Forall2_length _ _ _ Hall). lia. }
  set (w1 := World (csv_file_types w') (database w) (files w) (calls w ++ evs)
             : world) in *.
  rewrite (load_message_unfold i m d w1 t Hi) in Hrun.
  destruct (table_name_of t d) as [name|e] eqn:Hname; [|discriminate].
  cbv zeta in Hrun.
  destruct (table_exists (database w1) name).
  - apply run_parser_inserts in Hrun
      as (self & fs & copy & Hinit & Hfs & Hcalls & Hcopy).
    exists i, d, t, name, self, fs, (evs ++ CallTableExists name :: copy).
    repeat (split; [first [reflexivity | assumption]|]).
    split.
    + rewrite Hcalls. simpl. rewrite <- !app_assoc. reflexivity.
    + apply Forall_app. split; [exact Hevs|]. constructor; [reflexivity|].
      exact Hcopy.
  - destruct (columns_of t) as [cols|e]; [|discriminate].
    destruct (create_table (database w1) name cols) as [db'|e];
      [|discriminate].
    apply run_parser_inserts in Hrun
      as (self & fs & copy & Hinit & Hfs & Hcalls & Hcopy).
    exists i, d, t, name, self, fs,
      (evs ++ CallTableExists name :: CallCreateTable name cols :: copy).
    repeat (split; [first [reflexivity | assumption]|]).
    split.
    + rewrite Hcalls. simpl. rewrite <- !app_assoc. reflexivity.
    + apply Forall_app. split; [exact Hevs|].
      constructor; [reflexivity|]. constructor; [reflexivity|]. exact Hcopy.
Qed.

(** X15.  Nothing remembers which messages were loaded.  A message that is
    processed to the end a second time has the same rows inserted again:
    the [insert_row] calls of the second time are those of the first, one
    per record of the text, each for the table of the message. *)
Theorem reprocessing_inserts_the_rows_again (m : message) (w w1 w2 : world) :
  process_message m w = (Ok true, w1) ->
  process_message m w1 = (Ok true, w2) ->
  List.filter is_insert_row (new_calls w1 w2)
  = List.filter is_insert_row (new_calls w w1)
  /\ length (List.filter is_insert_row (new_calls w w1))
     = length (csv_records (msg_content m))
  /\ exists name,
      Forall (fun e => exists fields, e = CallInsertRow name fields)
        (List.filter is_insert_row (new_calls w w1)).
Proof.
  intros Hfirst Hsecond.
  assert (Hnew : forall (wa wb : world) other name fs,
             calls wb = calls wa ++ other ++ map (CallInsertRow name) fs ->
             Forall (fun e => is_insert_row e = false) other ->
             List.filter is_insert_row (new_calls wa wb)
             = map (CallInsertRow name) fs).
  { intros wa wb other name fs Hcalls Hother. unfold new_calls.
    rewrite Hcalls, drop_app_length, List.filter_app.
    rewrite (filter_insert_row_none _ Hother), filter_insert_row_map.
    reflexivity. }
  destruct (process_message_keeps m w) as [Hv _].
  destruct (process_message_keeps m w1) as [_ Hs].
  rewrite Hfirst in Hv. rewrite Hsecond in Hs. simpl in Hv, Hs.
  pose proof (classify_same_verdicts m _ _ Hv 0) as Hsame.
  apply process_message_inserts in Hfirst
    as (i & d & t & name & self & fs & other & Hc & Hi & Hname & Hinit & Hfs
        & Hcalls & Hother).
  apply process_message_inserts in Hsecond
    as (i' & d' & t' & name' & self' & fs' & other' & Hc' & Hi' & Hname'
        & Hinit' & Hfs' & Hcalls' & Hother').
  rewrite Hsame, Hc in Hc'. injection Hc' as <- <-.
  destruct (Forall2_lookup_l _ _ _ _ _ Hs Hi) as (t2 & Hi2 & Hkept).
  rewrite Hi' in Hi2. injection Hi2 as <-.
  destruct (settings_kept_reads t t' name d Hkept) as (Hn & _ & Hp).
  rewrite Hn, Hname in Hname'. injection Hname' as <-.
  rewrite Hp, Hinit in Hinit'. injection Hinit' as <-.
  pose proof (coerced_rows_unique _ _ _ _ Hfs Hfs') as <-.
  rewrite (Hnew _ _ _ _ _ Hcalls Hother), (Hnew _ _ _ _ _ Hcalls' Hother').
  split; [reflexivity|]. split.
  - rewrite length_map. symmetry. exact (Forall2_length _ _ _ Hfs).
  - exists name. apply Forall_forall. intros e He.
    apply list_elem_of_fmap in He as (f & -> & _). eauto.
Qed.

End Further.

(** ** The properties at work

    Each property with hypotheses is applied to the examples. *)

Section AtWork.

Import Memory Examples.

(** C1 on an example: the laboratory's type rejects a report of the
    operations desk, [underway] accepts it, and so would [catch_all], which
    comes later and is not tried. *)
Lemma first_accepting_type_is_chosen_witness :
  Forall (fun t' => verdict_of report t' = Rejected) [laboratory]
  /\ verdict_of report underway = Accepted voyage_123
  /\ verdict_of report catch_all = Accepted ∅
  /\ process_message report (world0 [laboratory; underway; catch_all])
     = load_message 1 report voyage_123
         (World
            (map (after_check report) [laboratory]
             ++ after_check report underway :: [catch_all])
            ∅ ∅ ([] ++ checks_calls report 0 ([laboratory] ++ [underway]))).
Proof.
  assert (H1 : Forall (fun t' => verdict_of report t' = Rejected) [laboratory])
    by (repeat constructor).
  assert (H2 : verdict_of report underway = Accepted voyage_123)
    by (vm_compute; reflexivity).
  split; [exact H1|]. split; [exact H2|]. split; [vm_compute; reflexivity|].
  exact (proj1 (first_accepting_type_is_chosen report [laboratory] underway
                  [catch_all] voyage_123
                  (world0 [laboratory; underway; catch_all]) eq_refl H1 H2)).
Defined.

(** C2 on an example: the first report of voyage 123 is asked about the
    table [voyage_123], and the table exists once the report is processed. *)
Lemma create_table_only_when_absent_witness :
  classify report 0 [underway]
  = (Ok (Some (0, voyage_123)), [after_check report underway],
     compile_calls 0 report underway)
  /\ table_name_of (after_check report underway) voyage_123 = Ok "voyage_123"
  /\ (process_message report (world0 [underway])).1 = Ok true
  /\ (exists new,
         calls (process_message report (world0 [underway])).2
         = [] ++ compile_calls 0 report underway
              ++ CallTableExists "voyage_123" :: new)
  /\ table_exists (database (process_message report (world0 [underway])).2)
       "voyage_123" = true.
Proof.
  assert (H1 : classify report 0 (csv_file_types (world0 [underway]))
               = (Ok (Some (0, voyage_123)), [after_check report underway],
                  compile_calls 0 report underway))
    by (vm_compute; reflexivity).
  assert (H2 : [after_check report underway] !! 0 = Some (after_check report underway))
    by reflexivity.
  assert (H3 : table_name_of (after_check report underway) voyage_123
               = Ok "voyage_123")
    by (vm_compute; reflexivity).
  assert (H4 : (process_message report (world0 [underway])).1 = Ok true)
    by (vm_compute; reflexivity).
  destruct (create_table_only_when_absent report (world0 [underway]) 0 voyage_123
              _ _ _ "voyage_123" H1 H2 H3) as [(new & Hcalls & _) Hsecond].
  split; [exact H1|]. split; [exact H3|]. split; [exact H4|].
  split; [exists new; exact Hcalls|].
  exact (proj1 (Hsecond memory_db_lawful H4)).
Defined.

(** C4 on an example: of three records the second has a date that does not
    parse; the loop ends there, in the world the first record left.  The
    text [not-a-date] does not conform to the format; [2024-02-31] does, and
    is no date. *)
Lemma datetime_coercion_and_abort_witness :
  process_column first_day ("time", "observed", observed_details)
  = Store "observed" (VDatetime (Strptime.Datetime 2024 3 1 0 0 0))
  /\ ~ conforms "not-a-date" "%Y-%m-%d"
  /\ process_column no_day ("time", "observed", observed_details)
     = Throw ValueError
  /\ conforms "2024-02-31" "%Y-%m-%d"
  /\ process_column no_date ("time", "observed", observed_details)
     = Throw ValueError
  /\ for_each_row voyage_parser [first_day; no_day; first_day] ashore
     = (Raise ValueError, (for_each_row voyage_parser [first_day] ashore).2).
Proof.
  pose proof (datetime_coercion_and_abort (D:=db) (F:=fs) first_day "time"
                "observed" observed_details eq_refl eq_refl) as (Hgood & _).
  pose proof (datetime_coercion_and_abort (D:=db) (F:=fs) no_day "time"
                "observed" observed_details eq_refl eq_refl)
    as (_ & Hbad & Habort & _ & Hnonconforming & _).
  pose proof (datetime_coercion_and_abort (D:=db) (F:=fs) no_date "time"
                "observed" observed_details eq_refl eq_refl)
    as (_ & _ & _ & _ & _ & Hnodate & _).
  assert (Hrow : no_day !! "time" = Some "not-a-date") by reflexivity.
  assert (Hnot : ~ conforms "not-a-date" "%Y-%m-%d").
  { intros Hc. apply conforms_decided in Hc. vm_compute in Hc. discriminate. }
  split; [apply Hgood; reflexivity|].
  split; [exact Hnot|].
  split; [exact (Hnonconforming "not-a-date" Hrow Hnot)|].
  split; [apply conforms_decided; vm_compute; reflexivity|].
  split; [apply Hnodate; reflexivity|].
  assert (Hbefore : for_each_row voyage_parser [first_day] ashore
                    = (Ok tt, (for_each_row voyage_parser [first_day] ashore).2))
    by (vm_compute; reflexivity).
  exact (proj2 (proj2 (Habort ValueError ("time", "observed", observed_details)
                         [] (tl (csv_columns voyage_parser)) voyage_parser
                         [first_day] [first_day] ashore _ (Hbad Hrow)
                         (List.Forall_nil _) eq_refl Hbefore))).
Defined.



(** C6 on an example: a message from a stranger leaves the world as it
    was. *)
Lemma unmatched_message_returns_false_witness :
  Forall (fun t => verdict_of stranger t = Rejected) [underway; laboratory]
  /\ process_message stranger (world0 [underway; laboratory])
     = (Ok false, world0 [underway; laboratory]).
Proof.
  assert (H1 : Forall (fun t => verdict_of stranger t = Rejected)
                 (csv_file_types (world0 [underway; laboratory])))
    by (repeat constructor).
  split; [exact H1|].
  destruct (unmatched_message_returns_false stranger
              (world0 [underway; laboratory]) H1) as (w' & Hrun & _).
  rewrite Hrun. f_equal.
  assert (Hw' : w' = (process_message stranger (world0 [underway; laboratory])).2)
    by (rewrite Hrun; reflexivity).
  rewrite Hw'. vm_compute. reflexivity.
Defined.


(** C9 on an example: [V123 (resent on Monday)] is accepted by the pattern
    for the voyage number, [Report V123] is not, though a search would find
    the number in it. *)
Lemma subject_match_is_anchored_prefix_witness :
  pattern_of (MkCheck (Some "ops@carrier.example")
                (Some ["V(?P<voyage_id>\d+)"]) None) = Ok number_pattern
  /\ (exists matched tail,
         chars "V123 (resent on Monday)" = matched ++ tail
         /\ matches number_pattern 0 matched tail)
  /\ is_Some (Re.re_search number_pattern "Report V123")
  /\ ~ (exists matched tail,
           chars "Report V123" = matched ++ tail
           /\ matches number_pattern 0 matched tail).
Proof.
  assert (Hp : pattern_of (MkCheck (Some "ops@carrier.example")
                             (Some ["V(?P<voyage_id>\d+)"]) None)
               = Ok number_pattern)
    by (vm_compute; reflexivity).
  pose proof (subject_match_is_anchored_prefix 0 long_report
                (world0 [number_only]) number_only _ number_pattern
                "V123 (resent on Monday)" eq_refl eq_refl eq_refl Hp eq_refl)
    as [Hlong _].
  pose proof (subject_match_is_anchored_prefix 0 late_report
                (world0 [number_only]) number_only _ number_pattern
                "Report V123" eq_refl eq_refl eq_refl Hp eq_refl)
    as [Hlate _].
  split; [exact Hp|]. split; [|split].
  - apply Hlong. exists voyage_123. vm_compute. reflexivity.
  - vm_compute. eauto.
  - intros Hsome. apply Hlate in Hsome as [d Hd].
    vm_compute in Hd. discriminate.
Defined.

(** Counterexample to C10 as stated: a record whose date does not parse gets
    no [insert_row] call. *)
Lemma bad_record_gets_no_insert_row :
  row_fields no_day (csv_columns voyage_parser) ∅ = Raise ValueError
  /\ calls (process_csv_row voyage_parser no_day ashore).2 = []
  /\ ~ one_insert_row_call voyage_parser no_day ashore.
Proof.
  split; [vm_compute; reflexivity|]. split; [vm_compute; reflexivity|].
  unfold one_insert_row_call. intros Hone. vm_compute in Hone. discriminate.
Qed.

(** The same seen from a message: two records, the first with a date that
    does not parse, and no [insert_row] call at all. *)
Lemma bad_report_inserts_nothing :
  verdict_of bad_report underway = Accepted voyage_123
  /\ length (csv_records (msg_content bad_report)) = 2
  /\ List.filter is_insert_row
       (calls (process_message bad_report (world0 [underway])).2) = []
  /\ ~ one_insert_row_per_record bad_report (world0 [underway]).
Proof.
  split; [vm_compute; reflexivity|]. split; [vm_compute; reflexivity|].
  split; [vm_compute; reflexivity|].
  unfold one_insert_row_per_record. intros Hone. vm_compute in Hone. discriminate.
Qed.

(** C10, as amended, on an example: a record with none of the columns of
    the settings is inserted as an empty dictionary. *)
Lemma one_insert_row_per_coerced_record_witness :
  Forall (skip_conditions unrelated) (csv_columns voyage_parser)
  /\ calls (process_csv_row voyage_parser unrelated ashore).2
     = [] ++ [CallInsertRow "voyage_123" ∅].
Proof.
  assert (H1 : Forall (skip_conditions unrelated) (csv_columns voyage_parser))
    by (repeat (constructor; [left; reflexivity|]); constructor).
  split; [exact H1|].
  exact (proj2 (one_insert_row_per_coerced_record voyage_parser)
           unrelated ashore H1).
Defined.

(** Counterexample to C1 as stated: [underway] is the first type, and the
    only one, whose sender and pattern match the report; the type before it
    matches nothing, since its pattern does not compile, and its check
    raises: [underway] is never chosen. *)
Lemma failing_check_hides_the_first_match :
  verdict_of report unbalanced = Failed ReError
  /\ verdict_of report underway = Accepted voyage_123
  /\ (process_message report (world0 [unbalanced; underway])).1 = Raise ReError
  /\ ~ first_match_is_chosen report (world0 [unbalanced; underway]).
Proof.
  assert (H1 : verdict_of report unbalanced = Failed ReError)
    by (vm_compute; reflexivity).
  assert (H2 : verdict_of report underway = Accepted voyage_123)
    by (vm_compute; reflexivity).
  split; [exact H1|]. split; [exact H2|]. split; [vm_compute; reflexivity|].
  intros Hchosen.
  specialize (Hchosen [unbalanced] underway [] voyage_123 eq_refl).
  assert (Hpre : Forall (fun t' => forall d', verdict_of report t' <> Accepted d')
                   [unbalanced]).
  { constructor; [|constructor]. intros d'. rewrite H1. discriminate. }
  specialize (Hchosen Hpre H2). vm_compute in Hchosen. discriminate.
Qed.

(** Counterexample to C6 as stated: a report without subject is accepted by
    no type, and [process_message] does not return [False]: it raises
    [TypeError]. *)
Lemma unaccepted_message_raises :
  Forall (fun t => forall d, verdict_of untitled t <> Accepted d) [underway]
  /\ (process_message untitled (world0 [underway])).1 = Raise TypeError
  /\ ~ unaccepted_returns_false untitled (world0 [underway]).
Proof.
  assert (H1 : Forall (fun t => forall d, verdict_of untitled t <> Accepted d)
                 [underway]).
  { constructor; [|constructor]. intros d.
    assert (Hv : verdict_of untitled underway = Failed TypeError)
      by (vm_compute; reflexivity).
    rewrite Hv. discriminate. }
  split; [exact H1|]. split; [vm_compute; reflexivity|].
  intros Hfalse. specialize (Hfalse H1). vm_compute in Hfalse. discriminate.
Qed.

(** C3 on an example: the record [first_day] has no column [depth], which
    the settings list last; the row is made all the same, of the other two
    columns. *)
Lemma row_omits_column_exactly_when_witness :
  skip_conditions first_day ("depth", "depth", ColumnDetails None None None)
  /\ row_fields first_day (csv_columns voyage_parser) ∅
     = row_fields first_day (take 2 (csv_columns voyage_parser)) ∅
  /\ row_fields first_day (csv_columns voyage_parser) ∅ = Ok first_day_row.
Proof.
  assert (H1 : skip_conditions first_day
                 ("depth", "depth", ColumnDetails None None None))
    by (left; reflexivity).
  destruct (row_omits_column_exactly_when first_day (csv_columns voyage_parser))
    as (_ & _ & _ & _ & _ & Hanywhere & _).
  split; [exact H1|]. split.
  - exact (Hanywhere (take 2 (csv_columns voyage_parser)) _ [] ∅ H1).
  - vm_compute. reflexivity.
Defined.

End AtWork.

(** ** More properties at work *)

Lemma result_and_world {A W : Type} (c : result A * W) (r : result A) :
  c.1 = r -> c = (r, c.2).
Proof. destruct c as [r' w]. simpl. intros ->. reflexivity. Qed.

Section FurtherAtWork.

Import Memory Examples.

(** X1 on examples: the copy of a report of voyage 123 goes to the folder;
    with the file name of [rooted] it goes to [/srv], outside the folder. *)
Lemma copy_path_is_joined_to_folder_witness :
  str_format (strip "/srv/{voyage_id}.csv") voyage_123 = Ok "/srv/123.csv"
  /\ CSV_FOLDER = "/data/csv"
  /\ exists self : parser,
      parser_init rooted "voyage_123" voyage_123 = Ok self
      /\ save_file_path self = Some "/srv/123.csv".
Proof.
  assert (H1 : str_format (strip "/srv/{voyage_id}.csv") voyage_123
               = Ok "/srv/123.csv")
    by (vm_compute; reflexivity).
  destruct (copy_path_is_joined_to_folder rooted
              (SaveCsv (Some "/srv/{voyage_id}.csv")) "/srv/{voyage_id}.csv"
              voyage_123 "/srv/123.csv" "voyage_123" voyage_columns
              eq_refl eq_refl H1 eq_refl)
    as (self & Hinit & _ & _ & _ & _ & Hrooted & _).
  split; [exact H1|]. split; [reflexivity|].
  exists self. split; [exact Hinit|]. exact (Hrooted "srv/123.csv" eq_refl).
Defined.

(** X2 on an example: the file name of [unnumbered] has a positional field;
    the first report creates the table and ends in [IndexError], and the
    table has no rows. *)
Lemma template_error_leaves_constructor_witness :
  template_raises voyage_123 (strip "v_{}.csv") IndexError
  /\ (process_message report (world0 [unnumbered])).1 = Raise IndexError
  /\ database (process_message report (world0 [unnumbered])).2
     = {[ "voyage_123" := (voyage_columns, []) ]}.
Proof.
  assert (H1 : classify report 0 (csv_file_types (world0 [unnumbered]))
               = (Ok (Some (0, voyage_123)), [after_check report unnumbered],
                  compile_calls 0 report unnumbered))
    by (vm_compute; reflexivity).
  assert (H2 : table_name_of (after_check report unnumbered) voyage_123
               = Ok "voyage_123")
    by (vm_compute; reflexivity).
  assert (H3 : template_raises voyage_123 (strip "v_{}.csv") IndexError).
  { change (strip "v_{}.csv") with ("v_" +:+ "{" +:+ "" +:+ "}" +:+ ".csv").
    apply (PositionalField voyage_123 "v_" "" ".csv" "v_");
      [reflexivity | reflexivity | simpl; lia]. }
  destruct (template_error_leaves_constructor report (world0 [unnumbered]) 0
              voyage_123 _ _ (after_check report unnumbered) "voyage_123"
              (SaveCsv (Some "v_{}.csv")) "v_{}.csv" IndexError
              H1 eq_refl H2 eq_refl eq_refl H3)
    as (_ & _ & Habsent).
  rewrite (Habsent voyage_columns {[ "voyage_123" := (voyage_columns, []) ]}
             eq_refl eq_refl eq_refl).
  split; [exact H3|]. split; reflexivity.
Defined.


(** X4 on an example: the first report of voyage 123 is copied to the
    folder. *)
Lemma copy_is_written_before_any_row_witness :
  (process_message report (world0 [underway])).1 = Ok true
  /\ write_file (∅ : fs) "/data/csv/v_123.csv" two_days
     = Ok (files (process_message report (world0 [underway])).2).
Proof.
  assert (H1 : classify report 0 (csv_file_types (world0 [underway]))
               = (Ok (Some (0, voyage_123)), [after_check report underway],
                  compile_calls 0 report underway))
    by (vm_compute; reflexivity).
  assert (H2 : table_name_of (after_check report underway) voyage_123
               = Ok "voyage_123")
    by (vm_compute; reflexivity).
  assert (H3 : parser_init (after_check report underway) "voyage_123" voyage_123
               = Ok archiving_parser)
    by (vm_compute; reflexivity).
  assert (H4 : (process_message report (world0 [underway])).1 = Ok true)
    by (vm_compute; reflexivity).
  destruct (copy_is_written_before_any_row report (world0 [underway]) 0
              voyage_123 _ _ (after_check report underway) "voyage_123"
              archiving_parser "/data/csv/v_123.csv" H1 eq_refl H2 H3 eq_refl)
    as [Hdone _].
  destruct (Hdone H4) as (schema & rows & _ & _ & _ & Hfiles).
  split; [exact H4 | exact Hfiles].
Defined.

(** X5 on an example: the columns [temp] and [other] both go to the field
    [reading]; [other] comes later and its text is what the field holds. *)
Lemma later_column_overwrites_earlier_witness :
  row_fields first_day merged_columns ∅ = Ok merged_row
  /\ merged_row !! "reading" = last_stored first_day merged_columns "reading"
  /\ last_stored first_day merged_columns "reading" = Some (VStr "zz").
Proof.
  assert (H1 : row_fields first_day merged_columns ∅ = Ok merged_row)
    by (vm_compute; reflexivity).
  split; [exact H1|].
  split; [| vm_compute; reflexivity].
  exact (later_column_overwrites_earlier first_day merged_columns merged_row H1
           "reading").
Defined.

(** X6 on an example: the columns of [voyage_parser] in the opposite
    order give the same row. *)
Lemma column_order_is_immaterial_witness :
  row_fields first_day (csv_columns voyage_parser) ∅ = Ok first_day_row
  /\ row_fields first_day (rev (csv_columns voyage_parser)) ∅ = Ok first_day_row.
Proof.
  assert (H1 : row_fields first_day (csv_columns voyage_parser) ∅
               = Ok first_day_row)
    by (vm_compute; reflexivity).
  assert (H2 : NoDup (map (fun c : string * string * column_details => c.1.2)
                        (csv_columns voyage_parser))).
  { apply (bool_decide_unpack _). vm_compute. exact I. }
  split; [exact H1|].
  exact (proj1 (column_order_is_immaterial first_day (csv_columns voyage_parser)
                  (rev (csv_columns voyage_parser))
                  (Permutation_rev _))
           first_day_row H2 H1).
Defined.

(** X7 on an example: the column [temp] is of type [float], and the field
    holds the text [1.5]. *)
Lemma text_is_stored_unconverted_witness :
  row_fields first_day (csv_columns voyage_parser) ∅ = Ok first_day_row
  /\ first_day_row !! "temp" = Some (VStr "1.5").
Proof.
  assert (H1 : row_fields first_day (csv_columns voyage_parser) ∅
               = Ok first_day_row)
    by (vm_compute; reflexivity).
  assert (H2 : NoDup (map (fun c : string * string * column_details => c.1.2)
                        (csv_columns voyage_parser))).
  { apply (bool_decide_unpack _). vm_compute. exact I. }
  assert (H3 : ("temp", "temp", ColumnDetails None (Some "float") None)
               ∈ csv_columns voyage_parser)
    by (apply list_elem_of_further, list_elem_of_here).
  assert (H4 : "float" <> "datetime") by discriminate.
  split; [exact H1|].
  exact (proj1 (text_is_stored_unconverted first_day (csv_columns voyage_parser)
                  first_day_row "temp" "temp"
                  (ColumnDetails None (Some "float") None) "1.5" "float"
                  H1 H2 H3 eq_refl eq_refl) H4).
Defined.

(** X9 on examples: the pattern of [unbalanced] does not compile, and
    [patternless] has none. *)
Lemma checks_raise_for_missing_settings_witness :
  Re.re_compile (join ["Voyage ("]) = Raise ReError
  /\ check_type 0 report (world0 [unbalanced])
     = (Raise ReError,
        World [unbalanced] ∅ ∅ ([] ++ [CallCompile 0 (join ["Voyage ("])]))
  /\ check_type 0 stranger (world0 [unbalanced])
     = (Ok Continue, world0 [unbalanced]).
Proof.
  assert (H1 : Re.re_compile (join ["Voyage ("]) = Raise ReError)
    by (vm_compute; reflexivity).
  assert (H2 : "ops@carrier.example" <> msg_from stranger) by discriminate.
  destruct (checks_raise_for_missing_settings 0 report (world0 [unbalanced])
              unbalanced eq_refl) as (_ & _ & _ & _ & Hcompile & _).
  destruct (checks_raise_for_missing_settings 0 stranger (world0 [unbalanced])
              unbalanced eq_refl) as (_ & _ & Hsender & _).
  split; [exact H1|]. split.
  - exact (Hcompile _ ["Voyage ("] ReError eq_refl eq_refl eq_refl eq_refl H1).
  - exact (Hsender _ "ops@carrier.example" eq_refl eq_refl H2).
Defined.

(** X10 on an example: [unbalanced] comes before [underway], which would
    accept the report; the report ends in the error of the pattern. *)
Lemma failing_check_shadows_later_types_witness :
  verdict_of report unbalanced = Failed ReError
  /\ verdict_of report underway = Accepted voyage_123
  /\ (process_message report (world0 [laboratory; unbalanced; underway])).1
     = Raise ReError
  /\ csv_file_types
       (process_message report (world0 [laboratory; unbalanced; underway])).2
     = [laboratory; unbalanced; underway].
Proof.
  assert (H1 : Forall (fun t' => verdict_of report t' = Rejected) [laboratory])
    by (repeat constructor).
  assert (H2 : verdict_of report unbalanced = Failed ReError)
    by (vm_compute; reflexivity).
  destruct (failing_check_shadows_later_types report [laboratory] unbalanced
              [underway] ReError
              (world0 [laboratory; unbalanced; underway]) eq_refl H1 H2)
    as [Hrun _].
  split; [exact H2|]. split; [vm_compute; reflexivity|].
  rewrite Hrun. split; [reflexivity | vm_compute; reflexivity].
Defined.

(** X11 on an example: a message from a stranger, with a type among the
    settings whose pattern would not compile. *)
Lemma stranger_changes_nothing_witness :
  Forall (other_sender stranger) [underway; unbalanced; laboratory]
  /\ process_message stranger (world0 [underway; unbalanced; laboratory])
     = (Ok false, world0 [underway; unbalanced; laboratory])
  /\ for_each_message [stranger; lab_report]
       (world0 [underway; unbalanced; laboratory])
     = for_each_message [lab_report]
         (world0 [underway; unbalanced; laboratory]).
Proof.
  assert (H1 : Forall (other_sender stranger)
                 (csv_file_types (world0 [underway; unbalanced; laboratory]))).
  { repeat constructor; eexists _, _;
      (split; [reflexivity|]; split; [reflexivity | discriminate]). }
  destruct (stranger_changes_nothing stranger
              (world0 [underway; unbalanced; laboratory]) H1) as [Hrun Hloop].
  split; [exact H1|]. split; [exact Hrun | exact (Hloop [lab_report])].
Defined.

(** X15 on an example: the report of voyage 123, processed twice, has its
    two rows inserted twice. *)
Lemma reprocessing_inserts_the_rows_again_witness :
  process_message report (world0 [underway]) = (Ok true, at_sea)
  /\ (process_message report at_sea).1 = Ok true
  /\ List.filter is_insert_row
       (new_calls at_sea (process_message report at_sea).2)
     = List.filter is_insert_row (new_calls (world0 [underway]) at_sea)
  /\ length (List.filter is_insert_row (new_calls (world0 [underway]) at_sea))
     = 2.
Proof.
  assert (H1 : process_message report (world0 [underway]) = (Ok true, at_sea)).
  { apply (result_and_world (process_message report (world0 [underway]))).
    vm_compute. reflexivity. }
  assert (H2 : process_message report at_sea
               = (Ok true, (process_message report at_sea).2)).
  { apply result_and_world. vm_compute. reflexivity. }
  destruct (reprocessing_inserts_the_rows_again report (world0 [underway])
              at_sea _ H1 H2) as (Hsame & Hlen & _).
  split; [exact H1|]. split; [rewrite H2; reflexivity|].
  split; [exact Hsame|]. rewrite Hlen. vm_compute. reflexivity.
Defined.

(** X17 on an example: the second message of three has a date that does
    not parse; the run ends in [ValueError] and the third message, a good
    report, is not processed. *)
Lemma any_exception_ends_the_run_witness :
  for_each_message [stranger] (world0 [underway])
  = (Ok tt, world0 [underway])
  /\ (process_message bad_report (world0 [underway])).1 = Raise ValueError
  /\ process_emails (Some [underway]) ∅ ∅ ([stranger] ++ bad_report :: [report])
     = (Raise ValueError, (process_message bad_report (world0 [underway])).2).
Proof.
  assert (H1 : for_each_message [stranger] (world0 [underway])
               = (Ok tt, world0 [underway]))
    by (vm_compute; reflexivity).
  assert (H2 : process_message bad_report (world0 [underway])
               = (Raise ValueError,
                  (process_message bad_report (world0 [underway])).2)).
  { apply result_and_world. vm_compute. reflexivity. }
  destruct (any_exception_ends_the_run [stranger] bad_report [report]
              (world0 [underway]) (world0 [underway]) _ ValueError H1 H2)
    as [_ Hrun].
  split; [exact H1|]. split; [rewrite H2; reflexivity|].
  exact (Hrun [underway] ∅ ∅ eq_refl).
Defined.

End FurtherAtWork.
